(** * Datastore types of OSV (lib/osv/models.py): ranges, events and derived indexes

    A shallow embedding of the affected-range / event model of [models.py]:
    the event ordering ([sorted_events]), the two schema conversions
    ([Bug.update_from_vulnerability], [Bug._get_pre_0_8_affects]) and the
    derivation pass that runs before every put ([Bug._pre_put_hook]).

    Conventions of the embedding.
    - Python [str] is [string]; the character classes of [re] and
      [str.lower] are the ASCII ones.
    - An ndb [StringProperty] that the code only ever tests for truthiness
      is a [string] whose empty value also stands for [None]; properties
      whose absence is observable ([repo_url], [key], [last_modified]) are
      options.
    - Raising is a value of [result]; the derivation pass, which mutates the
      entity before it raises, returns an [outcome] that keeps the entity.
    - A Python [dict] that is iterated is an association list in insertion
      order.
    - Modules that [models.py] imports but that are not part of the sources
      ([ecosystems], [semver_index], [sources], [bug.normalize_tags], the
      datastore) are fields of the record [External]. *)

From Stdlib Require Import List String Ascii Bool Arith NArith Lia.
From Stdlib Require Import Permutation Sorted RelationClasses.
Import ListNotations.
Open Scope string_scope.
Open Scope list_scope.

Set Implicit Arguments.

(** ** Exceptions and fallible computations *)

Inductive exn : Type :=
| ValueError (msg : string)
| AttributeError (msg : string)
| IndexError (msg : string)
| UnknownEcosystem (name : string).

Inductive result (A : Type) : Type :=
| Ok (a : A)
| Raise (e : exn).

Arguments Ok {A} a.
Arguments Raise {A} e.

Definition bind {A B : Type} (m : result A) (k : A -> result B) : result B :=
  match m with
  | Ok a => k a
  | Raise e => Raise e
  end.

Notation "x <- m ;; k" := (bind m (fun x => k))
  (at level 61, m at next level, right associativity).
Notation "' p <- m ;; k" := (bind m (fun x => match x with p => k end))
  (at level 61, p pattern, m at next level, right associativity).

(** Python truthiness of a [str]. *)
Definition truthy (s : string) : bool := negb (s =? "").

(** [a or b] on strings. *)
Definition str_or (a b : string) : string := if truthy a then a else b.

(** ** Validators of the ndb properties (models.py, lines 32-53) *)

Definition _check_valid_severity (value : string) : result unit :=
  if existsb (String.eqb value) ["LOW"; "MEDIUM"; "HIGH"; "CRITICAL"]
  then Ok tt
  else Raise (ValueError ("Invalid severity: " ++ value)%string).

Definition _check_valid_range_type (value : string) : result unit :=
  if existsb (String.eqb value) ["GIT"; "SEMVER"; "ECOSYSTEM"]
  then Ok tt
  else Raise (ValueError ("Invalid range type: " ++ value)%string).

Definition _check_valid_event_type (value : string) : result unit :=
  if existsb (String.eqb value) ["introduced"; "fixed"; "limit"]
  then Ok tt
  else Raise (ValueError ("Invalid event type: " ++ value)%string).

(** ** The entities *)

Module AffectedEvent.
Record t : Type := mk { type : string; value : string }.

(** Equality of ndb models is structural. *)
Definition eqb (a b : t) : bool :=
  (type a =? type b) && (value a =? value b).

(** [AffectedEvent(type=..., value=...)]: the validator of [type] runs on
    assignment. *)
Definition new (ty v : string) : result t :=
  _ <- _check_valid_event_type ty ;;
  Ok (mk ty v).
End AffectedEvent.

Module AffectedRange2.
Record t : Type := mk {
  type : string;
  repo_url : option string;
  events : list AffectedEvent.t }.

(** [AffectedRange2(type=..., events=...)]: [repo_url] stays [None]. *)
Definition new (ty : string) (evs : list AffectedEvent.t) : result t :=
  _ <- _check_valid_range_type ty ;;
  Ok (mk ty None evs).

Definition set_repo_url (r : t) (url : string) : t :=
  mk (type r) (Some url) (events r).

Definition set_events (r : t) (evs : list AffectedEvent.t) : t :=
  mk (type r) (repo_url r) evs.
End AffectedRange2.

Module Package.
Record t : Type := mk { ecosystem : string; name : string; purl : string }.
End Package.

Module AffectedPackage.
Record t : Type := mk {
  package : Package.t;
  ranges : list AffectedRange2.t;
  versions : list string }.

(** [AffectedPackage()] *)
Definition empty : t := mk (Package.mk "" "" "") [] [].
End AffectedPackage.

Module SourceRepository.
Record t : Type := mk { name : string; link : string; db_prefix : string }.
End SourceRepository.

(** ** The ecosystem comparator capability *)

(** An ecosystem helper gives every version string a sort key; keys are
    compared with [<], a strict total order. *)
Record EcosystemHelper : Type := {
  key : Type;
  sort_key : string -> key;
  key_lt : key -> key -> bool;
  key_lt_irrefl : forall a, key_lt a a = false;
  key_lt_trans : forall a b c,
      key_lt a b = true -> key_lt b c = true -> key_lt a c = true;
  key_lt_total : forall a b, key_lt a b = true \/ a = b \/ key_lt b a = true }.

(** Timestamps ([datetime]) are counted in seconds. *)
Definition datetime : Type := N.

(** The collaborators of [models.py] whose code is not part of the sources.
    [ecosystems_get] is modelled from the spec: the comparator registered
    for an ecosystem name, absent when none is registered. *)
Record External : Type := {
  SemverEcosystem : EcosystemHelper;
  ecosystems_get : string -> option EcosystemHelper;
  normalize_tags : list string -> list string;
  semver_index_normalize : string -> string;
  parse_source_id : string -> string * string;
  get_source_repository : string -> option SourceRepository.t }.

(** ** Python's [sorted] and [list.remove] *)

Section Sorted.
Variables (A K : Type) (lt : K -> K -> bool) (sortkey : A -> K).

(** [x] is placed in front of the first element whose key is not smaller
    than its own, so equal keys keep their input order. *)
Fixpoint insert_by (x : A) (l : list A) : list A :=
  match l with
  | [] => [x]
  | y :: l' =>
      if lt (sortkey y) (sortkey x) then y :: insert_by x l' else x :: y :: l'
  end.

(** [sorted(l, key=sortkey)]: a stable sort, here by insertion. *)
Definition sorted (l : list A) : list A := fold_right insert_by [] l.
End Sorted.

(** [events.remove(event)]: drops the first element equal to [event];
    raises [ValueError] when there is none. *)
Fixpoint list_remove (event : AffectedEvent.t) (events : list AffectedEvent.t)
  : result (list AffectedEvent.t) :=
  match events with
  | [] => Raise (ValueError "list.remove(x): x not in list")
  | x :: rest =>
      if AffectedEvent.eqb x event then Ok rest
      else rest' <- list_remove event rest ;; Ok (x :: rest')
  end.

(** [x in events] *)
Definition event_in (x : AffectedEvent.t) (events : list AffectedEvent.t) : bool :=
  existsb (AffectedEvent.eqb x) events.

(** ** sorted_events (models.py, lines 641-663) *)

Section SortedEvents.
Variable ext : External.

(** Lines 647-650: the helper whose sort key orders the events. A name
    without a registered helper fails (modelled from the spec: unknown
    ecosystem). *)
Definition ecosystem_helper (ecosystem range_type : string)
  : result EcosystemHelper :=
  if range_type =? "SEMVER" then Ok (SemverEcosystem ext)
  else match ecosystems_get ext ecosystem with
       | Some h => Ok h
       | None => Raise (UnknownEcosystem ecosystem)
       end.

(** Lines 653-657: the loop over [events.copy()], with its two variables
    [zero_event] and [events] (which is modified in place). *)
Fixpoint remove_magic_zeros (copy : list AffectedEvent.t)
    (zero_event : option AffectedEvent.t) (events : list AffectedEvent.t)
  : result (option AffectedEvent.t * list AffectedEvent.t) :=
  match copy with
  | [] => Ok (zero_event, events)
  | event :: copy' =>
      if AffectedEvent.value event =? "0" then
        events' <- list_remove event events ;;
        remove_magic_zeros copy' (Some event) events'
      else remove_magic_zeros copy' zero_event events
  end.

(** The result is the pair of the returned list and of the contents of
    the argument list after the call: the removal of the magic zeros acts
    on the caller's list. *)
Definition sorted_events (ecosystem range_type : string)
    (events : list AffectedEvent.t)
  : result (list AffectedEvent.t * list AffectedEvent.t) :=
  if range_type =? "GIT" then Ok (events, events)
  else
    h <- ecosystem_helper ecosystem range_type ;;
    ' (zero_event, events') <- remove_magic_zeros events None events ;;
    let out := sorted (key_lt h) (fun e => sort_key h (AffectedEvent.value e)) events' in
    match zero_event with
    | Some z => Ok (z :: out, events')
    | None => Ok (out, events')
    end.
End SortedEvents.

(** ** The exchange format (vulnerability_pb2) *)

Module vulnerability_pb2.
(** Modelled from the spec: the range type enumeration of the exchange
    format, [{GIT, SEMVER, ECOSYSTEM}]; the generated protobuf module is
    not part of the sources. *)
Inductive RangeType : Type := GIT | SEMVER | ECOSYSTEM.

(** [AffectedRange.Type.Name] *)
Definition Type_Name (ty : RangeType) : string :=
  match ty with
  | GIT => "GIT"
  | SEMVER => "SEMVER"
  | ECOSYSTEM => "ECOSYSTEM"
  end.

(** [AffectedRange.Type.Value]: raises [ValueError] on an unknown name. *)
Definition Type_Value (s : string) : result RangeType :=
  if s =? "GIT" then Ok GIT
  else if s =? "SEMVER" then Ok SEMVER
  else if s =? "ECOSYSTEM" then Ok ECOSYSTEM
  else Raise (ValueError ("Enum Type has no value defined for name " ++ s)%string).

Module AffectedRange.
Record t : Type := mk {
  type : RangeType;
  repo : string;
  introduced : string;
  fixed : string }.

Definition set_introduced (r : t) (v : string) : t :=
  mk (type r) (repo r) v (fixed r).

Definition set_fixed (r : t) (v : string) : t :=
  mk (type r) (repo r) (introduced r) v.
End AffectedRange.

Module Affects.
Record t : Type := mk {
  versions : list string;
  ranges : list AffectedRange.t }.
End Affects.

Module Vulnerability.
Record t : Type := mk {
  summary : string;
  details : string;
  modified : option datetime;
  published : option datetime;
  withdrawn : option datetime;
  package : Package.t;
  aliases : list string;
  related : list string;
  affects : Affects.t }.
End Vulnerability.
End vulnerability_pb2.

Import vulnerability_pb2.

(** ** Bug *)

Module Bug.
(** The properties that the methods studied here read or write. Not kept:
    [status], [fixed], [regressed], [affected_ranges], [affected],
    [issue_id], [public], [source_of_truth] and the JSON valued
    [reference_url_types], [database_specific], [ecosystem_specific]. *)
Record t : Type := mk {
  db_id : string;
  aliases : list string;
  related : list string;
  timestamp : option datetime;
  last_modified : option datetime;
  withdrawn : option datetime;
  source_id : string;
  affected_fuzzy : list string;
  purl : list string;
  project : list string;
  ecosystem : list string;
  summary : string;
  details : string;
  severity : option string;
  search_indices : list string;
  has_affected : bool;
  is_fixed : bool;
  semver_fixed_indexes : list string;
  affected_packages : list AffectedPackage.t;
  source : string;
  key : option string }.

Definition OSV_ID_PREFIX : string := "OSV-".
Definition _NOT_FIXED_SEMVER : string := "999999.999999.999999".

(** Assignment to [severity] runs its validator ([None] is not
    validated). *)
Definition set_severity (self : t) (v : option string) : result t :=
  _ <- match v with Some s => _check_valid_severity s | None => Ok tt end ;;
  Ok (mk (db_id self) (aliases self) (related self) (timestamp self)
        (last_modified self) (withdrawn self) (source_id self)
        (affected_fuzzy self) (purl self) (project self) (ecosystem self)
        (summary self) (details self) v (search_indices self)
        (has_affected self) (is_fixed self) (semver_fixed_indexes self)
        (affected_packages self) (source self) (key self)).

Definition set_key (self : t) (k : string) : t :=
  mk (db_id self) (aliases self) (related self) (timestamp self)
     (last_modified self) (withdrawn self) (source_id self)
     (affected_fuzzy self) (purl self) (project self) (ecosystem self)
     (summary self) (details self) (severity self) (search_indices self)
     (has_affected self) (is_fixed self) (semver_fixed_indexes self)
     (affected_packages self) (source self) (Some k).

Definition set_affected_packages (self : t) (pkgs : list AffectedPackage.t) : t :=
  mk (db_id self) (aliases self) (related self) (timestamp self)
     (last_modified self) (withdrawn self) (source_id self)
     (affected_fuzzy self) (purl self) (project self) (ecosystem self)
     (summary self) (details self) (severity self) (search_indices self)
     (has_affected self) (is_fixed self) (semver_fixed_indexes self)
     pkgs (source self) (key self).
End Bug.

(** The derivation pass changes the entity before it raises: its outcome
    keeps the entity as it is when the pass ends. *)
Inductive outcome : Type :=
| Done (self : Bug.t)
| Raised (e : exn) (self : Bug.t).

Definition entity (o : outcome) : Bug.t :=
  match o with
  | Done self => self
  | Raised _ self => self
  end.

(** ** Tokens (Bug.id and Bug._tokenize, lines 264-304) *)

(** The strings of this development are sequences of 8-bit characters.
    The functions of this part ([lower], [is_word_char], [re_split_W],
    [starts_with_digits], [_tokenize]) follow [str.lower], the classes [\w]
    and [\d] of [re] and [re.split] on ASCII text, that is on strings whose
    characters are code points below 128. On other code points Python goes
    by the Unicode tables (it lowers and counts as word characters letters
    such as [é]), which are not modelled: the statements that depend on the
    value of a token carry the hypothesis [ascii_text]. *)
Definition ascii_char (c : ascii) : bool := (nat_of_ascii c <? 128)%nat.

Fixpoint ascii_text (s : string) : bool :=
  match s with
  | EmptyString => true
  | String c s' => ascii_char c && ascii_text s'
  end.

Definition in_range (lo hi : nat) (c : ascii) : bool :=
  (lo <=? nat_of_ascii c)%nat && (nat_of_ascii c <=? hi)%nat.

Definition is_digit (c : ascii) : bool := in_range 48 57 c.

(** [\w], on ASCII characters *)
Definition is_word_char (c : ascii) : bool :=
  is_digit c || in_range 65 90 c || in_range 97 122 c || (c =? "_")%char.

Definition lower_char (c : ascii) : ascii :=
  if in_range 65 90 c then ascii_of_nat (nat_of_ascii c + 32) else c.

(** [str.lower], on ASCII text *)
Fixpoint lower (s : string) : string :=
  match s with
  | EmptyString => EmptyString
  | String c s' => String (lower_char c) (lower s')
  end.

(** [re.split(r'\W+', s)] is [re_split_W s "" false]: [cur] is the piece
    being read, [in_sep] tells that the previous character was a
    separator. *)
Fixpoint re_split_W (s cur : string) (in_sep : bool) : list string :=
  match s with
  | EmptyString => [cur]
  | String c s' =>
      if is_word_char c then re_split_W s' (cur ++ String c EmptyString)%string false
      else if in_sep then re_split_W s' cur true
      else cur :: re_split_W s' EmptyString true
  end.

(** [re.match(r'^\d+', s)], on ASCII text *)
Definition starts_with_digits (s : string) : bool :=
  match s with
  | EmptyString => false
  | String c _ => is_digit c
  end.

Definition id (self : Bug.t) : result string :=
  if truthy (Bug.db_id self) then Ok (Bug.db_id self)
  else match Bug.key self with
       | None => Raise (AttributeError "'NoneType' object has no attribute 'id'")
       | Some k =>
           if starts_with_digits k then Ok (Bug.OSV_ID_PREFIX ++ k)%string else Ok k
       end.

Definition _tokenize (value : string) : list string :=
  if negb (truthy value) then []
  else
    let value_lower := lower value in
    re_split_W value_lower "" false ++ [value_lower].

(** A Python [set] of strings: a list without repetition. [set.update]
    adds the elements that are not yet members. *)
Definition set_add (s : list string) (x : string) : list string :=
  if existsb (String.eqb x) s then s else s ++ [x].

Definition set_update (s : list string) (xs : list string) : list string :=
  fold_left set_add xs s.

(** [sorted(list(s))] on strings. *)
Definition sorted_strings (s : list string) : list string :=
  sorted String.ltb (fun x => x) s.

Section BugMethods.
Variable ext : External.

(** ** Bug._pre_put_hook (lines 306-380) *)

(** The four variables that the loop of lines 338-356 updates. *)
Record indexes : Type := mk_indexes {
  ix_affected_fuzzy : list string;
  ix_semver_fixed_indexes : list string;
  ix_has_affected : bool;
  ix_is_fixed : bool }.

(** Lines 345-349: the loop over the events of one range, on the pair of
    [self.is_fixed] and [fixed_version]. *)
Definition scan_event (st : bool * option string) (event : AffectedEvent.t)
  : bool * option string :=
  if AffectedEvent.type event =? "fixed"
  then (true, Some (AffectedEvent.value event))
  else st.

(** [fixed_version or self._NOT_FIXED_SEMVER] *)
Definition fixed_or_not_fixed (fixed_version : option string) : string :=
  match fixed_version with
  | Some v => str_or v Bug._NOT_FIXED_SEMVER
  | None => Bug._NOT_FIXED_SEMVER
  end.

(** Lines 343-356: the body of the loop over the ranges. *)
Definition index_range (st : indexes) (affected_range : AffectedRange2.t)
  : indexes :=
  let '(is_fixed, fixed_version) :=
    fold_left scan_event (AffectedRange2.events affected_range)
              (ix_is_fixed st, None) in
  let semver_fixed_indexes :=
    if AffectedRange2.type affected_range =? "SEMVER"
    then ix_semver_fixed_indexes st ++
         [semver_index_normalize ext (fixed_or_not_fixed fixed_version)]
    else ix_semver_fixed_indexes st in
  mk_indexes (ix_affected_fuzzy st) semver_fixed_indexes
    (ix_has_affected st
     || existsb (String.eqb (AffectedRange2.type affected_range))
          ["SEMVER"; "ECOSYSTEM"])
    is_fixed.

(** Lines 338-356: the body of the loop over the affected packages. *)
Definition index_package (st : indexes) (affected_package : AffectedPackage.t)
  : indexes :=
  let st' :=
    mk_indexes
      (ix_affected_fuzzy st ++
       normalize_tags ext (AffectedPackage.versions affected_package))
      (ix_semver_fixed_indexes st)
      (ix_has_affected st
       || match AffectedPackage.versions affected_package with
          | [] => false
          | _ :: _ => true
          end)
      (ix_is_fixed st) in
  fold_left index_range (AffectedPackage.ranges affected_package) st'.

Definition nonempty_names (f : Package.t -> string)
    (pkgs : list AffectedPackage.t) : list string :=
  filter truthy (map (fun pkg => f (AffectedPackage.package pkg)) pkgs).

(** Lines 308-362: the search indices, the indexes of the affected
    packages, [last_modified] and [source]. [ident] is the value of
    [self.id()], [now] the value that [utcnow()] returns. *)
Definition derive (now : datetime) (self : Bug.t) (ident : string) : Bug.t :=
  let search_indices := set_update [] (_tokenize ident) in
  let pkgs := Bug.affected_packages self in
  let has_pkgs := match pkgs with [] => false | _ :: _ => true end in
  let project :=
    if has_pkgs then nonempty_names Package.name pkgs
    else Bug.project self in
  let ecosystem :=
    if has_pkgs then nonempty_names Package.ecosystem pkgs
    else Bug.ecosystem self in
  let purl :=
    if has_pkgs then nonempty_names Package.purl pkgs
    else Bug.purl self in
  let search_indices :=
    if has_pkgs then
      let s := fold_left (fun s p => set_update s (_tokenize p))
                         project search_indices in
      fold_left (fun s e => set_update s (_tokenize e)) ecosystem s
    else search_indices in
  let ix := fold_left index_package pkgs (mk_indexes [] [] false false) in
  let last_modified :=
    match Bug.last_modified self with
    | Some t => Some t
    | None => Some now
    end in
  let source :=
    if truthy (Bug.source_id self)
    then fst (parse_source_id ext (Bug.source_id self))
    else Bug.source self in
  Bug.mk (Bug.db_id self) (Bug.aliases self) (Bug.related self)
    (Bug.timestamp self) last_modified (Bug.withdrawn self)
    (Bug.source_id self) (ix_affected_fuzzy ix) purl project ecosystem
    (Bug.summary self) (Bug.details self) (Bug.severity self)
    (sorted_strings search_indices) (ix_has_affected ix)
    (ix_is_fixed ix) (ix_semver_fixed_indexes ix) pkgs source
    (Bug.key self).

(** Lines 364-380: the two checks and the allocation of the key. *)
Definition validate (self : Bug.t) : outcome :=
  if negb (truthy (Bug.source self)) then
    Raised (ValueError "Source not specified for Bug.") self
  else if negb (truthy (Bug.db_id self)) then
    Raised (ValueError "DB ID not specified for Bug.") self
  else
    match Bug.key self with
    | Some _ => Done self
    | None =>
        match get_source_repository ext (Bug.source self) with
        | None =>
            Raised (ValueError ("Invalid source " ++ Bug.source self)%string)
                   self
        | Some source_repo =>
            let db_prefix := SourceRepository.db_prefix source_repo in
            let key_id :=
              if truthy db_prefix && prefix db_prefix (Bug.db_id self)
              then Bug.db_id self
              else (Bug.source self ++ ":" ++ Bug.db_id self)%string in
            Done (Bug.set_key self key_id)
        end
    end.

Definition _pre_put_hook (now : datetime) (self : Bug.t) : outcome :=
  match id self with
  | Raise e => Raised e self
  | Ok ident => validate (derive now self ident)
  end.

(** ** Bug.update_from_vulnerability (lines 382-445) *)

(** [events_by_type]: keys are pairs of a range type name and a
    repository, in the order in which they were first seen. *)
Definition events_dict : Type :=
  list ((string * string) * list AffectedEvent.t).

Definition key_eqb (a b : string * string) : bool :=
  (fst a =? fst b) && (snd a =? snd b).

(** [events = events_by_type.setdefault(k, [])] followed by changes to
    [events] in place: the list stored under [k] (a new, empty one at the
    end of the dict when [k] is new) becomes [f events]. *)
Fixpoint setdefault_update (k : string * string)
    (f : list AffectedEvent.t -> list AffectedEvent.t) (d : events_dict)
  : events_dict :=
  match d with
  | [] => [(k, f [])]
  | (k', events) :: d' =>
      if key_eqb k' k then (k', f events) :: d'
      else (k', events) :: setdefault_update k f d'
  end.

(** [if event not in events: events.append(event)] *)
Definition append_new (events : list AffectedEvent.t) (event : AffectedEvent.t)
  : list AffectedEvent.t :=
  if event_in event events then events else events ++ [event].

(** Lines 428-437. Both events are built with a literal type that the
    validator accepts. *)
Definition add_range_events (affected_range : AffectedRange.t)
    (events : list AffectedEvent.t) : list AffectedEvent.t :=
  let introduced :=
    AffectedEvent.mk "introduced"
      (str_or (AffectedRange.introduced affected_range) "0") in
  let events := append_new events introduced in
  if truthy (AffectedRange.fixed affected_range) then
    append_new events
      (AffectedEvent.mk "fixed" (AffectedRange.fixed affected_range))
  else events.

(** Lines 423-437: the body of the first loop. *)
Definition group_range (events_by_type : events_dict)
    (affected_range : AffectedRange.t) : events_dict :=
  setdefault_update
    (Type_Name (AffectedRange.type affected_range),
     AffectedRange.repo affected_range)
    (add_range_events affected_range) events_by_type.

(** Lines 439-445: the second loop, over [events_by_type.items()]. *)
Fixpoint build_ranges (items : events_dict) : result (list AffectedRange2.t) :=
  match items with
  | [] => Ok []
  | ((range_type, repo_url), events) :: items' =>
      affected_range <- AffectedRange2.new range_type events ;;
      let affected_range :=
        if (range_type =? "GIT") && truthy repo_url
        then AffectedRange2.set_repo_url affected_range repo_url
        else affected_range in
      ranges <- build_ranges items' ;;
      Ok (affected_range :: ranges)
  end.

(** [Timestamp.ToDatetime()] when the field is present *)
Definition if_has_field (field old : option datetime) : option datetime :=
  match field with
  | Some t => Some t
  | None => old
  end.

Definition update_from_vulnerability (self : Bug.t)
    (vulnerability : Vulnerability.t) : result Bug.t :=
  let last_modified :=
    if_has_field (Vulnerability.modified vulnerability) (Bug.last_modified self) in
  let timestamp :=
    if_has_field (Vulnerability.published vulnerability) (Bug.timestamp self) in
  let withdrawn :=
    if_has_field (Vulnerability.withdrawn vulnerability) (Bug.withdrawn self) in
  let '(affected_package, others) :=
    match Bug.affected_packages self with
    | affected_package :: others => (affected_package, others)
    | [] => (AffectedPackage.empty, [])
    end in
  let package :=
    Package.mk (Package.ecosystem (Vulnerability.package vulnerability))
               (Package.name (Vulnerability.package vulnerability))
               (Package.purl (Vulnerability.package vulnerability)) in
  let affects := Vulnerability.affects vulnerability in
  let events_by_type := fold_left group_range (Affects.ranges affects) [] in
  ranges <- build_ranges events_by_type ;;
  let affected_package :=
    AffectedPackage.mk package ranges (Affects.versions affects) in
  Ok (Bug.mk (Bug.db_id self) (Vulnerability.aliases vulnerability)
        (Vulnerability.related vulnerability) timestamp last_modified
        withdrawn (Bug.source_id self) (Bug.affected_fuzzy self)
        (Bug.purl self) (Bug.project self) (Bug.ecosystem self)
        (Vulnerability.summary vulnerability)
        (Vulnerability.details vulnerability) (Bug.severity self)
        (Bug.search_indices self) (Bug.has_affected self)
        (Bug.is_fixed self) (Bug.semver_fixed_indexes self)
        (affected_package :: others) (Bug.source self) (Bug.key self)).

(** ** Bug._get_pre_0_8_affects (lines 447-490) *)

(** [new_range()]. The conversion of the type name raises on an unknown
    name; it gives the same value at every call for one range. *)
Definition new_range (affected_range : AffectedRange2.t)
  : result AffectedRange.t :=
  ty <- Type_Value (AffectedRange2.type affected_range) ;;
  Ok (AffectedRange.mk ty
        (match AffectedRange2.repo_url affected_range with
         | Some url => url
         | None => ""
         end) "" "").

(** Lines 464-485: the body of the loop over the sorted events, on the
    pair of [affects.ranges] and [cur_range]. [fresh] is the value of
    [new_range()]. *)
Definition pair_event (range_type : string) (fresh : AffectedRange.t)
    (st : list AffectedRange.t * AffectedRange.t) (event : AffectedEvent.t)
  : list AffectedRange.t * AffectedRange.t :=
  let '(ranges, cur_range) := st in
  let '(ranges, cur_range) :=
    if AffectedEvent.type event =? "introduced" then
      let '(ranges, cur_range) :=
        if truthy (AffectedRange.introduced cur_range) && (range_type =? "GIT")
        then (ranges ++ [cur_range], fresh)
        else (ranges, cur_range) in
      if negb (truthy (AffectedRange.introduced cur_range)) then
        (ranges,
         AffectedRange.set_introduced cur_range
           (if AffectedEvent.value event =? "0" then ""
            else AffectedEvent.value event))
      else (ranges, cur_range)
    else (ranges, cur_range) in
  if AffectedEvent.type event =? "fixed" then
    (ranges ++ [AffectedRange.set_fixed cur_range (AffectedEvent.value event)],
     fresh)
  else (ranges, cur_range).

(** Lines 487-488 *)
Definition close_range (st : list AffectedRange.t * AffectedRange.t)
  : list AffectedRange.t :=
  let '(ranges, cur_range) := st in
  if truthy (AffectedRange.introduced cur_range) then ranges ++ [cur_range]
  else ranges.

(** The cursor over a sorted event stream, from [affects.ranges = ranges]. *)
Definition pair_events (range_type : string) (fresh : AffectedRange.t)
    (ranges : list AffectedRange.t) (events : list AffectedEvent.t)
  : list AffectedRange.t :=
  close_range (fold_left (pair_event range_type fresh) events (ranges, fresh)).

(** Lines 451-488: the body of the loop over the ranges. Returns
    [affects.ranges] and the range as [sorted_events] leaves it. *)
Definition export_range (ecosystem : string) (ranges : list AffectedRange.t)
    (affected_range : AffectedRange2.t)
  : result (list AffectedRange.t * AffectedRange2.t) :=
  fresh <- new_range affected_range ;;
  ' (events, events') <-
    sorted_events ext ecosystem (AffectedRange2.type affected_range)
      (AffectedRange2.events affected_range) ;;
  Ok (pair_events (AffectedRange2.type affected_range) fresh ranges events,
      AffectedRange2.set_events affected_range events').

Fixpoint export_ranges (ecosystem : string) (ranges : list AffectedRange.t)
    (todo : list AffectedRange2.t)
  : result (list AffectedRange.t * list AffectedRange2.t) :=
  match todo with
  | [] => Ok (ranges, [])
  | affected_range :: todo' =>
      ' (ranges, affected_range') <- export_range ecosystem ranges affected_range ;;
      ' (ranges, done) <- export_ranges ecosystem ranges todo' ;;
      Ok (ranges, affected_range' :: done)
  end.

(** Returns the [Affects] message and the entity after the call (the
    events of its first package are the lists that [sorted_events] was
    given). *)
Definition _get_pre_0_8_affects (self : Bug.t) : result (Affects.t * Bug.t) :=
  match Bug.affected_packages self with
  | [] => Raise (IndexError "list index out of range")
  | affected_package :: others =>
      ' (ranges, ranges') <-
        export_ranges
          (Package.ecosystem (AffectedPackage.package affected_package))
          [] (AffectedPackage.ranges affected_package) ;;
      Ok (Affects.mk (AffectedPackage.versions affected_package) ranges,
          Bug.set_affected_packages self
            (AffectedPackage.mk (AffectedPackage.package affected_package)
               ranges' (AffectedPackage.versions affected_package)
             :: others))
  end.
End BugMethods.

(** ** Bug.repo_url (lines 275-283) *)

(** The inner loop: the first repository of a list of ranges. [None] when
    the loop ends without returning. *)
Fixpoint ranges_repo_url (ranges : list AffectedRange2.t) : option string :=
  match ranges with
  | [] => None
  | affected_range :: ranges' =>
      match AffectedRange2.repo_url affected_range with
      | Some url => if truthy url then Some url else ranges_repo_url ranges'
      | None => ranges_repo_url ranges'
      end
  end.

(** The outer loop, over the affected packages. *)
Fixpoint packages_repo_url (pkgs : list AffectedPackage.t) : option string :=
  match pkgs with
  | [] => None
  | affected_package :: pkgs' =>
      match ranges_repo_url (AffectedPackage.ranges affected_package) with
      | Some url => Some url
      | None => packages_repo_url pkgs'
      end
  end.

Definition repo_url (self : Bug.t) : option string :=
  packages_repo_url (Bug.affected_packages self).

(** ** Bug.get_by_id (lines 285-296) *)

(** The two lookups of the datastore that [get_by_id] uses:
    [cls.query(cls.db_id == vuln_id).get()] and the [get_by_id] of
    [ndb.Model], by the id of the key. *)
Record Datastore : Type := {
  query_db_id : string -> option Bug.t;
  get_by_key : string -> option Bug.t }.

Definition get_by_id (ds : Datastore) (vuln_id : string) : option Bug.t :=
  match query_db_id ds vuln_id with
  | Some result => Some result
  | None =>
      let vuln_id :=
        if prefix Bug.OSV_ID_PREFIX vuln_id
        then substring (String.length Bug.OSV_ID_PREFIX)
               (String.length vuln_id - String.length Bug.OSV_ID_PREFIX)
               vuln_id
        else vuln_id in
      get_by_key ds vuln_id
  end.

(** ** A numeric comparator and a sample environment *)

(** Modelled from the spec: a comparator for dotted numeric versions
    ([major.minor.patch], compared field by field), standing for
    [ecosystems.SemverEcosystem], which is not part of the sources.
    Pre-release and build tags are not covered. *)
Module NumericSemver.
Definition digit (c : ascii) : N := N.of_nat (nat_of_ascii c - 48).

Fixpoint fields (s : string) (cur : N) : list N :=
  match s with
  | EmptyString => [cur]
  | String c s' =>
      if (c =? ".")%char then cur :: fields s' 0%N
      else fields s' (10 * cur + digit c)%N
  end.

Definition sort_key (version : string) : list N := fields version 0%N.

Fixpoint lt (a b : list N) : bool :=
  match a, b with
  | [], [] => false
  | [], _ :: _ => true
  | _ :: _, [] => false
  | x :: a', y :: b' => (x <? y)%N || ((x =? y)%N && lt a' b')
  end.

Lemma lt_irrefl : forall a, lt a a = false.
Proof.
  induction a as [|x a IH]; simpl; [reflexivity|].
  rewrite N.ltb_irrefl, N.eqb_refl, IH. reflexivity.
Qed.

Lemma lt_trans : forall a b c, lt a b = true -> lt b c = true -> lt a c = true.
Proof.
  induction a as [|x a IH]; intros [|y b] [|z c]; simpl; try discriminate; auto.
  rewrite !orb_true_iff, !andb_true_iff, !N.ltb_lt, !N.eqb_eq.
  intros [Hxy|[Hxy Hab]] [Hyz|[Hyz Hbc]]; subst.
  - left. lia.
  - left. assumption.
  - left. assumption.
  - right. split; [reflexivity|]. eapply IH; eassumption.
Qed.

Lemma lt_total : forall a b, lt a b = true \/ a = b \/ lt b a = true.
Proof.
  induction a as [|x a IH]; intros [|y b]; simpl; auto.
  destruct (N.lt_trichotomy x y) as [H|[H|H]].
  - left. apply orb_true_iff. left. apply N.ltb_lt. assumption.
  - subst y. rewrite N.ltb_irrefl, N.eqb_refl. simpl.
    destruct (IH b) as [H|[H|H]]; subst; auto.
  - right. right. apply orb_true_iff. left. apply N.ltb_lt. assumption.
Qed.

Definition helper : EcosystemHelper :=
  Build_EcosystemHelper sort_key lt lt_irrefl lt_trans lt_total.
End NumericSemver.

(** [source_id.split(':', 1)] on a source id with a colon. *)
Fixpoint split_colon (s : string) : string * string :=
  match s with
  | EmptyString => (EmptyString, EmptyString)
  | String c s' =>
      if (c =? ":")%char then (EmptyString, s')
      else let '(a, b) := split_colon s' in (String c a, b)
  end.

(** An environment to run the code on: one registered ecosystem, identity
    normalizers, one source repository. *)
Definition sample_external : External :=
  {| SemverEcosystem := NumericSemver.helper;
     ecosystems_get := fun name =>
       if name =? "PyPI" then Some NumericSemver.helper else None;
     normalize_tags := fun tags => tags;
     semver_index_normalize := fun version => version;
     parse_source_id := split_colon;
     get_source_repository := fun name =>
       if name =? "ghsa"
       then Some (SourceRepository.mk "ghsa" "https://github.com/" "GHSA-")
       else None |}.

(** [Bug(db_id=..., source_id=..., source=..., affected_packages=...)] and
    a key when the entity has one; the other properties have their default
    value. *)
Definition new_bug (db_id source_id source : string) (key : option string)
    (affected_packages : list AffectedPackage.t) : Bug.t :=
  Bug.mk db_id [] [] None None None source_id [] [] [] [] "" "" None [] false
    false [] affected_packages source key.

(** A record with one package and one range. *)
Definition one_range_bug (range_type : string) (events : list AffectedEvent.t)
  : Bug.t :=
  new_bug "GHSA-1234" "" "ghsa" None
    [AffectedPackage.mk (Package.mk "npm" "left-pad" "")
       [AffectedRange2.mk range_type None events] []].

(** * Notions used in the statements *)

(** The magic value that stands for the beginning of history. *)
Definition is_zero (event : AffectedEvent.t) : bool :=
  AffectedEvent.value event =? "0".

Definition not_zero (event : AffectedEvent.t) : bool := negb (is_zero event).

(** The last of the events whose value is the magic zero. *)
Definition magic_zero (events : list AffectedEvent.t) : option AffectedEvent.t :=
  match rev (filter is_zero events) with
  | [] => None
  | z :: _ => Some z
  end.

(** The key that orders an event. *)
Definition event_key (h : EcosystemHelper) (event : AffectedEvent.t) : key h :=
  sort_key h (AffectedEvent.value event).

(** Ascending order of events under a helper. *)
Definition ascending (h : EcosystemHelper) (events : list AffectedEvent.t) : Prop :=
  StronglySorted (fun a b => key_lt h (event_key h b) (event_key h a) = false)
    events.

(** An event that bounds a pair: [introduced] or [fixed]. *)
Definition is_bound (event : AffectedEvent.t) : bool :=
  (AffectedEvent.type event =? "introduced")
  || (AffectedEvent.type event =? "fixed").

(** The cursor of the export after it has read [events], from
    [affects.ranges = ranges] and a new [cur_range]. *)
Definition cursor_after (range_type : string) (fresh : AffectedRange.t)
    (ranges : list AffectedRange.t) (events : list AffectedEvent.t)
  : list AffectedRange.t * AffectedRange.t :=
  fold_left (pair_event range_type fresh) events (ranges, fresh).

(** The elements of a list in the order of their first occurrence. *)
Fixpoint first_seen (A : Type) (eqb : A -> A -> bool) (l : list A) : list A :=
  match l with
  | [] => []
  | x :: l' => x :: filter (fun y => negb (eqb y x)) (first_seen eqb l')
  end.

(** The grouping key of a legacy pair: the name of its type and its
    repository. *)
Definition range_key (pair : AffectedRange.t) : string * string :=
  (Type_Name (AffectedRange.type pair), AffectedRange.repo pair).

(** The pairs of a group, in the order of the input. *)
Definition group (k : string * string) (pairs : list AffectedRange.t)
  : list AffectedRange.t :=
  filter (fun pair => key_eqb (range_key pair) k) pairs.

(** The events that a legacy pair stands for: one introduced event, whose
    value is ["0"] when the bound is empty, and one fixed event when the pair
    has a fixed bound. *)
Definition bounds_of (pair : AffectedRange.t) : list AffectedEvent.t :=
  AffectedEvent.mk "introduced"
    (if AffectedRange.introduced pair =? "" then "0"
     else AffectedRange.introduced pair)
  :: (if AffectedRange.fixed pair =? "" then []
      else [AffectedEvent.mk "fixed" (AffectedRange.fixed pair)]).

(** The merge as the specification words it: one range per group, in the
    order in which the groups are first seen; its events are those of the
    pairs of the group without repetition; it carries a repository only when
    its type is GIT and the repository is not empty. *)
Definition merged_range (pairs : list AffectedRange.t) (k : string * string)
  : AffectedRange2.t :=
  AffectedRange2.mk (fst k)
    (if (fst k =? "GIT") && negb (snd k =? "") then Some (snd k) else None)
    (first_seen AffectedEvent.eqb (flat_map bounds_of (group k pairs))).

Definition merged_ranges (pairs : list AffectedRange.t) : list AffectedRange2.t :=
  map (merged_range pairs) (first_seen key_eqb (map range_key pairs)).

(** All ranges of a record, package after package. *)
Definition all_ranges (pkgs : list AffectedPackage.t) : list AffectedRange2.t :=
  flat_map AffectedPackage.ranges pkgs.

Definition is_fixed_event (event : AffectedEvent.t) : bool :=
  AffectedEvent.type event =? "fixed".

Definition is_semver (affected_range : AffectedRange2.t) : bool :=
  AffectedRange2.type affected_range =? "SEMVER".

(** The value of the last fixed event of a range. *)
Definition last_fixed (affected_range : AffectedRange2.t) : option string :=
  match rev (filter is_fixed_event (AffectedRange2.events affected_range)) with
  | [] => None
  | event :: _ => Some (AffectedEvent.value event)
  end.

(** The index of a SEMVER range as the specification words it. *)
Definition claimed_semver_index (ext : External)
    (affected_range : AffectedRange2.t) : string :=
  semver_index_normalize ext
    match last_fixed affected_range with
    | Some v => v
    | None => Bug._NOT_FIXED_SEMVER
    end.

(** The index of a SEMVER range: an empty value counts as no value. *)
Definition semver_index (ext : External) (affected_range : AffectedRange2.t)
  : string :=
  semver_index_normalize ext
    match last_fixed affected_range with
    | Some v => if v =? "" then Bug._NOT_FIXED_SEMVER else v
    | None => Bug._NOT_FIXED_SEMVER
    end.

(** A range whose type alone makes the record affected. *)
Definition type_has_versions (affected_range : AffectedRange2.t) : bool :=
  existsb (String.eqb (AffectedRange2.type affected_range))
    ["SEMVER"; "ECOSYSTEM"].

(** A range with a fixed event. *)
Definition has_fixed (affected_range : AffectedRange2.t) : bool :=
  existsb is_fixed_event (AffectedRange2.events affected_range).

(** A package with an explicit version or with a SEMVER or ECOSYSTEM range. *)
Definition package_has_versions (pkg : AffectedPackage.t) : bool :=
  match AffectedPackage.versions pkg with
  | [] => false
  | _ :: _ => true
  end
  || existsb type_has_versions (AffectedPackage.ranges pkg).

(** Strictly increasing lists of strings. *)
Definition increasing (l : list string) : Prop :=
  StronglySorted (fun a b => String.ltb a b = true) l.

(** The source of a record as line 361-362 leave it. *)
Definition provenance (ext : External) (self : Bug.t) : string :=
  if truthy (Bug.source_id self)
  then fst (parse_source_id ext (Bug.source_id self))
  else Bug.source self.

(** A legacy pair that the canonical form can tell: its introduced bound
    is not the magic zero itself, and it has a bound. *)
Definition bounded (pair : AffectedRange.t) : Prop :=
  AffectedRange.introduced pair <> "0" /\
  (AffectedRange.introduced pair = "" -> AffectedRange.fixed pair <> "").

(** Only the last pair of the list may lack a fixed bound. *)
Fixpoint last_open (pairs : list AffectedRange.t) : Prop :=
  match pairs with
  | [] => True
  | first :: rest =>
      (AffectedRange.fixed first = "" -> rest = []) /\ last_open rest
  end.

(** A group of GIT pairs whose merge drops no event. *)
Definition distinct_bounds (pairs : list AffectedRange.t) : Prop :=
  Forall bounded pairs /\ NoDup (flat_map bounds_of pairs).

(** Pairs with an introduced bound, one after the other: every bound is
    strictly above the one before it ([lo] at the start), and only the last
    pair may lack a fixed bound. *)
Fixpoint chain (h : EcosystemHelper) (lo : option (key h))
    (pairs : list AffectedRange.t) : Prop :=
  match pairs with
  | [] => True
  | first :: rest =>
      AffectedRange.introduced first <> "" /\
      AffectedRange.introduced first <> "0" /\
      match lo with
      | Some k => key_lt h k (sort_key h (AffectedRange.introduced first)) = true
      | None => True
      end /\
      if AffectedRange.fixed first =? "" then rest = []
      else
        AffectedRange.fixed first <> "0" /\
        key_lt h (sort_key h (AffectedRange.introduced first))
                 (sort_key h (AffectedRange.fixed first)) = true /\
        chain h (Some (sort_key h (AffectedRange.fixed first))) rest
  end.

(** Pairs in ascending order that do not overlap; the first one may have an
    empty introduced bound. *)
Definition ascending_pairs (h : EcosystemHelper) (pairs : list AffectedRange.t)
  : Prop :=
  match pairs with
  | [] => True
  | first :: rest =>
      if AffectedRange.introduced first =? "" then
        AffectedRange.fixed first <> "" /\ AffectedRange.fixed first <> "0" /\
        chain h (Some (sort_key h (AffectedRange.fixed first))) rest
      else chain h None pairs
  end.

(** The legacy pairs on which the round trip is exact: within every group,
    either the type is GIT and the merge drops no event, or the type is
    SEMVER, the repository is empty and the pairs of the group, put in some
    order, ascend without overlap. *)
Definition round_trips (ext : External) (pairs : list AffectedRange.t) : Prop :=
  forall k, In k (map range_key pairs) ->
    (fst k = "GIT" /\ distinct_bounds (group k pairs)) \/
    (fst k = "SEMVER" /\ snd k = "" /\
     exists ordered,
       Permutation ordered (group k pairs) /\
       ascending_pairs (SemverEcosystem ext) ordered).

(** A record that holds a vulnerability with these legacy pairs. *)
Definition vulnerability_of (pairs : list AffectedRange.t) : Vulnerability.t :=
  Vulnerability.mk "" "" None None None (Package.mk "npm" "left-pad" "") [] []
    (Affects.mk [] pairs).

(** Orders on the elements of a list that [sorted] compares by a key. *)
Section Orders.
Variables (A K : Type) (lt : K -> K -> bool) (sortkey : A -> K).

(** [a] may come before [b]. *)
Definition key_le (a b : A) : Prop := lt (sortkey b) (sortkey a) = false.

(** [a] must come before [b]. *)
Definition key_before (a b : A) : Prop := lt (sortkey a) (sortkey b) = true.
End Orders.

(** Strictly increasing events. *)
Definition rising (h : EcosystemHelper) : list AffectedEvent.t -> Prop :=
  StronglySorted (key_before (key_lt h) (event_key h)).

(** An event above a bound, if there is one. *)
Definition above (h : EcosystemHelper) (lo : option (key h))
    (event : AffectedEvent.t) : Prop :=
  match lo with
  | Some k => key_lt h k (event_key h event) = true
  | None => True
  end.

(** Between two events [cur_range] is [new_range()] with, possibly, an
    introduced bound. *)
Definition follows (fresh cur_range : AffectedRange.t) : Prop :=
  cur_range = AffectedRange.set_introduced fresh (AffectedRange.introduced cur_range).

(** The pending pair of a cursor. *)
Definition pending (cur_range : AffectedRange.t) : list AffectedRange.t :=
  if truthy (AffectedRange.introduced cur_range) then [cur_range] else [].

(** A pair with the type and the repository of [fresh]. *)
Definition of_range (fresh pair : AffectedRange.t) : Prop :=
  AffectedRange.type pair = AffectedRange.type fresh /\
  AffectedRange.repo pair = AffectedRange.repo fresh.

(** Two events that the helper cannot tell apart: neither key is below the
    other. *)
Definition same_key (h : EcosystemHelper) (a b : AffectedEvent.t) : bool :=
  negb (key_lt h (event_key h a) (event_key h b))
  && negb (key_lt h (event_key h b) (event_key h a)).

(** The [Affects] message of the export. *)
Definition exported (ext : External) (self : Bug.t) : result Affects.t :=
  ' (affects, _) <- _get_pre_0_8_affects ext self ;; Ok affects.

(** The fixed bounds of a list of pairs, in order. *)
Definition fixed_bounds (pairs : list AffectedRange.t) : list string :=
  filter truthy (map AffectedRange.fixed pairs).

(** A range as [sorted_events] leaves it: a GIT range as it was, another
    range without its ["0"] events. *)
Definition strip_zeros (affected_range : AffectedRange2.t) : AffectedRange2.t :=
  if AffectedRange2.type affected_range =? "GIT" then affected_range
  else AffectedRange2.set_events affected_range
         (filter not_zero (AffectedRange2.events affected_range)).

(** A range for which the export has a comparator. *)
Definition sortable (ext : External) (ecosystem : string)
    (affected_range : AffectedRange2.t) : Prop :=
  AffectedRange2.type affected_range = "GIT" \/
  AffectedRange2.type affected_range = "SEMVER" \/
  (AffectedRange2.type affected_range = "ECOSYSTEM" /\
   exists h, ecosystems_get ext ecosystem = Some h).

(** One when the cursor holds an open pair, zero otherwise. *)
Definition opened (cur_range : AffectedRange.t) : nat :=
  if truthy (AffectedRange.introduced cur_range) then 1 else 0.

(** What is known of a pair that the cursor emits while it reads [events]:
    it has the type and the repository of the range, its introduced bound is
    not ["0"], and when that bound is empty its fixed bound is the value of
    a fixed event. *)
Definition emitted_from (fresh : AffectedRange.t)
    (events : list AffectedEvent.t) (pair : AffectedRange.t) : Prop :=
  of_range fresh pair /\
  AffectedRange.introduced pair <> "0" /\
  (AffectedRange.introduced pair = "" ->
   exists event, In event events /\ is_fixed_event event = true /\
                 AffectedRange.fixed pair = AffectedEvent.value event).

(** A vulnerability with other legacy pairs. *)
Definition with_ranges (vulnerability : Vulnerability.t)
    (pairs : list AffectedRange.t) : Vulnerability.t :=
  Vulnerability.mk (Vulnerability.summary vulnerability)
    (Vulnerability.details vulnerability) (Vulnerability.modified vulnerability)
    (Vulnerability.published vulnerability)
    (Vulnerability.withdrawn vulnerability) (Vulnerability.package vulnerability)
    (Vulnerability.aliases vulnerability) (Vulnerability.related vulnerability)
    (Affects.mk (Affects.versions (Vulnerability.affects vulnerability)) pairs).

(** An event as the merge makes them: introduced or fixed, with a value. *)
Definition proper_event (event : AffectedEvent.t) : Prop :=
  (AffectedEvent.type event = "introduced" \/ AffectedEvent.type event = "fixed")
  /\ AffectedEvent.value event <> "".

(** A string of word characters. *)
Fixpoint word (s : string) : bool :=
  match s with
  | EmptyString => true
  | String c s' => is_word_char c && word s'
  end.

(** A legacy pair of type GIT with a repository. *)
Definition has_repository (pair : AffectedRange.t) : bool :=
  match AffectedRange.type pair with
  | GIT => truthy (AffectedRange.repo pair)
  | _ => false
  end.

(** The repository of a range, when it has one that is not empty. *)
Definition repository (affected_range : AffectedRange2.t) : option string :=
  match AffectedRange2.repo_url affected_range with
  | Some url => if truthy url then Some url else None
  | None => None
  end.

(** A pair whose bounds are values of events of the list: its introduced
    bound, when it has one, is the value of an introduced event, and its
    fixed bound, when it has one, the value of a fixed event. *)
Definition drawn_from (events : list AffectedEvent.t) (pair : AffectedRange.t)
  : Prop :=
  (AffectedRange.introduced pair = "" \/
   exists event, In event events /\ AffectedEvent.type event = "introduced" /\
                 AffectedEvent.value event = AffectedRange.introduced pair) /\
  (AffectedRange.fixed pair = "" \/
   exists event, In event events /\ AffectedEvent.type event = "fixed" /\
                 AffectedEvent.value event = AffectedRange.fixed pair).

(** A record with other values in the fields that the derivation pass
    computes from the affected packages and the identifier. *)
Definition with_derived (self : Bug.t)
    (affected_fuzzy search_indices semver_fixed_indexes : list string)
    (has_affected is_fixed : bool) : Bug.t :=
  Bug.mk (Bug.db_id self) (Bug.aliases self) (Bug.related self)
    (Bug.timestamp self) (Bug.last_modified self) (Bug.withdrawn self)
    (Bug.source_id self) affected_fuzzy (Bug.purl self) (Bug.project self)
    (Bug.ecosystem self) (Bug.summary self) (Bug.details self)
    (Bug.severity self) search_indices has_affected is_fixed
    semver_fixed_indexes (Bug.affected_packages self) (Bug.source self)
    (Bug.key self).

(** A record with other values in the three lists of names. *)
Definition with_names (self : Bug.t) (purl project ecosystem : list string)
  : Bug.t :=
  Bug.mk (Bug.db_id self) (Bug.aliases self) (Bug.related self)
    (Bug.timestamp self) (Bug.last_modified self) (Bug.withdrawn self)
    (Bug.source_id self) (Bug.affected_fuzzy self) purl project ecosystem
    (Bug.summary self) (Bug.details self) (Bug.severity self)
    (Bug.search_indices self) (Bug.has_affected self) (Bug.is_fixed self)
    (Bug.semver_fixed_indexes self) (Bug.affected_packages self)
    (Bug.source self) (Bug.key self).

(** The pairs that the cursor of the export gives for one range: the state
    that the loop of lines 464-485 reaches from [new_range()] over the
    sorted events of the range, closed as lines 487-488 do. *)
Definition by_cursor (ext : External) (ecosystem : string)
    (affected_range : AffectedRange2.t) (pairs : list AffectedRange.t) : Prop :=
  exists fresh events events',
    new_range affected_range = Ok fresh /\
    sorted_events ext ecosystem (AffectedRange2.type affected_range)
      (AffectedRange2.events affected_range) = Ok (events, events') /\
    pairs =
    close_range
      (cursor_after (AffectedRange2.type affected_range) fresh [] events).

(** Two records with the same identity: identifier, key, source and source
    id. *)
Definition same_identity (a b : Bug.t) : Prop :=
  Bug.db_id a = Bug.db_id b /\ Bug.key a = Bug.key b /\
  Bug.source a = Bug.source b /\ Bug.source_id a = Bug.source_id b.

(** Two runs of the derivation pass that end the same way: both accept, or
    both raise the same error, and the records that they leave have the same
    identity. *)
Definition same_end (o1 o2 : outcome) : Prop :=
  match o1, o2 with
  | Done a, Done b => same_identity a b
  | Raised e1 a, Raised e2 b => e1 = e2 /\ same_identity a b
  | _, _ => False
  end.

(** * Properties *)

(** ** Equality tests and fallible computations *)

Lemma event_eqb_spec (a b : AffectedEvent.t) :
  reflect (a = b) (AffectedEvent.eqb a b).
Proof.
  destruct a as [ta va], b as [tb vb]. unfold AffectedEvent.eqb. simpl.
  destruct (String.eqb_spec ta tb) as [->|Ht];
    destruct (String.eqb_spec va vb) as [->|Hv]; simpl; constructor;
    congruence.
Qed.

Lemma event_eqb_refl (a : AffectedEvent.t) : AffectedEvent.eqb a a = true.
Proof. destruct (event_eqb_spec a a); congruence. Qed.

Lemma event_in_In (x : AffectedEvent.t) (l : list AffectedEvent.t) :
  event_in x l = true <-> In x l.
Proof.
  unfold event_in. rewrite existsb_exists. split.
  - intros [y [Hy Heq]]. destruct (event_eqb_spec x y); congruence.
  - intros H. exists x. split; [assumption | apply event_eqb_refl].
Qed.

Lemma truthy_true (s : string) : truthy s = true <-> s <> "".
Proof.
  unfold truthy. destruct (String.eqb_spec s ""); simpl; split; congruence.
Qed.

Lemma truthy_false (s : string) : truthy s = false <-> s = "".
Proof.
  unfold truthy. destruct (String.eqb_spec s ""); simpl; split; congruence.
Qed.

(** ** Sorting by a key *)

Lemma filter_Permutation (A : Type) (f : A -> bool) (l l' : list A) :
  Permutation l l' -> Permutation (filter f l) (filter f l').
Proof.
  induction 1 as [|x l l' _ IH|x y l|l l' l'' _ IH1 _ IH2]; simpl.
  - constructor.
  - destruct (f x); [constructor|]; assumption.
  - destruct (f x), (f y); try reflexivity. apply perm_swap.
  - etransitivity; eassumption.
Qed.

Section SortedFacts.
Variables (A K : Type) (lt : K -> K -> bool) (sortkey : A -> K).

Lemma insert_by_Permutation (x : A) (l : list A) :
  Permutation (insert_by lt sortkey x l) (x :: l).
Proof.
  induction l as [|y l IH]; simpl; [reflexivity|].
  destruct (lt (sortkey y) (sortkey x)); [|reflexivity].
  rewrite IH. apply perm_swap.
Qed.

Lemma sorted_Permutation (l : list A) : Permutation (sorted lt sortkey l) l.
Proof.
  induction l as [|x l IH]; simpl; [reflexivity|].
  rewrite insert_by_Permutation. constructor. assumption.
Qed.

Hypothesis lt_irrefl : forall a, lt a a = false.
Hypothesis lt_trans :
  forall a b c, lt a b = true -> lt b c = true -> lt a c = true.
Hypothesis lt_total : forall a b, lt a b = true \/ a = b \/ lt b a = true.

Lemma lt_asym (a b : K) : lt a b = true -> lt b a = false.
Proof.
  intros Hab. destruct (lt b a) eqn:Hba; [|reflexivity].
  rewrite <- (lt_irrefl a). symmetry. eapply lt_trans; eassumption.
Qed.

Lemma key_le_trans (a b c : A) : key_le lt sortkey a b -> key_le lt sortkey b c -> key_le lt sortkey a c.
Proof.
  unfold key_le. intros Hab Hbc.
  destruct (lt (sortkey c) (sortkey a)) eqn:Hca; [|reflexivity].
  destruct (lt_total (sortkey b) (sortkey a)) as [H|[H|H]].
  - congruence.
  - rewrite H in Hbc. congruence.
  - rewrite <- Hbc. symmetry. eapply lt_trans; eassumption.
Qed.

Lemma insert_by_sorted (x : A) (l : list A) :
  StronglySorted (key_le lt sortkey) l -> StronglySorted (key_le lt sortkey) (insert_by lt sortkey x l).
Proof.
  induction 1 as [|y l Hl IH Hy]; simpl.
  - constructor; constructor.
  - destruct (lt (sortkey y) (sortkey x)) eqn:Hlt.
    + constructor; [assumption|].
      rewrite Forall_forall in *. intros z Hz.
      apply (Permutation_in _ (insert_by_Permutation x l)) in Hz.
      destruct Hz as [<-|Hz]; [|auto].
      unfold key_le. apply lt_asym. assumption.
    + constructor; [constructor; assumption|].
      constructor; [exact Hlt|].
      rewrite Forall_forall in *. intros z Hz.
      apply key_le_trans with y; [exact Hlt | auto].
Qed.

Lemma sorted_StronglySorted (l : list A) :
  StronglySorted (key_le lt sortkey) (sorted lt sortkey l).
Proof.
  induction l as [|x l IH]; simpl; [constructor|].
  apply insert_by_sorted. assumption.
Qed.

(** A strictly increasing list is the only sorted arrangement of its
    elements. *)
Lemma sorted_unique (l r : list A) :
  StronglySorted (key_le lt sortkey) l -> StronglySorted (key_before lt sortkey) r ->
  Permutation l r -> l = r.
Proof.
  revert r. induction l as [|a l IH]; intros r Hl Hr Hp.
  - apply Permutation_nil in Hp. congruence.
  - destruct r as [|b r].
    { symmetry in Hp. apply Permutation_nil in Hp. discriminate. }
    assert (Hab : a = b).
    { assert (Ha : In a (b :: r)) by (eapply Permutation_in; [exact Hp | left; reflexivity]).
      destruct Ha as [Ha|Ha]; [congruence|].
      assert (Hb : In b (a :: l)).
      { eapply Permutation_in; [symmetry; exact Hp | left; reflexivity]. }
      apply StronglySorted_inv in Hl, Hr.
      destruct Hl as [_ Hl], Hr as [_ Hr].
      rewrite Forall_forall in Hl, Hr.
      specialize (Hr a Ha). unfold key_before in Hr.
      destruct Hb as [Hb|Hb]; [congruence|].
      specialize (Hl b Hb). unfold key_le in Hl. congruence. }
    subst b. f_equal. apply IH.
    + apply StronglySorted_inv in Hl. tauto.
    + apply StronglySorted_inv in Hr. tauto.
    + eapply Permutation_cons_inv. exact Hp.
Qed.

Lemma sorted_of_Permutation (l r : list A) :
  StronglySorted (key_before lt sortkey) r -> Permutation l r -> sorted lt sortkey l = r.
Proof.
  intros Hr Hp. apply sorted_unique.
  - apply sorted_StronglySorted.
  - assumption.
  - rewrite sorted_Permutation. assumption.
Qed.
End SortedFacts.

(** ** sorted_events *)

Lemma list_remove_app (event : AffectedEvent.t) (p l : list AffectedEvent.t) :
  Forall (fun x => is_zero x = false) p -> is_zero event = true ->
  list_remove event (p ++ event :: l) = Ok (p ++ l).
Proof.
  intros Hp Hz. induction Hp as [|x p Hx _ IH]; simpl.
  - rewrite event_eqb_refl. reflexivity.
  - destruct (event_eqb_spec x event) as [->|_]; [congruence|].
    rewrite IH. reflexivity.
Qed.

Lemma last_zero_fold (copy : list AffectedEvent.t) (z : option AffectedEvent.t) :
  fold_left (fun z e => if is_zero e then Some e else z) copy z =
  match rev (filter is_zero copy) with
  | [] => z
  | x :: _ => Some x
  end.
Proof.
  revert z. induction copy as [|e copy IH]; intros z; simpl; [reflexivity|].
  rewrite IH. destruct (is_zero e); simpl; [|reflexivity].
  destruct (rev (filter is_zero copy)); reflexivity.
Qed.

(** The loop removes exactly the events it visits: every zero in front of
    the one being removed is already gone. *)
Lemma remove_magic_zeros_spec (copy p : list AffectedEvent.t)
    (z : option AffectedEvent.t) :
  Forall (fun x => is_zero x = false) p ->
  remove_magic_zeros copy z (p ++ copy) =
  Ok (fold_left (fun z e => if is_zero e then Some e else z) copy z,
      p ++ filter not_zero copy).
Proof.
  revert p z. induction copy as [|e copy IH]; intros p z Hp; simpl.
  - reflexivity.
  - unfold not_zero. fold (is_zero e). destruct (is_zero e) eqn:Hz; simpl.
    + rewrite list_remove_app by assumption. simpl. apply IH. assumption.
    + replace (p ++ e :: copy) with ((p ++ [e]) ++ copy)
        by (rewrite <- app_assoc; reflexivity).
      rewrite IH.
      * rewrite <- app_assoc. reflexivity.
      * apply Forall_app. split; [assumption|]. constructor; [assumption|constructor].
Qed.

Lemma remove_magic_zeros_all (events : list AffectedEvent.t) :
  remove_magic_zeros events None events =
  Ok (magic_zero events, filter not_zero events).
Proof.
  assert (H := remove_magic_zeros_spec events None (p := []) (Forall_nil _)).
  simpl in H. rewrite H, last_zero_fold. reflexivity.
Qed.

Lemma magic_zero_In (events : list AffectedEvent.t) (z : AffectedEvent.t) :
  magic_zero events = Some z -> In z events /\ AffectedEvent.value z = "0".
Proof.
  unfold magic_zero. destruct (rev (filter is_zero events)) as [|x l] eqn:Hr;
    [discriminate|].
  intros [= ->].
  assert (Hin : In z (filter is_zero events)).
  { apply in_rev. rewrite Hr. left. reflexivity. }
  apply filter_In in Hin. destruct Hin as [Hin Hz]. split; [assumption|].
  apply String.eqb_eq. exact Hz.
Qed.

Lemma magic_zero_None (events : list AffectedEvent.t) :
  magic_zero events = None -> filter is_zero events = [].
Proof.
  unfold magic_zero. intros H.
  destruct (rev (filter is_zero events)) as [|x l] eqn:Hr; [|discriminate].
  rewrite <- (rev_involutive (filter is_zero events)), Hr. reflexivity.
Qed.

Lemma filter_zero_not_zero (events : list AffectedEvent.t) :
  filter is_zero (filter not_zero events) = [].
Proof.
  induction events as [|e events IH]; simpl; [reflexivity|].
  unfold not_zero at 1. destruct (is_zero e) eqn:Hz; simpl; [assumption|].
  rewrite Hz. assumption.
Qed.

Section SortedEventsFacts.
Variable ext : External.

Lemma sorted_events_GIT (ecosystem : string) (events : list AffectedEvent.t) :
  sorted_events ext ecosystem "GIT" events = Ok (events, events).
Proof. reflexivity. Qed.

Lemma sorted_events_not_GIT (ecosystem range_type : string)
    (events : list AffectedEvent.t) (h : EcosystemHelper) :
  range_type <> "GIT" ->
  ecosystem_helper ext ecosystem range_type = Ok h ->
  sorted_events ext ecosystem range_type events =
  Ok (match magic_zero events with
      | Some z => z :: sorted (key_lt h) (event_key h) (filter not_zero events)
      | None => sorted (key_lt h) (event_key h) (filter not_zero events)
      end,
      filter not_zero events).
Proof.
  intros Hgit Hh. unfold sorted_events.
  destruct (String.eqb_spec range_type "GIT") as [|_]; [contradiction|].
  rewrite Hh. simpl. rewrite remove_magic_zeros_all. simpl.
  destruct (magic_zero events); reflexivity.
Qed.

Lemma sorted_ascending (h : EcosystemHelper) (events : list AffectedEvent.t) :
  ascending h (sorted (key_lt h) (event_key h) events).
Proof.
  apply (sorted_StronglySorted (key_lt h) (event_key h)).
  - apply key_lt_irrefl.
  - apply key_lt_trans.
  - apply key_lt_total.
Qed.

Lemma sorted_no_zero (h : EcosystemHelper) (events : list AffectedEvent.t) :
  filter is_zero (sorted (key_lt h) (event_key h) (filter not_zero events)) = [].
Proof.
  assert (Hp := filter_Permutation is_zero
                  (sorted_Permutation (key_lt h) (event_key h)
                     (filter not_zero events))).
  rewrite filter_zero_not_zero in Hp. symmetry in Hp.
  apply Permutation_nil in Hp. exact Hp.
Qed.
End SortedEventsFacts.

(** C2. [sorted_events] returns a GIT event list unchanged. For any other
    range type for which a comparator is available, it removes every event
    whose value is ["0"], sorts the others in ascending order of their sort
    key and puts the (last) removed event back at position 0 when there is
    one. With a semantic version comparator that places 1.5.0 before 2.0.0,
    [fixed 2.0.0; introduced 0; introduced 1.5.0] becomes
    [introduced 0; introduced 1.5.0; fixed 2.0.0]. *)
Theorem sorted_events_spec (ext : External) :
  (forall ecosystem events,
      sorted_events ext ecosystem "GIT" events = Ok (events, events)) /\
  (forall ecosystem range_type events h,
      range_type <> "GIT" ->
      ecosystem_helper ext ecosystem range_type = Ok h ->
      exists rest,
        sorted_events ext ecosystem range_type events =
          Ok (match magic_zero events with
              | Some z => z :: rest
              | None => rest
              end,
              filter not_zero events) /\
        rest = sorted (key_lt h) (event_key h) (filter not_zero events) /\
        Permutation rest (filter not_zero events) /\
        ascending h rest /\
        (forall z, magic_zero events = Some z ->
                   In z events /\ AffectedEvent.value z = "0") /\
        (magic_zero events = None -> filter is_zero events = [])) /\
  (key_lt (SemverEcosystem ext)
          (sort_key (SemverEcosystem ext) "1.5.0")
          (sort_key (SemverEcosystem ext) "2.0.0") = true ->
   forall ecosystem,
     exists events',
       sorted_events ext ecosystem "SEMVER"
         [AffectedEvent.mk "fixed" "2.0.0"; AffectedEvent.mk "introduced" "0";
          AffectedEvent.mk "introduced" "1.5.0"] =
       Ok ([AffectedEvent.mk "introduced" "0";
            AffectedEvent.mk "introduced" "1.5.0";
            AffectedEvent.mk "fixed" "2.0.0"], events')).
Proof.
  split; [|split].
  - intros. apply sorted_events_GIT.
  - intros ecosystem range_type events h Hgit Hh.
    eexists. split; [apply sorted_events_not_GIT; eassumption|].
    split; [reflexivity|]. split; [apply sorted_Permutation|].
    split; [apply sorted_ascending|]. split.
    + apply magic_zero_In.
    + apply magic_zero_None.
  - intros Hlt ecosystem. eexists.
    rewrite (@sorted_events_not_GIT ext ecosystem "SEMVER" _ (SemverEcosystem ext))
      by (discriminate || reflexivity).
    simpl. unfold event_key. simpl. rewrite Hlt. reflexivity.
Qed.

Lemma sorted_events_spec_witness :
  sorted_events sample_external "PyPI" "ECOSYSTEM"
    [AffectedEvent.mk "fixed" "2.0.0"; AffectedEvent.mk "introduced" "0";
     AffectedEvent.mk "introduced" "1.5.0"] =
  Ok ([AffectedEvent.mk "introduced" "0"; AffectedEvent.mk "introduced" "1.5.0";
       AffectedEvent.mk "fixed" "2.0.0"],
      [AffectedEvent.mk "fixed" "2.0.0"; AffectedEvent.mk "introduced" "1.5.0"]) /\
  exists events',
    sorted_events sample_external "npm" "SEMVER"
      [AffectedEvent.mk "fixed" "2.0.0"; AffectedEvent.mk "introduced" "0";
       AffectedEvent.mk "introduced" "1.5.0"] =
    Ok ([AffectedEvent.mk "introduced" "0"; AffectedEvent.mk "introduced" "1.5.0";
         AffectedEvent.mk "fixed" "2.0.0"], events').
Proof.
  destruct (sorted_events_spec sample_external) as [_ [Hsort Hsemver]].
  split.
  - destruct (Hsort "PyPI" "ECOSYSTEM"
                [AffectedEvent.mk "fixed" "2.0.0";
                 AffectedEvent.mk "introduced" "0";
                 AffectedEvent.mk "introduced" "1.5.0"]
                NumericSemver.helper) as [rest [Heq [Hrest _]]].
    + discriminate.
    + reflexivity.
    + rewrite Heq, Hrest. reflexivity.
  - apply Hsemver. reflexivity.
Defined.

(** C8. For a range type other than GIT for which a comparator is available,
    the list that [sorted_events] returns holds at most one event whose value
    is ["0"]: every such event of the input is removed (from the returned
    list and from the argument list), and the last one met, and only that
    one, is put back at position 0. *)
Theorem sorted_events_one_zero (ext : External) (ecosystem range_type : string)
    (events : list AffectedEvent.t) (h : EcosystemHelper) :
  range_type <> "GIT" ->
  ecosystem_helper ext ecosystem range_type = Ok h ->
  exists out events',
    sorted_events ext ecosystem range_type events = Ok (out, events') /\
    List.length (filter is_zero out) <= 1 /\
    filter is_zero events' = [] /\
    (forall z, magic_zero events = Some z ->
       exists before last_of_zeros,
         filter is_zero events = before ++ [last_of_zeros] /\
         z = last_of_zeros /\
         out = z :: tl out /\ filter is_zero (tl out) = []) /\
    (magic_zero events = None -> filter is_zero out = []).
Proof.
  intros Hgit Hh. do 2 eexists.
  split; [apply sorted_events_not_GIT; eassumption|].
  split; [|split; [apply filter_zero_not_zero|]].
  - destruct (magic_zero events) as [z|] eqn:Hz; simpl.
    + rewrite sorted_no_zero. destruct (is_zero z); simpl; lia.
    + rewrite sorted_no_zero. simpl. lia.
  - split.
    + intros z Hz. unfold magic_zero in Hz.
      destruct (rev (filter is_zero events)) as [|x l] eqn:Hr; [discriminate|].
      injection Hz as ->. exists (rev l), z.
      split.
      * rewrite <- (rev_involutive (filter is_zero events)), Hr. reflexivity.
      * split; [reflexivity|].
        unfold magic_zero. rewrite Hr. simpl.
        split; [reflexivity | apply sorted_no_zero].
    + intros Hz. rewrite Hz. apply sorted_no_zero.
Qed.

Lemma sorted_events_one_zero_witness :
  exists out events',
    sorted_events sample_external "npm" "SEMVER"
      [AffectedEvent.mk "introduced" "0"; AffectedEvent.mk "fixed" "2.0.0";
       AffectedEvent.mk "limit" "0"] = Ok (out, events') /\
    List.length (filter is_zero out) <= 1.
Proof.
  destruct (@sorted_events_one_zero sample_external "npm" "SEMVER"
              [AffectedEvent.mk "introduced" "0"; AffectedEvent.mk "fixed" "2.0.0";
               AffectedEvent.mk "limit" "0"] NumericSemver.helper)
    as [out [events' [Heq [Hlen _]]]].
  - discriminate.
  - reflexivity.
  - exists out, events'. split; assumption.
Defined.

(** ** The cursor of the export *)

Lemma new_range_inv (affected_range : AffectedRange2.t) (fresh : AffectedRange.t) :
  new_range affected_range = Ok fresh ->
  Type_Value (AffectedRange2.type affected_range) = Ok (AffectedRange.type fresh) /\
  AffectedRange.repo fresh =
    match AffectedRange2.repo_url affected_range with
    | Some url => url
    | None => ""
    end /\
  AffectedRange.introduced fresh = "" /\ AffectedRange.fixed fresh = "".
Proof.
  unfold new_range.
  destruct (Type_Value (AffectedRange2.type affected_range)) as [ty|e]; simpl;
    [|discriminate].
  intros [= <-]. simpl. auto.
Qed.

Lemma follows_fresh (fresh : AffectedRange.t) :
  AffectedRange.introduced fresh = "" -> follows fresh fresh.
Proof.
  destruct fresh as [ty repo i f]. unfold follows. simpl. intros ->. reflexivity.
Qed.

Lemma follows_set_introduced (fresh : AffectedRange.t) (v : string) :
  follows fresh (AffectedRange.set_introduced fresh v).
Proof. reflexivity. Qed.

Lemma follows_closed (fresh cur_range : AffectedRange.t) :
  AffectedRange.introduced fresh = "" ->
  follows fresh cur_range -> AffectedRange.introduced cur_range = "" ->
  cur_range = fresh.
Proof.
  intros Hf Hc Hi. unfold follows in Hc. rewrite Hi in Hc. rewrite Hc.
  destruct fresh as [ty repo i f]. simpl in *. subst i. reflexivity.
Qed.

Lemma follows_set_cur (fresh cur_range : AffectedRange.t) (v : string) :
  follows fresh cur_range ->
  follows fresh (AffectedRange.set_introduced cur_range v).
Proof. unfold follows. intros H. rewrite H. reflexivity. Qed.

Lemma pair_event_follows (range_type : string) (fresh : AffectedRange.t)
    (ranges : list AffectedRange.t) (cur_range : AffectedRange.t)
    (event : AffectedEvent.t) :
  AffectedRange.introduced fresh = "" ->
  follows fresh cur_range ->
  follows fresh (snd (pair_event range_type fresh (ranges, cur_range) event)).
Proof.
  intros Hf Hc. unfold pair_event.
  assert (Hfr : truthy (AffectedRange.introduced fresh) = false)
    by (rewrite Hf; reflexivity).
  destruct (AffectedEvent.type event =? "introduced");
    destruct (AffectedEvent.type event =? "fixed");
    destruct (truthy (AffectedRange.introduced cur_range) && (range_type =? "GIT"));
    simpl; rewrite ?Hfr; simpl;
    try (apply follows_fresh; assumption);
    try apply follows_set_introduced; try assumption.
  all: destruct (truthy (AffectedRange.introduced cur_range)); simpl;
    try assumption; try (apply follows_fresh; assumption);
    apply follows_set_cur; assumption.
Qed.

Lemma cursor_after_follows (range_type : string) (fresh : AffectedRange.t)
    (events : list AffectedEvent.t) (ranges0 : list AffectedRange.t) :
  AffectedRange.introduced fresh = "" ->
  follows fresh (snd (cursor_after range_type fresh ranges0 events)).
Proof.
  intros Hf. unfold cursor_after.
  assert (H : forall st, follows fresh (snd st) ->
     follows fresh (snd (fold_left (pair_event range_type fresh) events st))).
  { induction events as [|e events IH]; intros [ranges cur] Hst; simpl;
      [assumption|].
    apply IH. apply pair_event_follows; assumption. }
  apply H. apply follows_fresh. assumption.
Qed.

Lemma cursor_after_app (range_type : string) (fresh : AffectedRange.t)
    (ranges0 : list AffectedRange.t) (l1 l2 : list AffectedEvent.t) :
  cursor_after range_type fresh ranges0 (l1 ++ l2) =
  fold_left (pair_event range_type fresh) l2
    (cursor_after range_type fresh ranges0 l1).
Proof. unfold cursor_after. apply fold_left_app. Qed.

Lemma export_range_eq (ext : External) (ecosystem : string)
    (ranges0 : list AffectedRange.t) (affected_range : AffectedRange2.t)
    (fresh : AffectedRange.t) (events events' : list AffectedEvent.t) :
  new_range affected_range = Ok fresh ->
  sorted_events ext ecosystem (AffectedRange2.type affected_range)
    (AffectedRange2.events affected_range) = Ok (events, events') ->
  export_range ext ecosystem ranges0 affected_range =
  Ok (close_range
        (cursor_after (AffectedRange2.type affected_range) fresh ranges0 events),
      AffectedRange2.set_events affected_range events').
Proof.
  intros Hn Hs. unfold export_range. rewrite Hn. simpl. rewrite Hs. reflexivity.
Qed.

Lemma pair_event_other (range_type : string) (fresh : AffectedRange.t)
    (st : list AffectedRange.t * AffectedRange.t) (event : AffectedEvent.t) :
  is_bound event = false -> pair_event range_type fresh st event = st.
Proof.
  unfold is_bound, pair_event. intros H. apply orb_false_iff in H.
  destruct H as [-> ->]. destruct st. reflexivity.
Qed.

Lemma fold_pair_event_bounds (range_type : string) (fresh : AffectedRange.t)
    (events : list AffectedEvent.t) (st : list AffectedRange.t * AffectedRange.t) :
  fold_left (pair_event range_type fresh) events st =
  fold_left (pair_event range_type fresh) (filter is_bound events) st.
Proof.
  revert st. induction events as [|e events IH]; intros st; simpl;
    [reflexivity|].
  destruct (is_bound e) eqn:He; simpl.
  - apply IH.
  - rewrite pair_event_other by assumption. apply IH.
Qed.

(** C10. The export ignores limit events, and every event that is neither
    introduced nor fixed: such an event leaves the cursor as it is, so the
    pairs of a range are those of the introduced and fixed events of its
    sorted event stream. *)
Theorem limit_events_ignored (ext : External) :
  (forall range_type fresh st v,
      pair_event range_type fresh st (AffectedEvent.mk "limit" v) = st) /\
  (forall range_type fresh ranges events,
      pair_events range_type fresh ranges events =
      pair_events range_type fresh ranges (filter is_bound events)) /\
  (forall ecosystem ranges affected_range fresh events events',
      new_range affected_range = Ok fresh ->
      sorted_events ext ecosystem (AffectedRange2.type affected_range)
        (AffectedRange2.events affected_range) = Ok (events, events') ->
      export_range ext ecosystem ranges affected_range =
      Ok (pair_events (AffectedRange2.type affected_range) fresh ranges
            (filter is_bound events),
          AffectedRange2.set_events affected_range events')).
Proof.
  split; [|split].
  - intros. apply pair_event_other. reflexivity.
  - intros. unfold pair_events. rewrite fold_pair_event_bounds. reflexivity.
  - intros ecosystem ranges affected_range fresh events events' Hn Hs.
    rewrite (@export_range_eq ext ecosystem ranges _ _ _ _ Hn Hs). unfold cursor_after, pair_events.
    rewrite fold_pair_event_bounds. reflexivity.
Qed.

Lemma limit_events_ignored_witness :
  export_range sample_external "PyPI" []
    (AffectedRange2.mk "ECOSYSTEM" None
       [AffectedEvent.mk "introduced" "1.0"; AffectedEvent.mk "limit" "1.5";
        AffectedEvent.mk "fixed" "2.0"]) =
  Ok ([AffectedRange.mk ECOSYSTEM "" "1.0" "2.0"],
      AffectedRange2.mk "ECOSYSTEM" None
        [AffectedEvent.mk "introduced" "1.0"; AffectedEvent.mk "limit" "1.5";
         AffectedEvent.mk "fixed" "2.0"]).
Proof.
  destruct (limit_events_ignored sample_external) as [_ [_ H]].
  rewrite (H "PyPI" []
             (AffectedRange2.mk "ECOSYSTEM" None
                [AffectedEvent.mk "introduced" "1.0";
                 AffectedEvent.mk "limit" "1.5"; AffectedEvent.mk "fixed" "2.0"])
             (AffectedRange.mk ECOSYSTEM "" "" "")
             [AffectedEvent.mk "introduced" "1.0"; AffectedEvent.mk "limit" "1.5";
              AffectedEvent.mk "fixed" "2.0"]
             [AffectedEvent.mk "introduced" "1.0"; AffectedEvent.mk "limit" "1.5";
              AffectedEvent.mk "fixed" "2.0"]
             eq_refl eq_refl).
  reflexivity.
Defined.

(** ** The merge of legacy pairs *)

Section FirstSeen.
Variables (A : Type) (eqb : A -> A -> bool).
Hypothesis eqb_spec : forall a b, reflect (a = b) (eqb a b).

Lemma existsb_eqb_In (x : A) (l : list A) : existsb (eqb x) l = true <-> In x l.
Proof.
  rewrite existsb_exists. split.
  - intros [y [Hy Heq]]. destruct (eqb_spec x y); congruence.
  - intros H. exists x. split; [assumption|].
    destruct (eqb_spec x x); congruence.
Qed.

Lemma first_seen_In (x : A) (l : list A) : In x (first_seen eqb l) <-> In x l.
Proof.
  induction l as [|a l IH]; simpl; [tauto|].
  rewrite filter_In, IH.
  destruct (eqb_spec x a) as [->|Hne]; simpl; intuition congruence.
Qed.

Lemma first_seen_NoDup (l : list A) : NoDup (first_seen eqb l).
Proof.
  induction l as [|a l IH]; simpl; constructor.
  - rewrite filter_In. intros [_ H]. destruct (eqb_spec a a); simpl in H; congruence.
  - apply NoDup_filter. assumption.
Qed.

Lemma first_seen_snoc (l : list A) (x : A) :
  first_seen eqb (l ++ [x]) =
  if existsb (eqb x) l then first_seen eqb l else first_seen eqb l ++ [x].
Proof.
  induction l as [|a l IH]; simpl; [reflexivity|].
  rewrite IH. destruct (eqb_spec x a) as [->|Hne]; simpl.
  - destruct (existsb (eqb a) l); [reflexivity|].
    rewrite filter_app. simpl. destruct (eqb_spec a a); [|congruence].
    simpl. rewrite app_nil_r. reflexivity.
  - destruct (existsb (eqb x) l); [reflexivity|].
    rewrite filter_app. simpl. destruct (eqb_spec x a); [congruence|].
    reflexivity.
Qed.

Lemma first_seen_id (l : list A) : NoDup l -> first_seen eqb l = l.
Proof.
  induction 1 as [|a l Ha _ IH]; simpl; [reflexivity|].
  rewrite IH. f_equal. apply forallb_filter_id. apply forallb_forall.
  intros y Hy. destruct (eqb_spec y a); [congruence | reflexivity].
Qed.
End FirstSeen.

Arguments existsb_eqb_In {A eqb} eqb_spec x l.
Arguments first_seen_In {A eqb} eqb_spec x l.
Arguments first_seen_NoDup {A eqb} eqb_spec l.
Arguments first_seen_snoc {A eqb} eqb_spec l x.
Arguments first_seen_id {A eqb} eqb_spec l _.

Lemma key_eqb_spec (a b : string * string) : reflect (a = b) (key_eqb a b).
Proof.
  destruct a as [a1 a2], b as [b1 b2]. unfold key_eqb. simpl.
  destruct (String.eqb_spec a1 b1) as [->|H1];
    destruct (String.eqb_spec a2 b2) as [->|H2]; simpl; constructor;
    congruence.
Qed.

Lemma append_new_first_seen (l : list AffectedEvent.t) (e : AffectedEvent.t) :
  append_new (first_seen AffectedEvent.eqb l) e =
  first_seen AffectedEvent.eqb (l ++ [e]).
Proof.
  rewrite (first_seen_snoc event_eqb_spec). unfold append_new.
  destruct (event_in e (first_seen AffectedEvent.eqb l)) eqn:Hin.
  - apply (proj1 (event_in_In _ _)) in Hin.
    apply (proj1 (first_seen_In event_eqb_spec _ _)) in Hin.
    apply (proj2 (existsb_eqb_In event_eqb_spec _ _)) in Hin.
    rewrite Hin. reflexivity.
  - destruct (existsb (AffectedEvent.eqb e) l) eqn:Hex; [|reflexivity].
    apply (proj1 (existsb_eqb_In event_eqb_spec _ _)) in Hex.
    apply (proj2 (first_seen_In event_eqb_spec _ _)) in Hex.
    apply (proj2 (event_in_In _ _)) in Hex. congruence.
Qed.

Lemma str_or_zero (s : string) : str_or s "0" = if s =? "" then "0" else s.
Proof. unfold str_or, truthy. destruct (s =? ""); reflexivity. Qed.

Lemma add_range_events_first_seen (pair : AffectedRange.t)
    (l : list AffectedEvent.t) :
  add_range_events pair (first_seen AffectedEvent.eqb l) =
  first_seen AffectedEvent.eqb (l ++ bounds_of pair).
Proof.
  unfold add_range_events, bounds_of. rewrite str_or_zero.
  rewrite append_new_first_seen. unfold truthy.
  destruct (AffectedRange.fixed pair =? ""); simpl.
  - reflexivity.
  - rewrite append_new_first_seen, <- app_assoc. reflexivity.
Qed.

Lemma setdefault_update_map (k : string * string)
    (f : list AffectedEvent.t -> list AffectedEvent.t)
    (g : string * string -> list AffectedEvent.t) (ks : list (string * string)) :
  NoDup ks ->
  setdefault_update k f (map (fun k' => (k', g k')) ks) =
  map (fun k' => (k', if key_eqb k' k then f (g k') else g k')) ks
  ++ (if existsb (key_eqb k) ks then [] else [(k, f [])]).
Proof.
  induction 1 as [|a ks Ha Hks IH]; simpl; [reflexivity|].
  destruct (key_eqb_spec a k) as [->|Hne].
  - destruct (key_eqb_spec k k) as [_|]; [|congruence]. simpl.
    rewrite app_nil_r. f_equal. apply map_ext_in. intros k' Hk'.
    destruct (key_eqb_spec k' k); [congruence | reflexivity].
  - destruct (key_eqb_spec k a) as [|_]; [congruence|]. simpl.
    rewrite IH. reflexivity.
Qed.

Lemma group_snoc (k : string * string) (pairs : list AffectedRange.t)
    (pair : AffectedRange.t) :
  group k (pairs ++ [pair]) =
  group k pairs ++ (if key_eqb (range_key pair) k then [pair] else []).
Proof. unfold group. rewrite filter_app. reflexivity. Qed.

Lemma group_nil (k : string * string) (pairs : list AffectedRange.t) :
  ~ In k (map range_key pairs) -> group k pairs = [].
Proof.
  intros Hk. unfold group. induction pairs as [|p pairs IH]; simpl; [reflexivity|].
  destruct (key_eqb_spec (range_key p) k) as [Heq|_].
  - exfalso. apply Hk. left. assumption.
  - apply IH. intros H. apply Hk. right. assumption.
Qed.

(** The dict of the first loop, once it has read [pairs]. *)
Lemma events_by_type_spec (pairs : list AffectedRange.t) :
  fold_left group_range pairs [] =
  map (fun k => (k, first_seen AffectedEvent.eqb (flat_map bounds_of (group k pairs))))
      (first_seen key_eqb (map range_key pairs)).
Proof.
  induction pairs as [|pair pairs IH] using rev_ind; [reflexivity|].
  rewrite fold_left_app, IH. simpl. unfold group_range.
  fold (range_key pair).
  rewrite setdefault_update_map by apply (first_seen_NoDup key_eqb_spec).
  rewrite map_app. simpl. rewrite (first_seen_snoc key_eqb_spec).
  assert (Hstep : forall k',
     (if key_eqb k' (range_key pair)
      then add_range_events pair
             (first_seen AffectedEvent.eqb (flat_map bounds_of (group k' pairs)))
      else first_seen AffectedEvent.eqb (flat_map bounds_of (group k' pairs))) =
     first_seen AffectedEvent.eqb
       (flat_map bounds_of (group k' (pairs ++ [pair])))).
  { intros k'. rewrite group_snoc, flat_map_app.
    destruct (key_eqb_spec k' (range_key pair)) as [->|Hne].
    - destruct (key_eqb_spec (range_key pair) (range_key pair)); [|congruence].
      simpl. rewrite app_nil_r. apply add_range_events_first_seen.
    - destruct (key_eqb_spec (range_key pair) k'); [congruence|].
      simpl. rewrite app_nil_r. reflexivity. }
  rewrite (map_ext _ _ (fun k' => f_equal (fun v => (k', v)) (Hstep k'))).
  destruct (existsb (key_eqb (range_key pair)) (map range_key pairs)) eqn:Hex.
  - assert (Hin : existsb (key_eqb (range_key pair))
                    (first_seen key_eqb (map range_key pairs)) = true).
    { apply (proj2 (existsb_eqb_In key_eqb_spec _ _)).
      apply (proj2 (first_seen_In key_eqb_spec _ _)).
      apply (proj1 (existsb_eqb_In key_eqb_spec _ _)). assumption. }
    rewrite Hin, app_nil_r. reflexivity.
  - assert (Hout : ~ In (range_key pair) (map range_key pairs)).
    { intros H. apply (proj2 (existsb_eqb_In key_eqb_spec _ _)) in H.
      congruence. }
    assert (Hin : existsb (key_eqb (range_key pair))
                    (first_seen key_eqb (map range_key pairs)) = false).
    { destruct (existsb _ (first_seen _ _)) eqn:E; [|reflexivity].
      apply (proj1 (existsb_eqb_In key_eqb_spec _ _)) in E.
      apply (proj1 (first_seen_In key_eqb_spec _ _)) in E. contradiction. }
    rewrite Hin, map_app. simpl. do 3 f_equal.
    rewrite <- (Hstep (range_key pair)).
    destruct (key_eqb_spec (range_key pair) (range_key pair)); [|congruence].
    rewrite (group_nil _ _ Hout). reflexivity.
Qed.

Lemma check_valid_Type_Name (ty : RangeType) :
  _check_valid_range_type (Type_Name ty) = Ok tt.
Proof. destruct ty; reflexivity. Qed.

Lemma build_ranges_spec (pairs : list AffectedRange.t)
    (ks : list (string * string)) :
  (forall k, In k ks -> exists ty, fst k = Type_Name ty) ->
  build_ranges
    (map (fun k => (k, first_seen AffectedEvent.eqb
                         (flat_map bounds_of (group k pairs)))) ks) =
  Ok (map (merged_range pairs) ks).
Proof.
  induction ks as [|[range_type repo_url] ks IH]; intros Hks; simpl;
    [reflexivity|].
  destruct (Hks (range_type, repo_url) (or_introl eq_refl)) as [ty Hty].
  simpl in Hty. subst range_type.
  unfold AffectedRange2.new. rewrite check_valid_Type_Name. simpl.
  rewrite IH by (intros k Hk; apply Hks; right; assumption). simpl.
  unfold merged_range, truthy. simpl.
  destruct ((Type_Name ty =? "GIT") && negb (repo_url =? "")); reflexivity.
Qed.

Lemma update_from_vulnerability_packages (self : Bug.t)
    (vulnerability : Vulnerability.t) :
  exists self',
    update_from_vulnerability self vulnerability = Ok self' /\
    Bug.affected_packages self' =
      AffectedPackage.mk
        (Vulnerability.package vulnerability)
        (merged_ranges (Affects.ranges (Vulnerability.affects vulnerability)))
        (Affects.versions (Vulnerability.affects vulnerability))
      :: tl (Bug.affected_packages self).
Proof.
  unfold update_from_vulnerability. rewrite events_by_type_spec.
  rewrite build_ranges_spec.
  - destruct (Bug.affected_packages self) as [|p others]; simpl;
      eexists; (split; [reflexivity|]); simpl;
      destruct (Vulnerability.package vulnerability); reflexivity.
  - intros k Hk. apply (proj1 (first_seen_In key_eqb_spec _ _)) in Hk.
    apply in_map_iff in Hk. destruct Hk as [p [<- _]].
    exists (AffectedRange.type p). reflexivity.
Qed.

(** C4. [update_from_vulnerability] never fails on a list of legacy pairs
    and replaces the ranges of the first affected package (a new one when
    the record has none) by the merge of the incoming pairs alone: the pairs
    are grouped by type and repository; a group gives one range, in the
    order in which the groups are first seen; the events of the range are
    one introduced event per pair (["0"] for an empty bound) and one fixed
    event per pair with a fixed bound, without the events that are equal to
    an earlier one; the range has a repository only when its type is GIT
    and the repository is not empty. The ranges that the package had before
    do not appear in the result. *)
Theorem update_from_vulnerability_merge (self : Bug.t)
    (vulnerability : Vulnerability.t) :
  let pairs := Affects.ranges (Vulnerability.affects vulnerability) in
  exists self' package',
    update_from_vulnerability self vulnerability = Ok self' /\
    Bug.affected_packages self' = package' :: tl (Bug.affected_packages self) /\
    AffectedPackage.ranges package' = merged_ranges pairs /\
    map (fun r => (AffectedRange2.type r, AffectedRange2.events r))
        (AffectedPackage.ranges package') =
    map (fun k => (fst k,
                   first_seen AffectedEvent.eqb
                     (flat_map bounds_of (group k pairs))))
        (first_seen key_eqb (map range_key pairs)) /\
    (forall r, In r (AffectedPackage.ranges package') ->
       forall url, AffectedRange2.repo_url r = Some url ->
                   AffectedRange2.type r = "GIT" /\ url <> "") /\
    (forall r, In r (AffectedPackage.ranges package') ->
       NoDup (AffectedRange2.events r)).
Proof.
  intros pairs.
  destruct (update_from_vulnerability_packages self vulnerability)
    as [self' [Hok Hpk]].
  exists self'. eexists. split; [exact Hok|]. split; [exact Hpk|].
  simpl. split; [reflexivity|]. fold pairs. split; [|split].
  - unfold merged_ranges. rewrite map_map. reflexivity.
  - intros r Hr url Hurl. unfold merged_ranges in Hr.
    apply in_map_iff in Hr. destruct Hr as [k [<- _]].
    unfold merged_range in *. simpl in *.
    destruct (String.eqb_spec (fst k) "GIT") as [Hg|]; simpl in Hurl;
      [|discriminate].
    destruct (String.eqb_spec (snd k) "") as [|Hr]; simpl in Hurl;
      [discriminate|].
    injection Hurl as <-. split; assumption.
  - intros r Hr. unfold merged_ranges in Hr.
    apply in_map_iff in Hr. destruct Hr as [k [<- _]]. simpl.
    apply (first_seen_NoDup event_eqb_spec).
Qed.

(** ** The derivation pass *)

Section Derivation.
Variable ext : External.

Lemma scan_events_spec (events : list AffectedEvent.t) (b : bool)
    (fv : option string) :
  fold_left scan_event events (b, fv) =
  (b || existsb is_fixed_event events,
   match rev (filter is_fixed_event events) with
   | [] => fv
   | event :: _ => Some (AffectedEvent.value event)
   end).
Proof.
  revert b fv. induction events as [|e events IH]; intros b fv; simpl.
  - rewrite orb_false_r. reflexivity.
  - unfold scan_event at 2. fold (is_fixed_event e).
    destruct (is_fixed_event e); rewrite IH; simpl.
    + rewrite orb_true_r. f_equal.
      destruct (rev (filter is_fixed_event events)); reflexivity.
    + reflexivity.
Qed.

Lemma fixed_or_not_fixed_spec (affected_range : AffectedRange2.t) :
  semver_index_normalize ext (fixed_or_not_fixed (last_fixed affected_range)) =
  semver_index ext affected_range.
Proof.
  unfold semver_index, fixed_or_not_fixed, str_or, truthy.
  destruct (last_fixed affected_range) as [v|]; [|reflexivity].
  destruct (v =? ""); reflexivity.
Qed.

Lemma index_range_spec (st : indexes) (r : AffectedRange2.t) :
  index_range ext st r =
  mk_indexes (ix_affected_fuzzy st)
    (ix_semver_fixed_indexes st ++
     (if is_semver r then [semver_index ext r] else []))
    (ix_has_affected st || type_has_versions r)
    (ix_is_fixed st || has_fixed r).
Proof.
  unfold index_range. rewrite scan_events_spec.
  fold (last_fixed r). fold (is_semver r). rewrite fixed_or_not_fixed_spec.
  destruct (is_semver r); rewrite ?app_nil_r; reflexivity.
Qed.

Lemma index_ranges_spec (ranges : list AffectedRange2.t) (st : indexes) :
  fold_left (index_range ext) ranges st =
  mk_indexes (ix_affected_fuzzy st)
    (ix_semver_fixed_indexes st ++
     map (semver_index ext) (filter is_semver ranges))
    (ix_has_affected st || existsb type_has_versions ranges)
    (ix_is_fixed st || existsb has_fixed ranges).
Proof.
  revert st. induction ranges as [|r ranges IH]; intros st; simpl.
  - rewrite app_nil_r, !orb_false_r. destruct st; reflexivity.
  - rewrite IH, index_range_spec. simpl.
    destruct (is_semver r); simpl; rewrite ?orb_assoc, <- ?app_assoc;
      reflexivity.
Qed.

Lemma index_packages_spec (pkgs : list AffectedPackage.t) (st : indexes) :
  fold_left (index_package ext) pkgs st =
  mk_indexes
    (ix_affected_fuzzy st ++
     flat_map (fun pkg => normalize_tags ext (AffectedPackage.versions pkg)) pkgs)
    (ix_semver_fixed_indexes st ++
     map (semver_index ext) (filter is_semver (all_ranges pkgs)))
    (ix_has_affected st || existsb package_has_versions pkgs)
    (ix_is_fixed st
     || existsb (fun pkg => existsb has_fixed (AffectedPackage.ranges pkg)) pkgs).
Proof.
  revert st. induction pkgs as [|pkg pkgs IH]; intros st; simpl.
  - rewrite !app_nil_r, !orb_false_r. destruct st; reflexivity.
  - rewrite IH. unfold index_package. rewrite index_ranges_spec. simpl.
    unfold all_ranges, package_has_versions. simpl.
    rewrite filter_app, map_app, <- !app_assoc, !orb_assoc. reflexivity.
Qed.

(** The checks leave the entity as it is, but for its key. *)
Lemma validate_entity (self : Bug.t) :
  entity (validate ext self) = self \/
  exists k, entity (validate ext self) = Bug.set_key self k.
Proof.
  unfold validate.
  destruct (negb (truthy (Bug.source self))); [left; reflexivity|].
  destruct (negb (truthy (Bug.db_id self))); [left; reflexivity|].
  destruct (Bug.key self); [left; reflexivity|].
  destruct (get_source_repository ext (Bug.source self));
    [right; eexists; reflexivity | left; reflexivity].
Qed.

(** The derived fields once the pass is beyond the identifier. *)
Lemma pre_put_hook_indexes (now : datetime) (self : Bug.t) (ident : string) :
  id self = Ok ident ->
  let self' := entity (_pre_put_hook ext now self) in
  let pkgs := Bug.affected_packages self in
  Bug.affected_packages self' = pkgs /\
  Bug.is_fixed self' =
    existsb (fun pkg => existsb has_fixed (AffectedPackage.ranges pkg)) pkgs /\
  Bug.has_affected self' = existsb package_has_versions pkgs /\
  Bug.semver_fixed_indexes self' =
    map (semver_index ext) (filter is_semver (all_ranges pkgs)) /\
  Bug.affected_fuzzy self' =
    flat_map (fun pkg => normalize_tags ext (AffectedPackage.versions pkg)) pkgs.
Proof.
  intros Hid. unfold _pre_put_hook. rewrite Hid.
  assert (H := index_packages_spec (Bug.affected_packages self)
                 (mk_indexes [] [] false false)).
  simpl in H.
  destruct (validate_entity (derive ext now self ident)) as [-> | [k ->]];
    simpl; rewrite H; simpl; auto.
Qed.
End Derivation.

Lemma has_fixed_iff (r : AffectedRange2.t) :
  has_fixed r = true <->
  exists event, In event (AffectedRange2.events r) /\
                AffectedEvent.type event = "fixed".
Proof.
  unfold has_fixed. rewrite existsb_exists. unfold is_fixed_event.
  split; intros [e [He Ht]]; exists e; (split; [assumption|]);
    apply String.eqb_eq; assumption.
Qed.

Lemma type_has_versions_iff (r : AffectedRange2.t) :
  type_has_versions r = true <->
  AffectedRange2.type r = "SEMVER" \/ AffectedRange2.type r = "ECOSYSTEM".
Proof.
  unfold type_has_versions. simpl. rewrite orb_false_r, orb_true_iff.
  rewrite !String.eqb_eq. tauto.
Qed.

Lemma package_has_versions_iff (pkg : AffectedPackage.t) :
  package_has_versions pkg = true <->
  AffectedPackage.versions pkg <> [] \/
  exists r, In r (AffectedPackage.ranges pkg) /\
            (AffectedRange2.type r = "SEMVER" \/
             AffectedRange2.type r = "ECOSYSTEM").
Proof.
  unfold package_has_versions. rewrite orb_true_iff, existsb_exists.
  split; intros [H|[r [Hr Ht]]].
  - left. destruct (AffectedPackage.versions pkg); [discriminate | discriminate].
  - right. exists r. split; [assumption|]. apply type_has_versions_iff. assumption.
  - left. destruct (AffectedPackage.versions pkg); [contradiction | reflexivity].
  - right. exists r. split; [assumption|]. apply type_has_versions_iff. assumption.
Qed.

(** C5 (as amended). Once the derivation pass is beyond the lookup of the
    identifier: [is_fixed] is true iff some range of some affected package
    has a fixed event; [has_affected] is true iff some affected package has
    an explicit version or a range of type SEMVER or ECOSYSTEM; and
    [semver_fixed_indexes] has one entry per SEMVER range, in the order of
    the packages and of their ranges: the normalized value of the last fixed
    event of the range when that value is not empty, the normalized
    999999.999999.999999 otherwise (no fixed event, or an empty value). *)
Theorem derived_fields (ext : External) (now : datetime) (self : Bug.t)
    (ident : string) :
  id self = Ok ident ->
  let self' := entity (_pre_put_hook ext now self) in
  let pkgs := Bug.affected_packages self in
  (Bug.is_fixed self' = true <->
   exists pkg r event,
     In pkg pkgs /\ In r (AffectedPackage.ranges pkg) /\
     In event (AffectedRange2.events r) /\ AffectedEvent.type event = "fixed") /\
  (Bug.has_affected self' = true <->
   exists pkg,
     In pkg pkgs /\
     (AffectedPackage.versions pkg <> [] \/
      exists r, In r (AffectedPackage.ranges pkg) /\
                (AffectedRange2.type r = "SEMVER" \/
                 AffectedRange2.type r = "ECOSYSTEM"))) /\
  Bug.semver_fixed_indexes self' =
    map (semver_index ext) (filter is_semver (all_ranges pkgs)) /\
  (forall r, semver_index ext r =
     semver_index_normalize ext
       match last_fixed r with
       | Some v => if v =? "" then "999999.999999.999999" else v
       | None => "999999.999999.999999"
       end).
Proof.
  intros Hid self' pkgs.
  destruct (pre_put_hook_indexes ext now self Hid) as [_ [Hf [Ha [Hs _]]]].
  fold self' pkgs in Hf, Ha, Hs.
  split; [|split; [|split; [exact Hs | reflexivity]]].
  - rewrite Hf, existsb_exists. split.
    + intros [pkg [Hp H]]. apply existsb_exists in H. destruct H as [r [Hr H]].
      apply has_fixed_iff in H. destruct H as [e [He Ht]].
      exists pkg, r, e. auto.
    + intros [pkg [r [e [Hp [Hr [He Ht]]]]]]. exists pkg. split; [assumption|].
      apply existsb_exists. exists r. split; [assumption|].
      apply has_fixed_iff. exists e. auto.
  - rewrite Ha, existsb_exists. split.
    + intros [pkg [Hp H]]. exists pkg. split; [assumption|].
      apply package_has_versions_iff. assumption.
    + intros [pkg [Hp H]]. exists pkg. split; [assumption|].
      apply package_has_versions_iff. assumption.
Qed.

Lemma derived_fields_witness :
  let self' :=
    entity (_pre_put_hook sample_external 7%N
              (one_range_bug "SEMVER" [AffectedEvent.mk "introduced" "1.0.0"])) in
  Bug.is_fixed self' = false /\ Bug.has_affected self' = true /\
  Bug.semver_fixed_indexes self' = ["999999.999999.999999"].
Proof.
  destruct (@derived_fields sample_external 7%N
              (one_range_bug "SEMVER" [AffectedEvent.mk "introduced" "1.0.0"])
              "GHSA-1234" eq_refl) as [_ [_ [Hs _]]].
  intros self'. split; [reflexivity|]. split; [reflexivity|].
  etransitivity; [exact Hs | reflexivity].
Defined.

(** The claim C5 as it is worded fails on a SEMVER range whose last fixed
    event has an empty value: the code indexes the unfixed version there. *)
Lemma derived_fields_counterexample :
  let self :=
    one_range_bug "SEMVER"
      [AffectedEvent.mk "introduced" "1.0.0"; AffectedEvent.mk "fixed" ""] in
  id self = Ok "GHSA-1234" /\
  Bug.semver_fixed_indexes (entity (_pre_put_hook sample_external 7%N self)) =
    ["999999.999999.999999"] /\
  map (claimed_semver_index sample_external)
      (filter is_semver (all_ranges (Bug.affected_packages self))) = [""] /\
  Bug.semver_fixed_indexes (entity (_pre_put_hook sample_external 7%N self)) <>
  map (claimed_semver_index sample_external)
      (filter is_semver (all_ranges (Bug.affected_packages self))).
Proof.
  simpl. repeat split; try reflexivity. discriminate.
Qed.

(** ** The order of strings and the search indices *)

Lemma string_compare_trans (a b c : string) :
  String.compare a b = Lt -> String.compare b c = Lt -> String.compare a c = Lt.
Proof.
  revert b c. induction a as [|x a IH]; intros [|y b] [|z c]; simpl;
    try discriminate; auto.
  unfold Ascii.compare.
  destruct (N.compare_spec (N_of_ascii x) (N_of_ascii y)) as [Hxy|Hxy|Hxy];
    try discriminate;
    destruct (N.compare_spec (N_of_ascii y) (N_of_ascii z)) as [Hyz|Hyz|Hyz];
    try discriminate; intros H1 H2.
  - rewrite Hxy, Hyz, N.compare_refl. eapply IH; eassumption.
  - rewrite Hxy, (proj2 (N.compare_lt_iff _ _) Hyz). reflexivity.
  - rewrite <- Hyz, (proj2 (N.compare_lt_iff _ _) Hxy). reflexivity.
  - rewrite (proj2 (N.compare_lt_iff _ _) (N.lt_trans _ _ _ Hxy Hyz)).
    reflexivity.
Qed.

Lemma string_ltb_lt (a b : string) : String.ltb a b = true <-> String.compare a b = Lt.
Proof. unfold String.ltb. destruct (String.compare a b); split; congruence. Qed.

Lemma string_ltb_irrefl (a : string) : String.ltb a a = false.
Proof.
  destruct (String.ltb a a) eqn:H; [|reflexivity].
  apply string_ltb_lt in H. assert (H' := String.compare_antisym a a).
  rewrite H in H'. discriminate.
Qed.

Lemma string_ltb_trans (a b c : string) :
  String.ltb a b = true -> String.ltb b c = true -> String.ltb a c = true.
Proof. rewrite !string_ltb_lt. apply string_compare_trans. Qed.

Lemma string_ltb_total (a b : string) :
  String.ltb a b = true \/ a = b \/ String.ltb b a = true.
Proof.
  rewrite !string_ltb_lt. destruct (String.compare a b) eqn:H.
  - right. left. apply String.compare_eq_iff. assumption.
  - left. reflexivity.
  - right. right. rewrite String.compare_antisym, H. reflexivity.
Qed.

Lemma set_add_NoDup (s : list string) (x : string) :
  NoDup s -> NoDup (set_add s x).
Proof.
  intros Hs. unfold set_add. destruct (existsb (String.eqb x) s) eqn:Hex;
    [assumption|].
  apply NoDup_app; [assumption | constructor; [intros []|constructor] |].
  intros y Hy [Heq|[]]. subst y.
  assert (H : existsb (String.eqb x) s = true).
  { apply existsb_exists. exists x. split; [assumption | apply String.eqb_refl]. }
  congruence.
Qed.

Lemma set_update_NoDup (xs s : list string) : NoDup s -> NoDup (set_update s xs).
Proof.
  unfold set_update. revert s. induction xs as [|x xs IH]; intros s Hs; simpl;
    [assumption|].
  apply IH. apply set_add_NoDup. assumption.
Qed.

Lemma set_updates_NoDup (l : list string) (s : list string) :
  NoDup s -> NoDup (fold_left (fun s p => set_update s (_tokenize p)) l s).
Proof.
  revert s. induction l as [|p l IH]; intros s Hs; simpl; [assumption|].
  apply IH. apply set_update_NoDup. assumption.
Qed.

Lemma sorted_strings_increasing (s : list string) :
  NoDup s -> increasing (sorted_strings s).
Proof.
  intros Hs. unfold increasing, sorted_strings.
  assert (Hnd : NoDup (sorted String.ltb (fun x => x) s)).
  { eapply Permutation_NoDup; [|exact Hs]. symmetry. apply sorted_Permutation. }
  assert (Hle := sorted_StronglySorted String.ltb (fun x : string => x)
                   string_ltb_irrefl string_ltb_trans string_ltb_total s).
  induction Hle as [|a l Hl IH Ha]; [constructor|].
  apply NoDup_cons_iff in Hnd. destruct Hnd as [Hnotin Hnd].
  constructor; [apply IH; assumption|].
  rewrite Forall_forall in *. intros b Hb. specialize (Ha b Hb).
  unfold key_le in Ha.
  destruct (string_ltb_total a b) as [H|[H|H]]; [assumption| |congruence].
  subst b. contradiction.
Qed.

Lemma increasing_NoDup (l : list string) : increasing l -> NoDup l.
Proof.
  induction 1 as [|a l Hl IH Ha]; constructor; [|assumption].
  intros Hin. rewrite Forall_forall in Ha. specialize (Ha a Hin).
  rewrite string_ltb_irrefl in Ha. discriminate.
Qed.

(** What a Python [set] iterates first does not matter: two enumerations of
    one set are sorted into the same list. *)
Lemma sorted_strings_order (s s' : list string) :
  NoDup s -> Permutation s s' -> sorted_strings s = sorted_strings s'.
Proof.
  intros Hs Hp. unfold sorted_strings at 1.
  apply (@sorted_of_Permutation _ _ String.ltb (fun x : string => x)
           string_ltb_irrefl string_ltb_trans string_ltb_total).
  - apply sorted_strings_increasing. eapply Permutation_NoDup; eassumption.
  - rewrite Hp. symmetry. apply sorted_Permutation.
Qed.

Lemma pre_put_hook_search_indices (ext : External) (now : datetime)
    (self : Bug.t) (ident : string) :
  id self = Ok ident ->
  increasing (Bug.search_indices (entity (_pre_put_hook ext now self))).
Proof.
  intros Hid. unfold _pre_put_hook. rewrite Hid.
  assert (Hs : increasing (Bug.search_indices (derive ext now self ident))).
  { simpl. apply sorted_strings_increasing.
    destruct (Bug.affected_packages self).
    - apply set_update_NoDup. constructor.
    - do 2 apply set_updates_NoDup. apply set_update_NoDup. constructor. }
  destruct (validate_entity ext (derive ext now self ident)) as [-> | [k ->]];
    exact Hs.
Qed.

(** ** A second run of the derivation pass *)

Section Idempotence.
Variable ext : External.

Lemma derive_derive (now now' : datetime) (self : Bug.t) (ident : string) :
  derive ext now' (derive ext now self ident) ident = derive ext now self ident.
Proof.
  destruct self as [db_id aliases related timestamp last_modified withdrawn
                    source_id affected_fuzzy purl project ecosystem summary
                    details severity search_indices has_affected is_fixed
                    semver_fixed_indexes pkgs source key].
  unfold derive. simpl.
  destruct pkgs; destruct last_modified; destruct (truthy source_id);
    reflexivity.
Qed.

Lemma derive_set_key (now : datetime) (self : Bug.t) (ident k : string) :
  derive ext now (Bug.set_key self k) ident =
  Bug.set_key (derive ext now self ident) k.
Proof. reflexivity. Qed.

Lemma id_derive (now : datetime) (self : Bug.t) (ident : string) :
  id (derive ext now self ident) = id self.
Proof. reflexivity. Qed.

Lemma validate_validate (self : Bug.t) :
  validate ext (entity (validate ext self)) =
  match validate ext self with
  | Done self' => Done self'
  | Raised e self' => Raised e self'
  end.
Proof.
  unfold validate.
  destruct (truthy (Bug.source self)) eqn:Hs; simpl; [|rewrite Hs; reflexivity].
  destruct (truthy (Bug.db_id self)) eqn:Hd; simpl;
    [|rewrite Hs, Hd; reflexivity].
  destruct (Bug.key self) as [k|] eqn:Hk; simpl.
  - rewrite Hs, Hd, Hk. reflexivity.
  - destruct (get_source_repository ext (Bug.source self)) eqn:Hr; simpl.
    + rewrite Hs, Hd. reflexivity.
    + rewrite Hs, Hd, Hk, Hr. reflexivity.
Qed.

Lemma id_validate (self : Bug.t) (ident : string) :
  id self = Ok ident -> id (entity (validate ext self)) = Ok ident.
Proof.
  intros Hid. unfold validate.
  destruct (negb (truthy (Bug.source self))); [exact Hid|].
  destruct (truthy (Bug.db_id self)) eqn:Hd; simpl; [|exact Hid].
  destruct (Bug.key self); [exact Hid|].
  destruct (get_source_repository ext (Bug.source self)); [|exact Hid].
  simpl. unfold id in *. simpl. rewrite Hd in *. exact Hid.
Qed.

(** The pass, run on the entity that a first run has left, ends the same
    way and leaves the entity as it is. *)
Lemma pre_put_hook_again (now now' : datetime) (self : Bug.t) :
  _pre_put_hook ext now' (entity (_pre_put_hook ext now self)) =
  match _pre_put_hook ext now self with
  | Done self' => Done self'
  | Raised e self' => Raised e self'
  end.
Proof.
  unfold _pre_put_hook at 2 3.
  destruct (id self) as [ident|e] eqn:Hid; simpl.
  - unfold _pre_put_hook.
    rewrite (id_validate (derive ext now self ident) (ident := ident))
      by (rewrite id_derive; exact Hid).
    destruct (validate_entity ext (derive ext now self ident)) as [He | [k He]].
    + rewrite He at 1. rewrite derive_derive. rewrite <- He at 1.
      apply validate_validate.
    + rewrite He at 1. rewrite derive_set_key, derive_derive.
      rewrite <- He. apply validate_validate.
  - unfold _pre_put_hook. rewrite Hid. reflexivity.
Qed.
End Idempotence.

(** C6. A second run of the derivation pass on the entity that a first run
    has left changes nothing: it ends as the first run did and every field,
    the derived ones among them, keeps its value. After a pass that is
    beyond the lookup of the identifier [search_indices] is strictly
    increasing, so sorted and without repetition. [last_modified] keeps the
    value that it had, and is the current time only when it had none. *)
Theorem derivation_idempotent (ext : External) (now now' : datetime)
    (self : Bug.t) :
  let once := _pre_put_hook ext now self in
  let twice := _pre_put_hook ext now' (entity once) in
  entity twice = entity once /\
  (Bug.search_indices (entity twice), Bug.affected_fuzzy (entity twice),
   Bug.semver_fixed_indexes (entity twice), Bug.has_affected (entity twice),
   Bug.is_fixed (entity twice)) =
  (Bug.search_indices (entity once), Bug.affected_fuzzy (entity once),
   Bug.semver_fixed_indexes (entity once), Bug.has_affected (entity once),
   Bug.is_fixed (entity once)) /\
  (forall self1, once = Done self1 -> twice = Done self1) /\
  (forall ident, id self = Ok ident ->
     increasing (Bug.search_indices (entity once)) /\
     NoDup (Bug.search_indices (entity once))) /\
  (forall t, Bug.last_modified self = Some t ->
     Bug.last_modified (entity once) = Some t) /\
  (forall ident, id self = Ok ident -> Bug.last_modified self = None ->
     Bug.last_modified (entity once) = Some now).
Proof.
  intros once twice.
  assert (Hagain := pre_put_hook_again ext now now' self).
  fold once in Hagain. fold twice in Hagain.
  assert (Hentity : entity twice = entity once).
  { rewrite Hagain. destruct once; reflexivity. }
  split; [exact Hentity|]. split; [rewrite Hentity; reflexivity|].
  split; [|split; [|split]].
  - intros self1 H1. rewrite Hagain, H1. reflexivity.
  - intros ident Hid.
    assert (Hs := pre_put_hook_search_indices ext now self Hid).
    split; [exact Hs | apply increasing_NoDup; exact Hs].
  - intros t Ht. unfold once, _pre_put_hook.
    destruct (id self) as [ident|e]; [|exact Ht].
    destruct (validate_entity ext (derive ext now self ident)) as [-> | [k ->]];
      simpl; rewrite Ht; reflexivity.
  - intros ident Hid Hnone. unfold once, _pre_put_hook. rewrite Hid.
    destruct (validate_entity ext (derive ext now self ident)) as [-> | [k ->]];
      simpl; rewrite Hnone; reflexivity.
Qed.

Lemma derivation_idempotent_witness :
  let self :=
    new_bug "GHSA-1234" "ghsa:left-pad/GHSA-1234.yaml" "" None
      [AffectedPackage.mk (Package.mk "npm" "left-pad" "")
         [AffectedRange2.mk "SEMVER" None
            [AffectedEvent.mk "introduced" "0"; AffectedEvent.mk "fixed" "1.3.0"]]
         ["1.2.0"]] in
  Bug.search_indices (entity (_pre_put_hook sample_external 7%N self)) =
    ["1234"; "ghsa"; "ghsa-1234"; "left"; "left-pad"; "npm"; "pad"] /\
  increasing (Bug.search_indices (entity (_pre_put_hook sample_external 7%N self))) /\
  Bug.last_modified (entity (_pre_put_hook sample_external 7%N self)) = Some 7%N /\
  Bug.last_modified
    (entity (_pre_put_hook sample_external 9%N
               (entity (_pre_put_hook sample_external 7%N self)))) = Some 7%N.
Proof.
  intros self.
  destruct (derivation_idempotent sample_external 7%N 9%N self)
    as [Hsame [_ [_ [Hsorted [_ Hnow]]]]].
  destruct (Hsorted "GHSA-1234" eq_refl) as [Hinc _].
  split; [reflexivity|]. split; [exact Hinc|].
  split; [exact (Hnow "GHSA-1234" eq_refl eq_refl)|].
  rewrite Hsame. exact (Hnow "GHSA-1234" eq_refl eq_refl).
Defined.

(** ** Validation *)

Lemma existsb_eqb_false (v : string) (l : list string) :
  ~ In v l -> existsb (String.eqb v) l = false.
Proof.
  intros H. destruct (existsb (String.eqb v) l) eqn:E; [|reflexivity].
  apply existsb_exists in E. destruct E as [x [Hx Heq]].
  apply String.eqb_eq in Heq. subst x. contradiction.
Qed.

(** C7 (as amended). A severity outside LOW, MEDIUM, HIGH, CRITICAL, a range
    type outside GIT, SEMVER, ECOSYSTEM and an event type outside introduced,
    fixed, limit are refused, with a [ValueError], when the value is assigned
    to the property. The derivation pass checks the source and the
    identifier: a record without source (once [source_id] is parsed) and
    with an identifier raises "Source not specified for Bug."; a record with
    a source and without identifier raises another error, "DB ID not
    specified for Bug." when the entity has a key and an [AttributeError]
    from the lookup of the identifier when it has none. *)
Theorem validation (ext : External) (now : datetime) :
  (forall self v,
      ~ In v ["LOW"; "MEDIUM"; "HIGH"; "CRITICAL"] ->
      Bug.set_severity self (Some v) =
      Raise (ValueError ("Invalid severity: " ++ v)%string)) /\
  (forall ty events,
      ~ In ty ["GIT"; "SEMVER"; "ECOSYSTEM"] ->
      AffectedRange2.new ty events =
      Raise (ValueError ("Invalid range type: " ++ ty)%string)) /\
  (forall ty v,
      ~ In ty ["introduced"; "fixed"; "limit"] ->
      AffectedEvent.new ty v =
      Raise (ValueError ("Invalid event type: " ++ ty)%string)) /\
  (forall self,
      provenance ext self = "" -> Bug.db_id self <> "" ->
      exists self',
        _pre_put_hook ext now self =
        Raised (ValueError "Source not specified for Bug.") self') /\
  (forall self,
      provenance ext self <> "" -> Bug.db_id self = "" ->
      exists e self',
        _pre_put_hook ext now self = Raised e self' /\
        e <> ValueError "Source not specified for Bug." /\
        (Bug.key self <> None -> e = ValueError "DB ID not specified for Bug.") /\
        (Bug.key self = None -> exists msg, e = AttributeError msg)).
Proof.
  split; [|split; [|split; [|split]]].
  - intros self v Hv. unfold Bug.set_severity, _check_valid_severity.
    rewrite existsb_eqb_false by assumption. reflexivity.
  - intros ty events Hty. unfold AffectedRange2.new, _check_valid_range_type.
    rewrite existsb_eqb_false by assumption. reflexivity.
  - intros ty v Hty. unfold AffectedEvent.new, _check_valid_event_type.
    rewrite existsb_eqb_false by assumption. reflexivity.
  - intros self Hsrc Hdb. unfold _pre_put_hook, id.
    apply truthy_true in Hdb. rewrite Hdb. unfold validate.
    change (Bug.source (derive ext now self (Bug.db_id self)))
      with (provenance ext self).
    rewrite Hsrc. simpl. eexists. reflexivity.
  - intros self Hsrc Hdb. unfold _pre_put_hook, id.
    rewrite Hdb. simpl. destruct (Bug.key self) as [k|] eqn:Hk.
    + assert (Hv : forall ident,
                validate ext (derive ext now self ident) =
                Raised (ValueError "DB ID not specified for Bug.")
                       (derive ext now self ident)).
      { intros ident. unfold validate.
        change (Bug.source (derive ext now self ident))
          with (provenance ext self).
        apply truthy_true in Hsrc. rewrite Hsrc. simpl.
        rewrite Hdb. reflexivity. }
      destruct (starts_with_digits k); rewrite Hv; do 2 eexists;
        (split; [reflexivity|]); (split; [discriminate|]);
        (split; [reflexivity | discriminate]).
    + do 2 eexists. split; [reflexivity|]. split; [discriminate|].
      split; [congruence | eexists; reflexivity].
Qed.

Lemma validation_witness :
  Bug.set_severity (new_bug "GHSA-1234" "" "ghsa" None []) (Some "SEVERE") =
    Raise (ValueError "Invalid severity: SEVERE") /\
  (exists self',
     _pre_put_hook sample_external 7%N (new_bug "GHSA-1234" "" "" None []) =
     Raised (ValueError "Source not specified for Bug.") self') /\
  (exists self',
     _pre_put_hook sample_external 7%N (new_bug "" "" "ghsa" (Some "k") []) =
     Raised (ValueError "DB ID not specified for Bug.") self').
Proof.
  destruct (validation sample_external 7%N) as [Hsev [_ [_ [Hsrc Hid]]]].
  split; [|split].
  - apply Hsev. simpl. intuition discriminate.
  - apply Hsrc; [reflexivity | discriminate].
  - destruct (Hid (new_bug "" "" "ghsa" (Some "k") [])) as [e [self' [Hr [_ [Hk _]]]]].
    + discriminate.
    + reflexivity.
    + exists self'. rewrite Hr. rewrite Hk by discriminate. reflexivity.
Defined.

(** The claim C7 as it is worded fails: the derivation pass does not look at
    the severity, at the types of the ranges or at the types of the events.
    An entity that holds values which the validators refuse goes through
    it. *)
Lemma validation_counterexample :
  let self :=
    Bug.mk "GHSA-1234" [] [] None None None "" [] [] [] [] "" ""
      (Some "SEVERE") [] false false []
      [AffectedPackage.mk (Package.mk "npm" "left-pad" "")
         [AffectedRange2.mk "BOGUS" None [AffectedEvent.mk "bogus" "1.0.0"]] []]
      "ghsa" (Some "GHSA-1234") in
  (exists e, _check_valid_severity "SEVERE" = Raise e) /\
  (exists e, _check_valid_range_type "BOGUS" = Raise e) /\
  (exists e, _check_valid_event_type "bogus" = Raise e) /\
  exists self', _pre_put_hook sample_external 7%N self = Done self' /\
                Bug.severity self' = Some "SEVERE".
Proof.
  simpl. repeat split; eexists; try reflexivity.
  split; reflexivity.
Qed.

(** ** The round trip *)

Lemma bounds_of_value (pair : AffectedRange.t) :
  bounded pair ->
  (if (if AffectedRange.introduced pair =? "" then "0"
       else AffectedRange.introduced pair) =? "0"
   then "" else
     if AffectedRange.introduced pair =? "" then "0"
     else AffectedRange.introduced pair) = AffectedRange.introduced pair.
Proof.
  intros [Hz _]. destruct (String.eqb_spec (AffectedRange.introduced pair) "") as [->|Hne].
  - reflexivity.
  - destruct (String.eqb_spec (AffectedRange.introduced pair) "0"); [contradiction|].
    reflexivity.
Qed.

Section Cursor.
Variables (range_type : string) (fresh : AffectedRange.t).
Hypothesis fresh_introduced : AffectedRange.introduced fresh = "".
Hypothesis fresh_fixed : AffectedRange.fixed fresh = "".

Lemma of_range_eq (pair : AffectedRange.t) :
  of_range fresh pair ->
  AffectedRange.mk (AffectedRange.type fresh) (AffectedRange.repo fresh)
    (AffectedRange.introduced pair) (AffectedRange.fixed pair) = pair.
Proof. destruct pair. intros [H1 H2]. simpl in *. subst. reflexivity. Qed.

(** What the cursor does with the introduced event of a pair. *)
Lemma pair_event_introduced (out : list AffectedRange.t)
    (cur_range pair : AffectedRange.t) :
  bounded pair ->
  cur_range = fresh \/
  (range_type = "GIT" /\ AffectedRange.introduced cur_range <> "") ->
  pair_event range_type fresh (out, cur_range) (hd (AffectedEvent.mk "" "") (bounds_of pair)) =
  (out ++ pending cur_range,
   AffectedRange.set_introduced fresh (AffectedRange.introduced pair)).
Proof.
  intros Hb Hcur. unfold pair_event, bounds_of, pending. simpl.
  rewrite (bounds_of_value Hb).
  destruct Hcur as [->|[-> Hopen]].
  - repeat (rewrite fresh_introduced; simpl). rewrite app_nil_r. reflexivity.
  - apply truthy_true in Hopen. rewrite Hopen. simpl.
    repeat (rewrite fresh_introduced; simpl). reflexivity.
Qed.

Lemma pair_event_fixed (out : list AffectedRange.t) (pair : AffectedRange.t) :
  of_range fresh pair ->
  pair_event range_type fresh
    (out, AffectedRange.set_introduced fresh (AffectedRange.introduced pair))
    (AffectedEvent.mk "fixed" (AffectedRange.fixed pair)) =
  (out ++ [pair], fresh).
Proof.
  intros Hp. unfold pair_event. simpl.
  unfold AffectedRange.set_fixed. simpl. rewrite (of_range_eq Hp).
  reflexivity.
Qed.

(** What the cursor does with the events of a pair. *)
Lemma pair_event_bounds (out : list AffectedRange.t)
    (cur_range pair : AffectedRange.t) :
  of_range fresh pair -> bounded pair ->
  cur_range = fresh \/
  (range_type = "GIT" /\ AffectedRange.introduced cur_range <> "") ->
  fold_left (pair_event range_type fresh) (bounds_of pair) (out, cur_range) =
  if AffectedRange.fixed pair =? ""
  then (out ++ pending cur_range, pair)
  else ((out ++ pending cur_range) ++ [pair], fresh).
Proof.
  intros Hof Hb Hcur.
  assert (Hstep := pair_event_introduced out Hb Hcur).
  unfold bounds_of in *. simpl in Hstep. simpl fold_left at 1.
  destruct (String.eqb_spec (AffectedRange.fixed pair) "") as [Hf|Hf];
    simpl; rewrite Hstep.
  - f_equal. rewrite <- (of_range_eq Hof) at 2. rewrite Hf, <- fresh_fixed.
    reflexivity.
  - apply (pair_event_fixed _ Hof).
Qed.

(** The cursor gives back the pairs whose bounds it reads. *)
Lemma cursor_pairs (pairs : list AffectedRange.t) :
  Forall (fun pair => of_range fresh pair /\ bounded pair) pairs ->
  range_type = "GIT" \/ last_open pairs ->
  forall out cur_range,
    cur_range = fresh \/
    (AffectedRange.introduced cur_range <> "" /\
     (range_type = "GIT" \/ pairs = [])) ->
    close_range
      (fold_left (pair_event range_type fresh) (flat_map bounds_of pairs)
                 (out, cur_range)) =
    out ++ pending cur_range ++ pairs.
Proof.
  induction 1 as [|pair pairs [Hof Hb] Hall IH]; intros Hlast out cur Hcur.
  - simpl. unfold pending. rewrite app_nil_r.
    destruct (truthy (AffectedRange.introduced cur)); [reflexivity|].
    rewrite app_nil_r. reflexivity.
  - assert (Hcur' : cur = fresh \/
                    (range_type = "GIT" /\ AffectedRange.introduced cur <> "")).
    { destruct Hcur as [H|[Hopen [H|H]]]; auto. discriminate. }
    assert (Hlast' : range_type = "GIT" \/ last_open pairs).
    { destruct Hlast as [H|[_ H]]; auto. }
    change (flat_map bounds_of (pair :: pairs))
      with (bounds_of pair ++ flat_map bounds_of pairs).
    rewrite fold_left_app, (pair_event_bounds out Hof Hb Hcur').
    destruct (String.eqb_spec (AffectedRange.fixed pair) "") as [Hf|Hf].
    + assert (Hi : AffectedRange.introduced pair <> "").
      { intros Hi. destruct Hb as [_ Hb]. apply (Hb Hi). assumption. }
      rewrite IH.
      * unfold pending at 2. apply truthy_true in Hi. rewrite Hi.
        rewrite <- app_assoc. reflexivity.
      * assumption.
      * right. split; [assumption|].
        destruct Hlast as [H|[H _]]; [left; assumption | right; auto].
    + rewrite IH by auto. unfold pending at 2.
      rewrite fresh_introduced. simpl. rewrite <- !app_assoc. reflexivity.
Qed.

Lemma pair_events_pairs (pairs out : list AffectedRange.t) :
  Forall (fun pair => of_range fresh pair /\ bounded pair) pairs ->
  range_type = "GIT" \/ last_open pairs ->
  pair_events range_type fresh out (flat_map bounds_of pairs) = out ++ pairs.
Proof.
  intros Hall Hlast. unfold pair_events.
  rewrite (cursor_pairs Hall Hlast out (or_introl eq_refl)).
  unfold pending. rewrite fresh_introduced. reflexivity.
Qed.
End Cursor.

Lemma group_In (k : string * string) (pairs : list AffectedRange.t)
    (p : AffectedRange.t) :
  In p (group k pairs) <-> In p pairs /\ range_key p = k.
Proof.
  unfold group. rewrite filter_In.
  destruct (key_eqb_spec (range_key p) k); intuition congruence.
Qed.

Lemma Type_Value_Name (ty : RangeType) : Type_Value (Type_Name ty) = Ok ty.
Proof. destruct ty; reflexivity. Qed.

Lemma Type_Name_inj (a b : RangeType) : Type_Name a = Type_Name b -> a = b.
Proof. destruct a, b; simpl; congruence. Qed.

(** The range that the merge builds for a group is read back with the type
    and the repository of the pairs of the group, when the repository can be
    kept. *)
Lemma new_range_merged (pairs : list AffectedRange.t) (ty : RangeType)
    (repo : string) :
  ty = GIT \/ repo = "" ->
  new_range (merged_range pairs (Type_Name ty, repo)) =
  Ok (AffectedRange.mk ty repo "" "").
Proof.
  intros H. unfold new_range, merged_range. simpl.
  rewrite Type_Value_Name. simpl.
  destruct H as [->| ->]; simpl.
  - destruct (String.eqb_spec repo "") as [->|_]; reflexivity.
  - rewrite andb_false_r. reflexivity.
Qed.

Lemma group_of_range (pairs : list AffectedRange.t) (ty : RangeType)
    (repo : string) (p : AffectedRange.t) :
  In p (group (Type_Name ty, repo) pairs) ->
  of_range (AffectedRange.mk ty repo "" "") p.
Proof.
  intros Hp. apply group_In in Hp. destruct Hp as [_ Hk].
  unfold range_key in Hk. injection Hk as Hty Hrepo.
  apply Type_Name_inj in Hty. split; simpl; assumption.
Qed.

Section Groups.
Variables (ext : External) (ecosystem : string).
Variable pairs : list AffectedRange.t.

(** A GIT group whose merge drops no event is exported as it came. *)
Lemma export_git_group (repo : string) (out : list AffectedRange.t) :
  distinct_bounds (group ("GIT", repo) pairs) ->
  exists affected_range',
    export_range ext ecosystem out (merged_range pairs ("GIT", repo)) =
    Ok (out ++ group ("GIT", repo) pairs, affected_range').
Proof.
  intros [Hb Hnd]. eexists.
  rewrite (@export_range_eq ext ecosystem out _
             (AffectedRange.mk GIT repo "" "")
             (flat_map bounds_of (group ("GIT", repo) pairs))
             (flat_map bounds_of (group ("GIT", repo) pairs))).
  - f_equal. f_equal.
    change (close_range (cursor_after ?t ?f ?o ?e)) with (pair_events t f o e).
    apply pair_events_pairs; try reflexivity.
    + rewrite Forall_forall in *. intros p Hp. split; [|auto].
      apply (@group_of_range pairs GIT repo). assumption.
    + left. reflexivity.
  - apply (@new_range_merged pairs GIT repo). left. reflexivity.
  - simpl. rewrite (first_seen_id event_eqb_spec) by assumption.
    reflexivity.
Qed.
End Groups.

Lemma filter_all_not_zero (l : list AffectedEvent.t) :
  Forall (fun e => is_zero e = false) l ->
  filter not_zero l = l /\ filter is_zero l = [].
Proof.
  induction 1 as [|e l He _ [IH1 IH2]]; simpl; [auto|].
  unfold not_zero at 1. rewrite He. simpl. rewrite IH1, IH2. auto.
Qed.

Lemma Permutation_short (A : Type) (l l' : list A) :
  Permutation l l' -> List.length l <= 1 -> l = l'.
Proof.
  intros Hp Hlen. destruct l as [|a [|b l]]; simpl in Hlen; [| |lia].
  - apply Permutation_nil in Hp. congruence.
  - apply Permutation_length_1_inv in Hp. congruence.
Qed.

Lemma sentinel_first (z : AffectedEvent.t) (l : list AffectedEvent.t) :
  is_zero z = true -> Forall (fun e => is_zero e = false) l ->
  filter not_zero (z :: l) = l /\ filter is_zero (z :: l) = [z] /\
  magic_zero (z :: l) = Some z.
Proof.
  intros Hz Hl. destruct (filter_all_not_zero Hl) as [H1 H2].
  unfold magic_zero. simpl. unfold not_zero at 1. rewrite Hz, H1, H2. simpl.
  auto.
Qed.

Lemma bounds_of_sentinel (p : AffectedRange.t) :
  AffectedRange.introduced p = "" -> AffectedRange.fixed p <> "" ->
  bounds_of p = [AffectedEvent.mk "introduced" "0";
                 AffectedEvent.mk "fixed" (AffectedRange.fixed p)].
Proof.
  intros Hi Hf. unfold bounds_of. rewrite Hi. simpl.
  destruct (String.eqb_spec (AffectedRange.fixed p) ""); [contradiction|].
  reflexivity.
Qed.

Section Chains.
Variable h : EcosystemHelper.

Lemma above_trans (lo : option (key h)) (a b : AffectedEvent.t) :
  above h lo a -> key_lt h (event_key h a) (event_key h b) = true -> above h lo b.
Proof.
  destruct lo as [k|]; simpl; [|trivial].
  intros H1 H2. eapply key_lt_trans; eassumption.
Qed.

Lemma not_zero_value (v : string) (ty : string) :
  v <> "0" -> is_zero (AffectedEvent.mk ty v) = false.
Proof. intros H. unfold is_zero. simpl. apply String.eqb_neq. assumption. Qed.

Lemma chain_events (pairs : list AffectedRange.t) :
  forall lo, chain h lo pairs ->
  Forall (fun e => is_zero e = false /\ above h lo e) (flat_map bounds_of pairs) /\
  rising h (flat_map bounds_of pairs) /\
  Forall bounded pairs /\ last_open pairs.
Proof.
  induction pairs as [|p pairs IH]; intros lo Hc.
  - simpl. repeat split; constructor.
  - simpl in Hc. destruct Hc as [Hi [Hi0 [Hlo Hrest]]].
    assert (Hb : bounded p) by (split; [assumption | contradiction]).
    change (flat_map bounds_of (p :: pairs))
      with (bounds_of p ++ flat_map bounds_of pairs).
    unfold bounds_of.
    destruct (String.eqb_spec (AffectedRange.introduced p) "") as [|_];
      [contradiction|].
    set (intro := AffectedEvent.mk "introduced" (AffectedRange.introduced p)).
    assert (Hintro : is_zero intro = false /\ above h lo intro).
    { split; [apply not_zero_value; assumption|].
      destruct lo; exact Hlo. }
    destruct (String.eqb_spec (AffectedRange.fixed p) "") as [Hf|Hf].
    + subst pairs. simpl. split; [|split; [|split]].
      * constructor; [assumption | constructor].
      * constructor; constructor.
      * constructor; [assumption | constructor].
      * auto.
    + destruct Hrest as [Hf0 [Hlt Hc]].
      destruct (IH _ Hc) as [Hall [Hrise [Hbs Hlast]]].
      set (fixed := AffectedEvent.mk "fixed" (AffectedRange.fixed p)).
      assert (Hfixed : is_zero fixed = false /\ above h lo fixed).
      { split; [apply not_zero_value; assumption|].
        apply (@above_trans lo intro fixed); [apply Hintro | exact Hlt]. }
      simpl. split; [|split; [|split]].
      * constructor; [assumption|]. constructor; [assumption|].
        rewrite Forall_forall in *. intros e He.
        destruct (Hall e He) as [Hz Habove]. split; [assumption|].
        apply (@above_trans lo fixed e); [apply Hfixed | exact Habove].
      * constructor; [constructor; [assumption|]|].
        -- rewrite Forall_forall in *. intros e He. apply (Hall e He).
        -- constructor; [exact Hlt|].
           rewrite Forall_forall in *. intros e He.
           unfold key_before. eapply key_lt_trans; [exact Hlt|].
           apply (Hall e He).
      * constructor; assumption.
      * split; [intros Hempty; contradiction | assumption].
Qed.

Lemma rising_NoDup (l : list AffectedEvent.t) : rising h l -> NoDup l.
Proof.
  induction 1 as [|a l Hl IH Ha]; constructor; [|assumption].
  intros Hin. rewrite Forall_forall in Ha. specialize (Ha a Hin).
  unfold key_before in Ha. rewrite key_lt_irrefl in Ha. discriminate.
Qed.

(** The event stream of ascending pairs: the magic zero, if any, comes
    first, and the other events rise. *)
Lemma ascending_events (pairs : list AffectedRange.t) :
  ascending_pairs h pairs ->
  let events := flat_map bounds_of pairs in
  Forall bounded pairs /\ last_open pairs /\
  rising h (filter not_zero events) /\
  events = match magic_zero events with
           | Some z => z :: filter not_zero events
           | None => filter not_zero events
           end /\
  NoDup events /\ List.length (filter is_zero events) <= 1.
Proof.
  destruct pairs as [|p pairs]; intros Ha events.
  - simpl. split; [constructor|]. split; [exact I|].
    split; [constructor|]. split; [reflexivity|].
    split; [constructor | auto].
  - simpl in Ha. unfold events.
    destruct (String.eqb_spec (AffectedRange.introduced p) "") as [Hi|Hi].
    + destruct Ha as [Hf [Hf0 Hc]].
      destruct (chain_events _ _ Hc) as [Hall [Hrise [Hbs Hlast]]].
      assert (Hz : Forall (fun e => is_zero e = false) (flat_map bounds_of pairs)).
      { eapply Forall_impl; [|exact Hall]. simpl. tauto. }
      change (flat_map bounds_of (p :: pairs))
        with (bounds_of p ++ flat_map bounds_of pairs).
      rewrite (@bounds_of_sentinel p Hi Hf). simpl app.
      assert (Hz' : Forall (fun e => is_zero e = false)
                      (AffectedEvent.mk "fixed" (AffectedRange.fixed p)
                       :: flat_map bounds_of pairs)).
      { constructor; [apply not_zero_value; assumption | assumption]. }
      destruct (@sentinel_first (AffectedEvent.mk "introduced" "0") _ eq_refl Hz')
        as [H1 [H2 H3]].
      rewrite H1, H2, H3.
      assert (Hr : rising h (AffectedEvent.mk "fixed" (AffectedRange.fixed p)
                           :: flat_map bounds_of pairs)).
      { constructor; [assumption|]. eapply Forall_impl; [|exact Hall].
        simpl. intros e [_ He]. exact He. }
      split; [|split; [|split; [|split; [|split]]]].
      * constructor; [|assumption]. split; [rewrite Hi; discriminate | auto].
      * split; [intros; contradiction | assumption].
      * assumption.
      * reflexivity.
      * constructor; [|apply rising_NoDup; assumption].
        intros Hin. rewrite Forall_forall in Hz'. specialize (Hz' _ Hin).
        discriminate.
      * simpl. lia.
    + destruct (@chain_events (p :: pairs) None Ha) as [Hall [Hrise [Hbs Hlast]]].
      assert (Hz : Forall (fun e => is_zero e = false)
                     (flat_map bounds_of (p :: pairs))).
      { eapply Forall_impl; [|exact Hall]. simpl. tauto. }
      destruct (filter_all_not_zero Hz) as [Hnz Hzs].
      unfold magic_zero. rewrite Hnz, Hzs. simpl.
      split; [assumption|]. split; [assumption|]. split; [assumption|].
      split; [reflexivity|]. split; [apply rising_NoDup; assumption | lia].
Qed.
End Chains.

Section RoundTrip.
Variables (ext : External) (ecosystem : string).
Variable pairs : list AffectedRange.t.

(** A SEMVER group that ascends without overlap is exported in ascending
    order. *)
Lemma export_semver_group (ordered out : list AffectedRange.t) :
  Permutation ordered (group ("SEMVER", "") pairs) ->
  ascending_pairs (SemverEcosystem ext) ordered ->
  exists affected_range',
    export_range ext ecosystem out (merged_range pairs ("SEMVER", "")) =
    Ok (out ++ ordered, affected_range').
Proof.
  intros Hp Ha.
  destruct (ascending_events _ _ Ha) as [Hb [Hlast [Hrise [Hshape [Hnd Hlen]]]]].
  set (h := SemverEcosystem ext) in *.
  set (G := group ("SEMVER", "") pairs) in *.
  assert (HpE : Permutation (flat_map bounds_of G) (flat_map bounds_of ordered)).
  { apply Permutation_flat_map. symmetry. assumption. }
  assert (HndG : NoDup (flat_map bounds_of G)).
  { eapply Permutation_NoDup; [symmetry; exact HpE | exact Hnd]. }
  assert (Hzero : magic_zero (flat_map bounds_of G) =
                  magic_zero (flat_map bounds_of ordered)).
  { unfold magic_zero.
    rewrite (@Permutation_short _ (filter is_zero (flat_map bounds_of ordered))
               (filter is_zero (flat_map bounds_of G))); [reflexivity| |assumption].
    apply filter_Permutation. symmetry. assumption. }
  assert (Hsorted : sorted (key_lt h) (event_key h)
                      (filter not_zero (flat_map bounds_of G)) =
                    filter not_zero (flat_map bounds_of ordered)).
  { apply sorted_of_Permutation.
    - apply key_lt_irrefl.
    - apply key_lt_trans.
    - apply key_lt_total.
    - exact Hrise.
    - apply filter_Permutation. assumption. }
  assert (Hevents : sorted_events ext ecosystem "SEMVER" (flat_map bounds_of G) =
                    Ok (flat_map bounds_of ordered,
                        filter not_zero (flat_map bounds_of G))).
  { rewrite (@sorted_events_not_GIT ext ecosystem "SEMVER" _ h)
      by (discriminate || reflexivity).
    rewrite Hzero, Hsorted, <- Hshape. reflexivity. }
  eexists.
  rewrite (@export_range_eq ext ecosystem out _
             (AffectedRange.mk SEMVER "" "" "")
             (flat_map bounds_of ordered)
             (filter not_zero (flat_map bounds_of G))).
  - f_equal. f_equal.
    change (close_range (cursor_after ?t ?f ?o ?e)) with (pair_events t f o e).
    apply pair_events_pairs; try reflexivity.
    + rewrite Forall_forall in *. intros p Hin. split; [|auto].
      apply (@group_of_range pairs SEMVER "").
      eapply Permutation_in; eassumption.
    + right. assumption.
  - apply (@new_range_merged pairs SEMVER ""). right. reflexivity.
  - simpl. fold G. rewrite (first_seen_id event_eqb_spec) by assumption.
    exact Hevents.
Qed.

(** The export of the merged ranges puts the exports of the groups one
    after the other. *)
Lemma export_ranges_groups (ks : list (string * string)) :
  (forall k, In k ks ->
     exists res,
       Permutation res (group k pairs) /\
       forall out, exists affected_range',
         export_range ext ecosystem out (merged_range pairs k) =
         Ok (out ++ res, affected_range')) ->
  forall out,
  exists res done,
    export_ranges ext ecosystem out (map (merged_range pairs) ks) =
      Ok (out ++ res, done) /\
    Permutation res (flat_map (fun k => group k pairs) ks).
Proof.
  induction ks as [|k ks IH]; intros Hks out.
  - exists [], []. simpl. rewrite app_nil_r. split; [reflexivity | constructor].
  - destruct (Hks k (or_introl eq_refl)) as [res1 [Hp1 Hex]].
    destruct (Hex out) as [r' Hr']. clear Hex.
    destruct (IH (fun k' Hk' => Hks k' (or_intror Hk')) (out ++ res1))
      as [res2 [done [Hrest Hp2]]].
    exists (res1 ++ res2), (r' :: done). simpl.
    rewrite Hr'. simpl. rewrite Hrest. simpl. rewrite app_assoc.
    split; [reflexivity|]. apply Permutation_app; assumption.
Qed.
End RoundTrip.

Lemma flat_map_ext_In (A B : Type) (f g : A -> list B) (l : list A) :
  (forall a, In a l -> f a = g a) -> flat_map f l = flat_map g l.
Proof.
  intros H. rewrite !flat_map_concat_map. f_equal. apply map_ext_in. exact H.
Qed.

Lemma group_cons (k : string * string) (p : AffectedRange.t)
    (pairs : list AffectedRange.t) :
  group k (p :: pairs) =
  if key_eqb (range_key p) k then p :: group k pairs else group k pairs.
Proof. reflexivity. Qed.

Lemma flat_map_filter_key (G : string * string -> list AffectedRange.t)
    (k : string * string) (ks : list (string * string)) :
  NoDup ks -> (~ In k ks -> G k = []) ->
  Permutation (G k ++ flat_map G (filter (fun k' => negb (key_eqb k' k)) ks))
              (flat_map G ks).
Proof.
  induction 1 as [|a ks Ha Hnd IH]; intros Hout; simpl.
  - rewrite Hout by tauto. constructor.
  - destruct (key_eqb_spec a k) as [->|Hne]; simpl.
    + replace (filter (fun k' => negb (key_eqb k' k)) ks) with ks; [reflexivity|].
      symmetry. apply forallb_filter_id. apply forallb_forall. intros k' Hk'.
      destruct (key_eqb_spec k' k); [congruence | reflexivity].
    + rewrite Permutation_app_swap_app. apply Permutation_app_head.
      apply IH. intros Hk. apply Hout. intros [H|H]; [congruence | contradiction].
Qed.

(** The groups, in the order in which they are first seen, hold every pair
    once. *)
Lemma groups_Permutation (pairs : list AffectedRange.t) :
  Permutation
    (flat_map (fun k => group k pairs) (first_seen key_eqb (map range_key pairs)))
    pairs.
Proof.
  induction pairs as [|p pairs IH]; [constructor|].
  cbn [map first_seen flat_map].
  rewrite group_cons. destruct (key_eqb_spec (range_key p) (range_key p));
    [|congruence].
  rewrite <- app_comm_cons. constructor.
  rewrite (@flat_map_ext_In _ _
             (fun k => group k (p :: pairs)) (fun k => group k pairs)).
  - eapply perm_trans; [|exact IH].
    apply (@flat_map_filter_key (fun k => group k pairs) (range_key p)).
    + apply (first_seen_NoDup key_eqb_spec).
    + intros Hk. apply group_nil. intros H. apply Hk.
      apply (proj2 (first_seen_In key_eqb_spec _ _)). assumption.
  - intros k Hk. apply filter_In in Hk. destruct Hk as [_ Hk].
    rewrite group_cons. destruct (key_eqb_spec (range_key p) k) as [Heq|_];
      [|reflexivity].
    destruct (key_eqb_spec k (range_key p)); [discriminate | congruence].
Qed.

(** C1 (as amended). Take legacy pairs in which, within every group of one
    type and one repository, either the type is GIT, no introduced bound is
    ["0"], no pair has two empty bounds and no two pairs give an equal event
    (so that the merge drops nothing), or the type is SEMVER, the repository
    is empty and the pairs of the group, put in ascending order, do not
    overlap: every bound is strictly above the one before it, only the first
    pair may have an empty introduced bound, only the last one may lack a
    fixed bound and no bound is ["0"]. Then [update_from_vulnerability]
    followed by [_get_pre_0_8_affects] gives back the same pairs, as a
    multiset. *)
Theorem round_trip (ext : External) (self : Bug.t)
    (vulnerability : Vulnerability.t) :
  let pairs := Affects.ranges (Vulnerability.affects vulnerability) in
  round_trips ext pairs ->
  exists self' affects self'',
    update_from_vulnerability self vulnerability = Ok self' /\
    _get_pre_0_8_affects ext self' = Ok (affects, self'') /\
    Permutation (Affects.ranges affects) pairs.
Proof.
  intros pairs Hrt.
  destruct (update_from_vulnerability_packages self vulnerability)
    as [self' [Hok Hpk]].
  fold pairs in Hpk.
  assert (Hgroups : forall k,
            In k (first_seen key_eqb (map range_key pairs)) ->
            exists res,
              Permutation res (group k pairs) /\
              forall out, exists affected_range',
                export_range ext
                  (Package.ecosystem (Vulnerability.package vulnerability))
                  out (merged_range pairs k) = Ok (out ++ res, affected_range')).
  { intros k Hk. apply (proj1 (first_seen_In key_eqb_spec _ _)) in Hk.
    destruct k as [ty repo].
    destruct (Hrt _ Hk) as [[Hty Hd] | [Hty [Hrepo [ordered [Hp Ha]]]]];
      simpl in Hty; subst ty.
    - exists (group ("GIT", repo) pairs). split; [reflexivity|].
      intros out. apply export_git_group. assumption.
    - simpl in Hrepo. subst repo. exists ordered. split; [assumption|].
      intros out. apply export_semver_group; assumption. }
  destruct (export_ranges_groups ext _ pairs _ Hgroups [])
    as [res [done [Hexp Hperm]]].
  exists self'. unfold _get_pre_0_8_affects. rewrite Hpk.
  unfold merged_ranges. simpl AffectedPackage.ranges.
  simpl AffectedPackage.package. rewrite Hexp. simpl.
  do 2 eexists. split; [exact Hok|]. split; [reflexivity|]. simpl.
  rewrite Hperm. apply groups_Permutation.
Qed.

Lemma round_trip_witness :
  let pairs :=
    [AffectedRange.mk GIT "https://repo" "a" "b";
     AffectedRange.mk SEMVER "" "2.0.0" "3.0.0";
     AffectedRange.mk GIT "https://repo" "c" "";
     AffectedRange.mk SEMVER "" "" "1.0.0"] in
  round_trips sample_external pairs /\
  exists self' affects self'',
    update_from_vulnerability (new_bug "GHSA-1234" "" "ghsa" None [])
      (vulnerability_of pairs) = Ok self' /\
    _get_pre_0_8_affects sample_external self' = Ok (affects, self'') /\
    Permutation (Affects.ranges affects) pairs.
Proof.
  intros pairs.
  assert (Hgit : distinct_bounds (group ("GIT", "https://repo") pairs)).
  { split.
    - repeat constructor; simpl; discriminate.
    - simpl. repeat constructor; simpl; intuition discriminate. }
  assert (Hsemver :
            exists ordered,
              Permutation ordered (group ("SEMVER", "") pairs) /\
              ascending_pairs (SemverEcosystem sample_external) ordered).
  { exists [AffectedRange.mk SEMVER "" "" "1.0.0";
            AffectedRange.mk SEMVER "" "2.0.0" "3.0.0"].
    split; [apply perm_swap|].
    simpl. repeat split; try discriminate; reflexivity. }
  assert (Hrt : round_trips sample_external pairs).
  { intros k Hk. simpl in Hk.
    destruct Hk as [<-|[<-|[<-|[<-|[]]]]]; simpl; auto. }
  split; [exact Hrt|].
  apply (@round_trip sample_external (new_bug "GHSA-1234" "" "ghsa" None [])
           (vulnerability_of pairs) Hrt).
Defined.

(** The claim C1 as it is worded fails. Two GIT pairs with the same
    introduced commit come back with the second introduced bound empty; a
    GIT pair without any bound does not come back; a GIT pair whose
    introduced bound is ["0"] comes back with an empty one; two SEMVER ranges
    that touch, given in descending order, come back with other bounds; a
    SEMVER pair comes back without its repository. *)
Lemma round_trip_counterexample :
  let self := new_bug "GHSA-1234" "" "ghsa" None [] in
  let export pairs :=
    self' <- update_from_vulnerability self (vulnerability_of pairs) ;;
    ' (affects, _) <- _get_pre_0_8_affects sample_external self' ;;
    Ok (Affects.ranges affects) in
  let overlapping :=
    [AffectedRange.mk GIT "https://repo" "a" "b";
     AffectedRange.mk GIT "https://repo" "a" "c"] in
  let unbounded := [AffectedRange.mk GIT "https://repo" "" ""] in
  let zero := [AffectedRange.mk GIT "https://repo" "0" "b"] in
  let touching :=
    [AffectedRange.mk SEMVER "" "2.0.0" "3.0.0";
     AffectedRange.mk SEMVER "" "1.0.0" "2.0.0"] in
  let located := [AffectedRange.mk SEMVER "https://repo" "1.0.0" "2.0.0"] in
  (export overlapping =
     Ok [AffectedRange.mk GIT "https://repo" "a" "b";
         AffectedRange.mk GIT "https://repo" "" "c"] /\
   ~ Permutation [AffectedRange.mk GIT "https://repo" "a" "b";
                  AffectedRange.mk GIT "https://repo" "" "c"] overlapping) /\
  (export unbounded = Ok [] /\ ~ Permutation [] unbounded) /\
  (export zero = Ok [AffectedRange.mk GIT "https://repo" "" "b"] /\
   ~ Permutation [AffectedRange.mk GIT "https://repo" "" "b"] zero) /\
  (export touching =
     Ok [AffectedRange.mk SEMVER "" "1.0.0" "2.0.0";
         AffectedRange.mk SEMVER "" "" "3.0.0"] /\
   ~ Permutation [AffectedRange.mk SEMVER "" "1.0.0" "2.0.0";
                  AffectedRange.mk SEMVER "" "" "3.0.0"] touching) /\
  (export located = Ok [AffectedRange.mk SEMVER "" "1.0.0" "2.0.0"] /\
   ~ Permutation [AffectedRange.mk SEMVER "" "1.0.0" "2.0.0"] located).
Proof.
  intros self export overlapping unbounded zero touching located.
  repeat split; try reflexivity; intros Hp.
  - assert (Hin := Permutation_in (AffectedRange.mk GIT "https://repo" "" "c")
                     Hp (or_intror (or_introl eq_refl))).
    simpl in Hin. intuition discriminate.
  - apply Permutation_nil in Hp. discriminate.
  - apply Permutation_length_1 in Hp. discriminate.
  - assert (Hin := Permutation_in (AffectedRange.mk SEMVER "" "" "3.0.0")
                     Hp (or_intror (or_introl eq_refl))).
    simpl in Hin. intuition discriminate.
  - apply Permutation_length_1 in Hp. discriminate.
Qed.

(** ** Runs on the cases that the specification lists *)

(** GIT overlap: the pairs (a, b) and (c, no fix) of one repository give two
    introduced events in one range, and the export gives both pairs back. *)
Example git_overlap :
  let pairs :=
    [AffectedRange.mk GIT "https://repo" "a" "b";
     AffectedRange.mk GIT "https://repo" "c" ""] in
  merged_ranges pairs =
    [AffectedRange2.mk "GIT" (Some "https://repo")
       [AffectedEvent.mk "introduced" "a"; AffectedEvent.mk "fixed" "b";
        AffectedEvent.mk "introduced" "c"]] /\
  (self' <- update_from_vulnerability (new_bug "GHSA-1234" "" "ghsa" None [])
              (vulnerability_of pairs) ;;
   ' (affects, _) <- _get_pre_0_8_affects sample_external self' ;;
   Ok (Affects.ranges affects)) = Ok pairs.
Proof. split; reflexivity. Qed.

(** Search index: the identifier GHSA-1234, the package left-pad and the
    ecosystem npm. *)
Example search_index :
  Bug.search_indices
    (entity (_pre_put_hook sample_external 7%N
               (one_range_bug "SEMVER" [AffectedEvent.mk "introduced" "1.0.0"]))) =
  ["1234"; "ghsa"; "ghsa-1234"; "left"; "left-pad"; "npm"; "pad"].
Proof. reflexivity. Qed.

(** * Further properties *)

(** ** sorted_events: contents, order of ties, second call *)

Lemma filter_split_Permutation (A : Type) (f : A -> bool) (l : list A) :
  Permutation l (filter f l ++ filter (fun x => negb (f x)) l).
Proof.
  induction l as [|x l IH]; simpl; [constructor|].
  destruct (f x); simpl.
  - constructor. assumption.
  - apply Permutation_cons_app. assumption.
Qed.

Lemma filter_length_split (A : Type) (f : A -> bool) (l : list A) :
  List.length l =
  List.length (filter f l) + List.length (filter (fun x => negb (f x)) l).
Proof.
  rewrite (Permutation_length (filter_split_Permutation f l)) at 1.
  apply length_app.
Qed.

Section SortedAgain.
Variables (A K : Type) (lt : K -> K -> bool) (sortkey : A -> K).

(** Sorting a sorted list changes nothing. *)
Lemma sorted_of_sorted (l : list A) :
  StronglySorted (key_le lt sortkey) l -> sorted lt sortkey l = l.
Proof.
  induction 1 as [|a l Hl IH Ha]; simpl; [reflexivity|].
  rewrite IH. destruct l as [|y l']; simpl; [reflexivity|].
  apply Forall_inv in Ha. unfold key_le in Ha. rewrite Ha. reflexivity.
Qed.

Variable same : A -> bool.
Hypothesis same_not_lt :
  forall a b, same a = true -> same b = true -> lt (sortkey b) (sortkey a) = false.

(** The elements of one class of ties keep their order. *)
Lemma insert_by_filter_same (a : A) (l : list A) :
  filter same (insert_by lt sortkey a l) =
  if same a then a :: filter same l else filter same l.
Proof.
  induction l as [|y l IH]; simpl.
  - destruct (same a); reflexivity.
  - destruct (lt (sortkey y) (sortkey a)) eqn:Hlt; simpl.
    + rewrite IH. destruct (same y) eqn:Hy; destruct (same a) eqn:Ha;
        try reflexivity.
      rewrite (same_not_lt Ha Hy) in Hlt. discriminate.
    + destruct (same a); reflexivity.
Qed.

Lemma sorted_filter_same (l : list A) :
  filter same (sorted lt sortkey l) = filter same l.
Proof.
  induction l as [|a l IH]; simpl; [reflexivity|].
  rewrite insert_by_filter_same, IH. reflexivity.
Qed.
End SortedAgain.

Lemma same_key_eq (h : EcosystemHelper) (a b : AffectedEvent.t) :
  same_key h a b = true -> event_key h a = event_key h b.
Proof.
  unfold same_key. rewrite andb_true_iff, !negb_true_iff. intros [H1 H2].
  destruct (key_lt_total h (event_key h a) (event_key h b)) as [H|[H|H]].
  - rewrite H in H1. discriminate.
  - exact H.
  - rewrite H in H2. discriminate.
Qed.

(** X1. For a range type other than GIT with a comparator, [sorted_events]
    loses nothing but the extra ["0"] events: the events with another value
    are returned once each, the returned list is the input without all but
    one of its ["0"] events, and it is a permutation of the input when the
    input has at most one ["0"] event. *)
Theorem sorted_events_contents (ext : External) (ecosystem range_type : string)
    (events : list AffectedEvent.t) (h : EcosystemHelper) :
  range_type <> "GIT" ->
  ecosystem_helper ext ecosystem range_type = Ok h ->
  exists out events',
    sorted_events ext ecosystem range_type events = Ok (out, events') /\
    Permutation (filter not_zero out) (filter not_zero events) /\
    incl out events /\
    List.length out =
      List.length events - (List.length (filter is_zero events) - 1) /\
    (List.length (filter is_zero events) <= 1 -> Permutation out events).
Proof.
  intros Hgit Hh. do 2 eexists.
  split; [apply sorted_events_not_GIT; eassumption|].
  set (rest := sorted (key_lt h) (event_key h) (filter not_zero events)).
  assert (Hrest : Permutation rest (filter not_zero events))
    by apply sorted_Permutation.
  assert (Hnz : filter not_zero rest = rest).
  { apply filter_all_not_zero. apply Forall_forall. intros e He.
    apply (Permutation_in _ Hrest) in He. apply filter_In in He.
    destruct He as [_ He]. unfold not_zero in He.
    apply negb_true_iff in He. exact He. }
  assert (Hlen := filter_length_split is_zero events).
  fold not_zero in Hlen.
  change (fun x => negb (is_zero x)) with not_zero in Hlen.
  rewrite <- (Permutation_length Hrest) in Hlen.
  destruct (magic_zero events) as [z|] eqn:Hz.
  - destruct (magic_zero_In _ Hz) as [Hin Hval].
    assert (Hzz : is_zero z = true) by (apply String.eqb_eq; exact Hval).
    assert (Hcount : 1 <= List.length (filter is_zero events)).
    { assert (H : In z (filter is_zero events))
        by (apply filter_In; split; assumption).
      destruct (filter is_zero events); [contradiction | simpl; lia]. }
    split; [|split; [|split]].
    + simpl. unfold not_zero at 1. rewrite Hzz. simpl. rewrite Hnz. exact Hrest.
    + intros e [<-|He]; [assumption|].
      apply (Permutation_in _ Hrest) in He. apply filter_In in He. tauto.
    + simpl. lia.
    + intros Hone. unfold magic_zero in Hz.
      destruct (filter is_zero events) as [|z' [|z'' l]] eqn:Hf;
        simpl in Hz, Hone; [discriminate| |lia].
      injection Hz as <-.
      rewrite (filter_split_Permutation is_zero events), Hf. simpl.
      constructor. exact Hrest.
  - assert (Hf := magic_zero_None _ Hz).
    split; [|split; [|split]].
    + rewrite Hnz. exact Hrest.
    + intros e He. apply (Permutation_in _ Hrest) in He.
      apply filter_In in He. tauto.
    + rewrite Hf in *. simpl in *. lia.
    + intros _. rewrite (filter_split_Permutation is_zero events), Hf.
      simpl. exact Hrest.
Qed.

Lemma sorted_events_contents_witness :
  exists out events',
    sorted_events sample_external "npm" "SEMVER"
      [AffectedEvent.mk "fixed" "2.0.0"; AffectedEvent.mk "introduced" "0";
       AffectedEvent.mk "introduced" "1.5.0"] = Ok (out, events') /\
    Permutation out
      [AffectedEvent.mk "fixed" "2.0.0"; AffectedEvent.mk "introduced" "0";
       AffectedEvent.mk "introduced" "1.5.0"].
Proof.
  destruct (@sorted_events_contents sample_external "npm" "SEMVER"
              [AffectedEvent.mk "fixed" "2.0.0"; AffectedEvent.mk "introduced" "0";
               AffectedEvent.mk "introduced" "1.5.0"] NumericSemver.helper)
    as [out [events' [Heq [_ [_ [_ Hperm]]]]]].
  - discriminate.
  - reflexivity.
  - exists out, events'. split; [exact Heq|]. apply Hperm. simpl. lia.
Defined.

(** X2. The sort of [sorted_events] is stable: among the events whose value
    is not ["0"], those that have the same sort key as a given event come
    back in the order of the input. *)
Theorem sorted_events_stable (ext : External) (ecosystem range_type : string)
    (events : list AffectedEvent.t) (h : EcosystemHelper) :
  range_type <> "GIT" ->
  ecosystem_helper ext ecosystem range_type = Ok h ->
  exists out events',
    sorted_events ext ecosystem range_type events = Ok (out, events') /\
    forall e,
      filter (same_key h e) (filter not_zero out) =
      filter (same_key h e) (filter not_zero events).
Proof.
  intros Hgit Hh. do 2 eexists.
  split; [apply sorted_events_not_GIT; eassumption|].
  intros e.
  set (rest := sorted (key_lt h) (event_key h) (filter not_zero events)).
  assert (Hnz : filter not_zero rest = rest).
  { apply filter_all_not_zero. apply Forall_forall. intros x Hx.
    apply (Permutation_in _ (sorted_Permutation _ _ _)) in Hx.
    apply filter_In in Hx. destruct Hx as [_ Hx]. unfold not_zero in Hx.
    apply negb_true_iff in Hx. exact Hx. }
  assert (Hsame : filter (same_key h e) rest =
                  filter (same_key h e) (filter not_zero events)).
  { apply sorted_filter_same. intros a b Ha Hb.
    apply same_key_eq in Ha, Hb. unfold event_key in *.
    rewrite <- Ha, <- Hb. apply key_lt_irrefl. }
  destruct (magic_zero events) as [z|] eqn:Hz.
  - destruct (magic_zero_In _ Hz) as [_ Hval].
    simpl. unfold not_zero at 1. unfold is_zero. rewrite Hval. simpl.
    fold rest. rewrite Hnz. exact Hsame.
  - fold rest. rewrite Hnz. exact Hsame.
Qed.

Lemma sorted_events_stable_witness :
  exists out events',
    sorted_events sample_external "npm" "SEMVER"
      [AffectedEvent.mk "introduced" "2.0.0"; AffectedEvent.mk "fixed" "3.0.0";
       AffectedEvent.mk "introduced" "1.0.0"; AffectedEvent.mk "fixed" "2.0.0"]
      = Ok (out, events') /\
    filter (same_key NumericSemver.helper (AffectedEvent.mk "fixed" "2.0.0")) out =
    [AffectedEvent.mk "introduced" "2.0.0"; AffectedEvent.mk "fixed" "2.0.0"].
Proof.
  destruct (@sorted_events_stable sample_external "npm" "SEMVER"
              [AffectedEvent.mk "introduced" "2.0.0";
               AffectedEvent.mk "fixed" "3.0.0";
               AffectedEvent.mk "introduced" "1.0.0";
               AffectedEvent.mk "fixed" "2.0.0"] NumericSemver.helper)
    as [out [events' [Heq Hsame]]].
  - discriminate.
  - reflexivity.
  - exists out, events'. split; [exact Heq|].
    assert (Hout : out = filter not_zero out).
    { assert (H : Ok (out, events') =
                  Ok ([AffectedEvent.mk "introduced" "1.0.0";
                       AffectedEvent.mk "introduced" "2.0.0";
                       AffectedEvent.mk "fixed" "2.0.0";
                       AffectedEvent.mk "fixed" "3.0.0"],
                      [AffectedEvent.mk "introduced" "2.0.0";
                       AffectedEvent.mk "fixed" "3.0.0";
                       AffectedEvent.mk "introduced" "1.0.0";
                       AffectedEvent.mk "fixed" "2.0.0"]))
        by (rewrite <- Heq; reflexivity).
      injection H as -> _. reflexivity. }
    rewrite Hout, Hsame. reflexivity.
Defined.

(** X3. A second call changes nothing: [sorted_events], given the list that
    it has returned, returns that list. *)
Theorem sorted_events_again (ext : External) (ecosystem range_type : string)
    (events out events' : list AffectedEvent.t) :
  sorted_events ext ecosystem range_type events = Ok (out, events') ->
  exists events'',
    sorted_events ext ecosystem range_type out = Ok (out, events'').
Proof.
  intros Hfirst. destruct (String.eqb_spec range_type "GIT") as [->|Hgit].
  - eexists. apply sorted_events_GIT.
  - destruct (ecosystem_helper ext ecosystem range_type) as [h|e] eqn:Hh.
    + rewrite (sorted_events_not_GIT ext ecosystem events Hgit Hh) in Hfirst.
      injection Hfirst as Hout _. eexists.
      rewrite (sorted_events_not_GIT ext ecosystem out Hgit Hh).
      set (rest := sorted (key_lt h) (event_key h) (filter not_zero events)) in *.
      assert (Hz : Forall (fun e => is_zero e = false) rest).
      { apply Forall_forall. intros x Hx.
        apply (Permutation_in _ (sorted_Permutation _ _ _)) in Hx.
        apply filter_In in Hx. destruct Hx as [_ Hx]. unfold not_zero in Hx.
        apply negb_true_iff in Hx. exact Hx. }
      assert (Hsorted : sorted (key_lt h) (event_key h) rest = rest).
      { apply sorted_of_sorted. apply (sorted_ascending h). }
      destruct (magic_zero events) as [z|] eqn:Hmz; subst out.
      * destruct (magic_zero_In _ Hmz) as [_ Hval].
        assert (Hzz : is_zero z = true) by (apply String.eqb_eq; exact Hval).
        destruct (sentinel_first z Hzz Hz) as [H1 [_ H3]].
        rewrite H3, H1, Hsorted. reflexivity.
      * destruct (filter_all_not_zero Hz) as [H1 H2].
        unfold magic_zero. rewrite H2, H1, Hsorted. reflexivity.
    + unfold sorted_events in Hfirst.
      destruct (String.eqb_spec range_type "GIT"); [contradiction|].
      rewrite Hh in Hfirst. discriminate.
Qed.

Lemma sorted_events_again_witness :
  exists events'',
    sorted_events sample_external "npm" "SEMVER"
      [AffectedEvent.mk "introduced" "0"; AffectedEvent.mk "introduced" "1.5.0";
       AffectedEvent.mk "fixed" "2.0.0"] =
    Ok ([AffectedEvent.mk "introduced" "0"; AffectedEvent.mk "introduced" "1.5.0";
         AffectedEvent.mk "fixed" "2.0.0"], events'').
Proof.
  apply (@sorted_events_again sample_external "npm" "SEMVER"
           [AffectedEvent.mk "fixed" "2.0.0"; AffectedEvent.mk "introduced" "0";
            AffectedEvent.mk "introduced" "1.5.0"] _
           [AffectedEvent.mk "fixed" "2.0.0"; AffectedEvent.mk "introduced" "1.5.0"]).
  reflexivity.
Defined.

(** ** The export, range by range *)

Lemma pair_event_prefix (range_type : string) (fresh : AffectedRange.t)
    (ranges : list AffectedRange.t) (cur_range : AffectedRange.t)
    (event : AffectedEvent.t) :
  pair_event range_type fresh (ranges, cur_range) event =
  (ranges ++ fst (pair_event range_type fresh ([], cur_range) event),
   snd (pair_event range_type fresh ([], cur_range) event)).
Proof.
  unfold pair_event.
  destruct (AffectedEvent.type event =? "introduced");
    destruct (AffectedEvent.type event =? "fixed");
    destruct (truthy (AffectedRange.introduced cur_range) && (range_type =? "GIT"));
    simpl;
    repeat match goal with
           | |- context [if ?b then _ else _] => destruct b; simpl
           end;
    rewrite ?app_nil_r, <- ?app_assoc; reflexivity.
Qed.

Lemma fold_pair_event_prefix (range_type : string) (fresh : AffectedRange.t)
    (events : list AffectedEvent.t) (ranges : list AffectedRange.t)
    (cur_range : AffectedRange.t) :
  fold_left (pair_event range_type fresh) events (ranges, cur_range) =
  (ranges ++ fst (fold_left (pair_event range_type fresh) events ([], cur_range)),
   snd (fold_left (pair_event range_type fresh) events ([], cur_range))).
Proof.
  revert ranges cur_range.
  induction events as [|e events IH]; intros ranges cur; cbn [fold_left].
  - simpl. rewrite app_nil_r. reflexivity.
  - rewrite pair_event_prefix.
    destruct (pair_event range_type fresh ([], cur) e) as [emitted cur'].
    cbn [fst snd]. rewrite IH. rewrite (IH emitted cur').
    destruct (fold_left (pair_event range_type fresh) events ([], cur'))
      as [more cur''].
    simpl. rewrite app_assoc. reflexivity.
Qed.

Lemma pair_events_prefix (range_type : string) (fresh : AffectedRange.t)
    (ranges : list AffectedRange.t) (events : list AffectedEvent.t) :
  pair_events range_type fresh ranges events =
  ranges ++ pair_events range_type fresh [] events.
Proof.
  unfold pair_events. rewrite fold_pair_event_prefix.
  destruct (fold_left (pair_event range_type fresh) events ([], fresh))
    as [emitted cur].
  unfold close_range. simpl.
  destruct (truthy (AffectedRange.introduced cur)); [|reflexivity].
  rewrite app_assoc. reflexivity.
Qed.

(** What a successful export of one range is made of. *)
Lemma export_range_inv (ext : External) (ecosystem : string)
    (ranges out : list AffectedRange.t) (r r' : AffectedRange2.t) :
  export_range ext ecosystem ranges r = Ok (out, r') ->
  exists fresh events events',
    new_range r = Ok fresh /\
    sorted_events ext ecosystem (AffectedRange2.type r) (AffectedRange2.events r)
      = Ok (events, events') /\
    out = ranges ++ pair_events (AffectedRange2.type r) fresh [] events /\
    r' = AffectedRange2.set_events r events'.
Proof.
  unfold export_range.
  destruct (new_range r) as [fresh|e]; simpl; [|discriminate].
  destruct (sorted_events ext ecosystem (AffectedRange2.type r)
              (AffectedRange2.events r)) as [[events events']|e]; simpl;
    [|discriminate].
  intros [= <- <-]. exists fresh, events, events'.
  repeat split; try reflexivity. apply pair_events_prefix.
Qed.

(** The pairs of a range do not depend on the pairs that came before. *)
Lemma export_range_prefix (ext : External) (ecosystem : string)
    (ranges : list AffectedRange.t) (r : AffectedRange2.t) :
  export_range ext ecosystem ranges r =
  match export_range ext ecosystem [] r with
  | Ok (pairs, r') => Ok (ranges ++ pairs, r')
  | Raise e => Raise e
  end.
Proof.
  unfold export_range.
  destruct (new_range r) as [fresh|e]; simpl; [|reflexivity].
  destruct (sorted_events ext ecosystem (AffectedRange2.type r)
              (AffectedRange2.events r)) as [[events events']|e]; simpl;
    [|reflexivity].
  rewrite pair_events_prefix. reflexivity.
Qed.

(** The export of a list of ranges is the concatenation of the exports of
    the ranges. *)
Lemma export_ranges_inv (ext : External) (ecosystem : string)
    (todo : list AffectedRange2.t) :
  forall ranges out done,
    export_ranges ext ecosystem ranges todo = Ok (out, done) ->
    exists parts,
      Forall2 (fun r part => export_range ext ecosystem [] r = Ok part) todo parts /\
      out = ranges ++ List.concat (map fst parts) /\
      done = map snd parts.
Proof.
  induction todo as [|r todo IH]; intros ranges out done; simpl.
  - intros [= <- <-]. exists []. simpl. rewrite app_nil_r.
    split; [constructor|]. split; reflexivity.
  - rewrite export_range_prefix.
    destruct (export_range ext ecosystem [] r) as [[pairs r']|e] eqn:Hr; simpl;
      [|discriminate].
    destruct (export_ranges ext ecosystem (ranges ++ pairs) todo)
      as [[out1 done1]|e] eqn:Hrest; simpl; [|discriminate].
    intros [= <- <-]. destruct (IH _ _ _ Hrest) as [parts [Hall [-> ->]]].
    exists ((pairs, r') :: parts). simpl. rewrite app_assoc.
    split; [constructor; assumption|]. split; reflexivity.
Qed.

Lemma export_ranges_of_parts (ext : External) (ecosystem : string)
    (todo : list AffectedRange2.t)
    (parts : list (list AffectedRange.t * AffectedRange2.t)) :
  Forall2 (fun r part => export_range ext ecosystem [] r = Ok part) todo parts ->
  forall ranges,
    export_ranges ext ecosystem ranges todo =
    Ok (ranges ++ List.concat (map fst parts), map snd parts).
Proof.
  induction 1 as [|r [pairs r'] todo parts Hr _ IH]; intros ranges; simpl.
  - rewrite app_nil_r. reflexivity.
  - rewrite export_range_prefix, Hr. simpl. rewrite IH. simpl.
    rewrite app_assoc. reflexivity.
Qed.

Lemma get_pre_0_8_affects_inv (ext : External) (self self' : Bug.t)
    (affects : Affects.t) :
  _get_pre_0_8_affects ext self = Ok (affects, self') ->
  exists pkg others parts,
    Bug.affected_packages self = pkg :: others /\
    Forall2 (fun r part =>
               export_range ext (Package.ecosystem (AffectedPackage.package pkg))
                 [] r = Ok part)
            (AffectedPackage.ranges pkg) parts /\
    affects = Affects.mk (AffectedPackage.versions pkg) (List.concat (map fst parts)) /\
    self' = Bug.set_affected_packages self
              (AffectedPackage.mk (AffectedPackage.package pkg) (map snd parts)
                 (AffectedPackage.versions pkg) :: others).
Proof.
  unfold _get_pre_0_8_affects.
  destruct (Bug.affected_packages self) as [|pkg others]; [discriminate|].
  destruct (export_ranges ext _ [] (AffectedPackage.ranges pkg))
    as [[out done]|e] eqn:Hexp; simpl; [|discriminate].
  intros [= <- <-]. destruct (export_ranges_inv _ _ _ _ Hexp)
    as [parts [Hall [-> ->]]].
  exists pkg, others, parts. repeat split; try reflexivity. assumption.
Qed.

Lemma export_range_error (ext : External) (ecosystem : string)
    (ranges : list AffectedRange.t) (r : AffectedRange2.t) (e : exn) :
  export_range ext ecosystem ranges r = Raise e ->
  (exists msg, e = ValueError msg) \/ (exists name, e = UnknownEcosystem name).
Proof.
  unfold export_range, new_range, Type_Value.
  destruct (AffectedRange2.type r =? "GIT") eqn:Hgit; simpl.
  { unfold sorted_events. rewrite Hgit. simpl. discriminate. }
  assert (Hsorted : forall ty,
            sorted_events ext ecosystem ty (AffectedRange2.events r) = Raise e ->
            exists name, e = UnknownEcosystem name).
  { intros ty. unfold sorted_events, ecosystem_helper.
    destruct (ty =? "GIT"); [discriminate|].
    destruct (ty =? "SEMVER"); simpl.
    - rewrite remove_magic_zeros_all. simpl.
      destruct (magic_zero (AffectedRange2.events r)); discriminate.
    - destruct (ecosystems_get ext ecosystem); simpl.
      + rewrite remove_magic_zeros_all. simpl.
        destruct (magic_zero (AffectedRange2.events r)); discriminate.
      + intros [= <-]. eexists. reflexivity. }
  destruct (AffectedRange2.type r =? "SEMVER"); simpl.
  - destruct (sorted_events _ _ _ _) as [[? ?]|e'] eqn:Hs; simpl;
      [discriminate|].
    intros [= <-]. right. apply (Hsorted _ Hs).
  - destruct (AffectedRange2.type r =? "ECOSYSTEM"); simpl.
    + destruct (sorted_events _ _ _ _) as [[? ?]|e'] eqn:Hs; simpl;
        [discriminate|].
      intros [= <-]. right. apply (Hsorted _ Hs).
    + intros [= <-]. left. eexists. reflexivity.
Qed.

Lemma export_ranges_error (ext : External) (ecosystem : string)
    (todo : list AffectedRange2.t) (e : exn) :
  forall ranges,
    export_ranges ext ecosystem ranges todo = Raise e ->
    (exists msg, e = ValueError msg) \/ (exists name, e = UnknownEcosystem name).
Proof.
  induction todo as [|r todo IH]; intros ranges; simpl; [discriminate|].
  destruct (export_range ext ecosystem ranges r) as [[out r']|e'] eqn:Hr; simpl.
  - destruct (export_ranges ext ecosystem out todo) as [[? ?]|e'] eqn:Hrest;
      simpl; [discriminate|].
    intros [= <-]. apply (IH _ Hrest).
  - intros [= <-]. apply (export_range_error _ _ _ _ Hr).
Qed.

(** X4. The export reads the first affected package only: it raises an
    [IndexError] exactly when the record has no affected package, two
    records with the same first package export the same message, and the
    explicit versions of that package are passed on as they are. *)
Theorem export_first_package (ext : External) :
  (forall self,
      (exists msg, _get_pre_0_8_affects ext self = Raise (IndexError msg)) <->
      Bug.affected_packages self = []) /\
  (forall self1 self2 pkg others1 others2,
      Bug.affected_packages self1 = pkg :: others1 ->
      Bug.affected_packages self2 = pkg :: others2 ->
      exported ext self1 = exported ext self2) /\
  (forall self affects pkg others,
      Bug.affected_packages self = pkg :: others ->
      exported ext self = Ok affects ->
      Affects.versions affects = AffectedPackage.versions pkg).
Proof.
  split; [|split].
  - intros self. split.
    + intros [msg H]. unfold _get_pre_0_8_affects in H.
      destruct (Bug.affected_packages self) as [|pkg others]; [reflexivity|].
      destruct (export_ranges ext _ [] (AffectedPackage.ranges pkg))
        as [[out done]|e] eqn:Hexp; simpl in H; [discriminate|].
      injection H as ->.
      destruct (export_ranges_error _ _ _ _ Hexp) as [[m Hm]|[n Hn]];
        discriminate.
    + intros H. unfold _get_pre_0_8_affects. rewrite H. eexists. reflexivity.
  - intros self1 self2 pkg others1 others2 H1 H2.
    unfold exported, _get_pre_0_8_affects. rewrite H1, H2.
    destruct (export_ranges ext _ [] (AffectedPackage.ranges pkg))
      as [[out done]|e]; reflexivity.
  - intros self affects pkg others Hp.
    unfold exported, _get_pre_0_8_affects. rewrite Hp.
    destruct (export_ranges ext _ [] (AffectedPackage.ranges pkg))
      as [[out done]|e]; simpl; [|discriminate].
    intros [= <-]. reflexivity.
Qed.

Lemma export_first_package_witness :
  exported sample_external
    (new_bug "GHSA-1" "" "ghsa" None
       [AffectedPackage.mk (Package.mk "npm" "a" "")
          [AffectedRange2.mk "GIT" None [AffectedEvent.mk "introduced" "c1"]]
          ["1.0"]]) =
  exported sample_external
    (new_bug "GHSA-2" "" "ghsa" None
       [AffectedPackage.mk (Package.mk "npm" "a" "")
          [AffectedRange2.mk "GIT" None [AffectedEvent.mk "introduced" "c1"]]
          ["1.0"];
        AffectedPackage.mk (Package.mk "PyPI" "b" "") [] ["2.0"]]).
Proof.
  destruct (export_first_package sample_external) as [_ [Hfirst _]].
  eapply Hfirst; reflexivity.
Defined.

(** ** What the cursor emits *)

Section Emitted.
Variables (range_type : string) (fresh : AffectedRange.t).
Hypothesis fresh_introduced : AffectedRange.introduced fresh = "".
Hypothesis fresh_fixed : AffectedRange.fixed fresh = "".

(** The step of the cursor, case by case. *)
Lemma pair_event_cases (cur_range : AffectedRange.t) (event : AffectedEvent.t) :
  pair_event range_type fresh ([], cur_range) event =
  if AffectedEvent.type event =? "introduced" then
    if truthy (AffectedRange.introduced cur_range) then
      if range_type =? "GIT" then
        ([cur_range],
         AffectedRange.set_introduced fresh
           (if AffectedEvent.value event =? "0" then ""
            else AffectedEvent.value event))
      else ([], cur_range)
    else
      ([], AffectedRange.set_introduced cur_range
             (if AffectedEvent.value event =? "0" then ""
              else AffectedEvent.value event))
  else if AffectedEvent.type event =? "fixed" then
    ([AffectedRange.set_fixed cur_range (AffectedEvent.value event)], fresh)
  else ([], cur_range).
Proof.
  unfold pair_event.
  destruct (String.eqb_spec (AffectedEvent.type event) "introduced") as [Hi|Hi].
  - rewrite Hi. simpl.
    destruct (truthy (AffectedRange.introduced cur_range)) eqn:Ht; simpl.
    + destruct (range_type =? "GIT"); simpl.
      * rewrite fresh_introduced. reflexivity.
      * rewrite Ht. reflexivity.
    + rewrite Ht. reflexivity.
  - destruct (AffectedEvent.type event =? "fixed"); reflexivity.
Qed.

Lemma follows_of_range (cur_range : AffectedRange.t) :
  follows fresh cur_range ->
  of_range fresh cur_range /\ AffectedRange.fixed cur_range = "".
Proof.
  unfold follows, of_range. intros H. rewrite H. simpl. auto.
Qed.

Lemma stored_not_zero (v : string) : (if v =? "0" then "" else v) <> "0".
Proof. destruct (String.eqb_spec v "0"); [discriminate | assumption]. Qed.

Lemma pair_event_facts (cur_range : AffectedRange.t) (event : AffectedEvent.t) :
  follows fresh cur_range -> AffectedRange.introduced cur_range <> "0" ->
  let st := pair_event range_type fresh ([], cur_range) event in
  follows fresh (snd st) /\ AffectedRange.introduced (snd st) <> "0" /\
  Forall (emitted_from fresh [event]) (fst st) /\
  fixed_bounds (fst st) =
    (if is_fixed_event event then filter truthy [AffectedEvent.value event]
     else []) /\
  List.length (fst st) + opened (snd st) <=
    opened cur_range + (if is_bound event then 1 else 0) /\
  (range_type <> "GIT" ->
   List.length (fst st) = if is_fixed_event event then 1 else 0).
Proof.
  intros Hfol Hz0. destruct (follows_of_range Hfol) as [Hof Hfx].
  rewrite pair_event_cases. unfold is_fixed_event, is_bound, opened.
  destruct (String.eqb_spec (AffectedEvent.type event) "introduced") as [Hi|Hi].
  - assert (Hnf : (AffectedEvent.type event =? "fixed") = false)
      by (rewrite Hi; reflexivity).
    rewrite Hnf.
    destruct (truthy (AffectedRange.introduced cur_range)) eqn:Ht.
    + destruct (String.eqb_spec range_type "GIT") as [Hg|Hg]; simpl.
      * split; [apply follows_set_introduced|].
        split; [apply stored_not_zero|].
        split; [|split; [|split]].
        -- constructor; [|constructor]. split; [assumption|].
           split; [assumption|]. intros He. apply truthy_true in Ht.
           contradiction.
        -- unfold fixed_bounds. simpl. rewrite Hfx. reflexivity.
        -- match goal with |- context [truthy ?x] => destruct (truthy x) end; lia.
        -- intros H. contradiction.
      * rewrite Ht. split; [assumption|]. split; [assumption|].
        split; [constructor|]. split; [reflexivity|]. split; [lia|].
        reflexivity.
    + simpl. split; [apply follows_set_cur; assumption|].
      split; [apply stored_not_zero|].
      split; [constructor|]. split; [reflexivity|].
      split; [match goal with |- context [truthy ?x] => destruct (truthy x) end; lia | reflexivity].
  - destruct (String.eqb_spec (AffectedEvent.type event) "fixed") as [Hf|Hf];
      simpl.
    + rewrite fresh_introduced. simpl.
      split; [apply follows_fresh; assumption|].
      split; [discriminate|].
      split; [|split; [|split]].
      * constructor; [|constructor]. split; [exact Hof|].
        split; [assumption|]. intros _. exists event.
        split; [left; reflexivity|]. split; [|reflexivity].
        unfold is_fixed_event. rewrite Hf. reflexivity.
      * reflexivity.
      * match goal with |- context [truthy ?x] => destruct (truthy x) end; lia.
      * reflexivity.
    + split; [assumption|]. split; [assumption|].
      split; [constructor|]. split; [reflexivity|].
      split; [lia | reflexivity].
Qed.

Lemma emitted_from_incl (events events' : list AffectedEvent.t)
    (p : AffectedRange.t) :
  incl events events' -> emitted_from fresh events p ->
  emitted_from fresh events' p.
Proof.
  intros Hincl [H1 [H2 H3]]. split; [assumption|]. split; [assumption|].
  intros Hi. destruct (H3 Hi) as [e [He Hrest]]. exists e.
  split; [apply Hincl; assumption | assumption].
Qed.

Lemma fold_pair_event_facts (events : list AffectedEvent.t) :
  forall cur_range,
  follows fresh cur_range -> AffectedRange.introduced cur_range <> "0" ->
  let st := fold_left (pair_event range_type fresh) events ([], cur_range) in
  follows fresh (snd st) /\ AffectedRange.introduced (snd st) <> "0" /\
  Forall (emitted_from fresh events) (fst st) /\
  fixed_bounds (fst st) =
    filter truthy (map AffectedEvent.value (filter is_fixed_event events)) /\
  List.length (fst st) + opened (snd st) <=
    opened cur_range + List.length (filter is_bound events) /\
  (range_type <> "GIT" ->
   List.length (fst st) = List.length (filter is_fixed_event events)).
Proof.
  induction events as [|e events IH]; intros cur Hfol Hz0.
  - simpl. split; [assumption|]. split; [assumption|].
    split; [constructor|]. split; [reflexivity|]. split; [lia | reflexivity].
  - cbn [fold_left].
    destruct (pair_event_facts e Hfol Hz0) as [H1 [H2 [H3 [H4 [H5 H6]]]]].
    destruct (pair_event range_type fresh ([], cur) e) as [em cur'] eqn:Hstep.
    cbn [fst snd] in *.
    rewrite fold_pair_event_prefix.
    destruct (IH cur' H1 H2) as [I1 [I2 [I3 [I4 [I5 I6]]]]].
    destruct (fold_left (pair_event range_type fresh) events ([], cur'))
      as [more cur''].
    cbn [fst snd] in *.
    split; [assumption|]. split; [assumption|]. split; [|split; [|split]].
    + apply Forall_app. split.
      * eapply Forall_impl; [|exact H3]. intros p.
        apply emitted_from_incl. intros x [<-|[]]. left. reflexivity.
      * eapply Forall_impl; [|exact I3]. intros p.
        apply emitted_from_incl. intros x Hx. right. assumption.
    + unfold fixed_bounds in *. rewrite map_app, filter_app, H4, I4. simpl.
      destruct (is_fixed_event e); simpl; [|reflexivity].
      destruct (truthy (AffectedEvent.value e)); reflexivity.
    + rewrite length_app. simpl. destruct (is_bound e); simpl; lia.
    + intros Hg. rewrite length_app, (H6 Hg), (I6 Hg). simpl.
      destruct (is_fixed_event e); reflexivity.
Qed.

(** The pairs of a range, from its sorted events. *)
Lemma pair_events_facts (events : list AffectedEvent.t) :
  let pairs := pair_events range_type fresh [] events in
  Forall (emitted_from fresh events) pairs /\
  fixed_bounds pairs =
    filter truthy (map AffectedEvent.value (filter is_fixed_event events)) /\
  List.length pairs <= List.length (filter is_bound events) /\
  (range_type <> "GIT" ->
   List.length (filter is_fixed_event events) <= List.length pairs <=
   List.length (filter is_fixed_event events) + 1).
Proof.
  unfold pair_events.
  destruct (@fold_pair_event_facts events fresh (@follows_fresh fresh fresh_introduced))
    as [H1 [H2 [H3 [H4 [H5 H6]]]]].
  { rewrite fresh_introduced. discriminate. }
  destruct (fold_left (pair_event range_type fresh) events ([], fresh))
    as [em cur].
  cbn [fst snd] in *. unfold close_range, opened in *.
  rewrite fresh_introduced in H5. simpl in H5.
  destruct (follows_of_range H1) as [Hof Hfx].
  destruct (truthy (AffectedRange.introduced cur)) eqn:Ht.
  - split; [|split; [|split]].
    + apply Forall_app. split; [assumption|]. constructor; [|constructor].
      split; [assumption|]. split; [assumption|].
      intros Hi. apply truthy_true in Ht. contradiction.
    + unfold fixed_bounds in *. rewrite map_app, filter_app, H4. simpl.
      rewrite Hfx. simpl. apply app_nil_r.
    + rewrite length_app. simpl. lia.
    + intros Hg. rewrite length_app, (H6 Hg). simpl. lia.
  - split; [assumption|]. split; [assumption|]. split; [lia|].
    intros Hg. rewrite (H6 Hg). lia.
Qed.
End Emitted.

(** ** What the export gives, for every record *)

Lemma filter_length_In (A : Type) (f : A -> bool) (x : A) (l : list A) :
  In x l -> (if f x then 1 else 0) <= List.length (filter f l).
Proof.
  induction l as [|y l IH]; intros Hin; [contradiction|].
  destruct Hin as [->|Hin]; simpl.
  - destruct (f x); simpl; lia.
  - specialize (IH Hin). destruct (f y); simpl; lia.
Qed.

(** The list that [sorted_events] returns is taken from its argument. *)
Lemma sorted_events_sub (ext : External) (ecosystem range_type : string)
    (events out events' : list AffectedEvent.t) :
  sorted_events ext ecosystem range_type events = Ok (out, events') ->
  incl out events /\
  (forall e, In e events -> is_zero e = false -> In e out) /\
  forall f, List.length (filter f out) <= List.length (filter f events).
Proof.
  intros Hs. destruct (String.eqb_spec range_type "GIT") as [->|Hgit].
  - rewrite sorted_events_GIT in Hs. injection Hs as <- _.
    split; [apply incl_refl|]. split; [auto|]. intros f. lia.
  - destruct (ecosystem_helper ext ecosystem range_type) as [h|e] eqn:Hh.
    + rewrite (sorted_events_not_GIT ext ecosystem events Hgit Hh) in Hs.
      injection Hs as <- _.
      set (rest := sorted (key_lt h) (event_key h) (filter not_zero events)).
      assert (Hrest : Permutation rest (filter not_zero events))
        by apply sorted_Permutation.
      assert (Hlen : forall f,
                List.length (filter f events) =
                List.length (filter f (filter is_zero events)) +
                List.length (filter f rest)).
      { intros f.
        rewrite (Permutation_length
                   (filter_Permutation f (filter_split_Permutation is_zero events))).
        rewrite filter_app, length_app.
        rewrite (Permutation_length (filter_Permutation f Hrest)).
        reflexivity. }
      assert (Hkeep : forall e, In e events -> is_zero e = false -> In e rest).
      { intros e He Hz. apply (Permutation_in _ (Permutation_sym Hrest)).
        apply filter_In. split; [assumption|]. unfold not_zero. rewrite Hz.
        reflexivity. }
      destruct (magic_zero events) as [z|] eqn:Hz.
      * destruct (magic_zero_In _ Hz) as [Hin Hval].
        split; [|split].
        -- intros e [<-|He]; [assumption|].
           apply (Permutation_in _ Hrest) in He. apply filter_In in He. tauto.
        -- intros e He Hnz. right. auto.
        -- intros f. rewrite Hlen. simpl.
           assert (Hz1 : In z (filter is_zero events)).
           { apply filter_In. split; [assumption|]. apply String.eqb_eq.
             assumption. }
           assert (H := filter_length_In f z _ Hz1).
           destruct (f z); simpl; lia.
      * split; [|split].
        -- intros e He. apply (Permutation_in _ Hrest) in He.
           apply filter_In in He. tauto.
        -- assumption.
        -- intros f. rewrite Hlen. lia.
    + unfold sorted_events in Hs.
      destruct (String.eqb_spec range_type "GIT"); [contradiction|].
      rewrite Hh in Hs. discriminate.
Qed.

Lemma Type_Value_inv (s : string) (ty : RangeType) :
  Type_Value s = Ok ty -> s = Type_Name ty.
Proof.
  unfold Type_Value.
  destruct (String.eqb_spec s "GIT") as [->|_]; [intros [= <-]; reflexivity|].
  destruct (String.eqb_spec s "SEMVER") as [->|_];
    [intros [= <-]; reflexivity|].
  destruct (String.eqb_spec s "ECOSYSTEM") as [->|_];
    [intros [= <-]; reflexivity | discriminate].
Qed.

(** The pairs of one range. *)
Lemma export_range_facts (ext : External) (ecosystem : string)
    (r r' : AffectedRange2.t) (pairs : list AffectedRange.t) :
  export_range ext ecosystem [] r = Ok (pairs, r') ->
  exists fresh events events',
    new_range r = Ok fresh /\
    sorted_events ext ecosystem (AffectedRange2.type r) (AffectedRange2.events r)
      = Ok (events, events') /\
    Forall (emitted_from fresh (AffectedRange2.events r)) pairs /\
    fixed_bounds pairs =
      filter truthy (map AffectedEvent.value (filter is_fixed_event events)) /\
    List.length pairs <=
      List.length (filter is_bound (AffectedRange2.events r)) /\
    (AffectedRange2.type r <> "GIT" ->
     List.length pairs <=
     List.length (filter is_fixed_event (AffectedRange2.events r)) + 1).
Proof.
  intros Hexp. destruct (export_range_inv _ _ _ _ Hexp)
    as [fresh [events [events' [Hn [Hs [Hout _]]]]]].
  simpl in Hout. subst pairs.
  destruct (new_range_inv _ Hn) as [_ [_ [Hi Hf]]].
  destruct (sorted_events_sub _ _ _ _ Hs) as [Hincl [_ Hlen]].
  destruct (@pair_events_facts (AffectedRange2.type r) fresh Hi Hf events)
    as [H1 [H2 [H3 H4]]].
  exists fresh, events, events'.
  split; [assumption|]. split; [assumption|]. split; [|split; [|split]].
  - eapply Forall_impl; [|exact H1]. intros p.
    apply emitted_from_incl. assumption.
  - assumption.
  - specialize (Hlen is_bound). lia.
  - intros Hg. specialize (H4 Hg). specialize (Hlen is_fixed_event). lia.
Qed.

Lemma Forall2_In_r (A B : Type) (R : A -> B -> Prop) (l : list A) (l' : list B)
    (b : B) :
  Forall2 R l l' -> In b l' -> exists a, In a l /\ R a b.
Proof.
  induction 1 as [|x y l l' Hxy _ IH]; intros Hin; [contradiction|].
  destruct Hin as [<-|Hin].
  - exists x. split; [left; reflexivity | assumption].
  - destruct (IH Hin) as [a [Ha HR]]. exists a. split; [right|]; assumption.
Qed.

Lemma Forall2_In_l (A B : Type) (R : A -> B -> Prop) (l : list A) (l' : list B)
    (a : A) :
  Forall2 R l l' -> In a l -> exists b, In b l' /\ R a b.
Proof.
  induction 1 as [|x y l l' Hxy _ IH]; intros Hin; [contradiction|].
  destruct Hin as [<-|Hin].
  - exists y. split; [left; reflexivity | assumption].
  - destruct (IH Hin) as [b [Hb HR]]. exists b. split; [right|]; assumption.
Qed.

(** Every exported pair comes from the export of one range of the first
    package. *)
Lemma exported_inv (ext : External) (self : Bug.t) (affects : Affects.t)
    (pkg : AffectedPackage.t) (others : list AffectedPackage.t) :
  Bug.affected_packages self = pkg :: others ->
  exported ext self = Ok affects ->
  exists parts,
    Forall2 (fun r part =>
               export_range ext (Package.ecosystem (AffectedPackage.package pkg))
                 [] r = Ok part)
            (AffectedPackage.ranges pkg) parts /\
    Affects.ranges affects = List.concat (map fst parts).
Proof.
  intros Hp Hexp. unfold exported in Hexp.
  destruct (_get_pre_0_8_affects ext self) as [[a self']|e] eqn:Hg;
    simpl in Hexp; [|discriminate].
  injection Hexp as ->.
  destruct (get_pre_0_8_affects_inv _ _ Hg)
    as [pkg' [others' [parts [Hp' [Hall [-> _]]]]]].
  rewrite Hp in Hp'. injection Hp' as <- <-.
  exists parts. split; [assumption | reflexivity].
Qed.

Lemma exported_pair_inv (ext : External) (self : Bug.t) (affects : Affects.t)
    (pkg : AffectedPackage.t) (others : list AffectedPackage.t)
    (p : AffectedRange.t) :
  Bug.affected_packages self = pkg :: others ->
  exported ext self = Ok affects ->
  In p (Affects.ranges affects) ->
  exists r pairs r',
    In r (AffectedPackage.ranges pkg) /\
    export_range ext (Package.ecosystem (AffectedPackage.package pkg)) [] r =
      Ok (pairs, r') /\
    In p pairs.
Proof.
  intros Hp Hexp Hin. destruct (exported_inv _ _ Hp Hexp) as [parts [Hall Hr]].
  rewrite Hr in Hin. apply in_concat in Hin. destruct Hin as [ps [Hps Hin]].
  apply in_map_iff in Hps. destruct Hps as [[ps' r'] [Heq Hpart]].
  simpl in Heq. subst ps'.
  destruct (Forall2_In_r _ Hall Hpart) as [r [Hr' Hexp']].
  exists r, ps, r'. auto.
Qed.

(** ** The cursor within the whole export *)

Lemma by_cursor_export_range (ext : External) (ecosystem : string)
    (r : AffectedRange2.t) (pairs : list AffectedRange.t) :
  by_cursor ext ecosystem r pairs <->
  exists r', export_range ext ecosystem [] r = Ok (pairs, r').
Proof.
  split.
  - intros [fresh [events [events' [Hn [Hs ->]]]]]. eexists.
    apply export_range_eq; eassumption.
  - intros [r' He]. destruct (export_range_inv _ _ _ _ He)
      as [fresh [events [events' [Hn [Hs [Hout _]]]]]].
    exists fresh, events, events'. split; [assumption|].
    split; [assumption|]. exact Hout.
Qed.

Lemma by_cursor_parts (ext : External) (ecosystem : string)
    (todo : list AffectedRange2.t) (pss : list (list AffectedRange.t)) :
  Forall2 (by_cursor ext ecosystem) todo pss <->
  exists parts,
    Forall2 (fun r part => export_range ext ecosystem [] r = Ok part) todo parts
    /\ map fst parts = pss.
Proof.
  split.
  - induction 1 as [|r ps todo pss Hr _ IH].
    + exists []. split; [constructor | reflexivity].
    + destruct IH as [parts [Hall Hmap]].
      apply by_cursor_export_range in Hr. destruct Hr as [r' Hr].
      exists ((ps, r') :: parts). split; [constructor; assumption|].
      simpl. rewrite Hmap. reflexivity.
  - intros [parts [Hall <-]].
    induction Hall as [|r [ps r'] todo parts Hr _ IH]; [constructor|].
    simpl. constructor; [|exact IH].
    apply by_cursor_export_range. exists r'. exact Hr.
Qed.

(** The export succeeds with the pairs of the cursors, range after
    range, once every range of the first package has a cursor. *)
Lemma get_pre_0_8_affects_by_cursor (ext : External) (self : Bug.t)
    (pkg : AffectedPackage.t) (others : list AffectedPackage.t)
    (pss : list (list AffectedRange.t)) :
  Bug.affected_packages self = pkg :: others ->
  Forall2 (by_cursor ext (Package.ecosystem (AffectedPackage.package pkg)))
    (AffectedPackage.ranges pkg) pss ->
  exists self',
    _get_pre_0_8_affects ext self =
    Ok (Affects.mk (AffectedPackage.versions pkg) (List.concat pss), self').
Proof.
  intros Hp Hall. apply by_cursor_parts in Hall.
  destruct Hall as [parts [Hall <-]].
  unfold _get_pre_0_8_affects. rewrite Hp.
  rewrite (@export_ranges_of_parts _ _ _ _ Hall []). simpl. eexists. reflexivity.
Qed.

Lemma get_pre_0_8_affects_cursors (ext : External) (self self' : Bug.t)
    (pkg : AffectedPackage.t) (others : list AffectedPackage.t)
    (affects : Affects.t) :
  Bug.affected_packages self = pkg :: others ->
  _get_pre_0_8_affects ext self = Ok (affects, self') ->
  exists pss,
    Forall2 (by_cursor ext (Package.ecosystem (AffectedPackage.package pkg)))
      (AffectedPackage.ranges pkg) pss /\
    Affects.ranges affects = List.concat pss.
Proof.
  intros Hp Hexp.
  destruct (get_pre_0_8_affects_inv _ _ Hexp)
    as [pkg' [others' [parts [Hp' [Hall [-> _]]]]]].
  rewrite Hp in Hp'. injection Hp' as <- <-.
  exists (map fst parts). split; [|reflexivity].
  apply by_cursor_parts. exists parts. split; [assumption | reflexivity].
Qed.

(** C3. The export reconstructs the pairs with a cursor over the sorted
    events of each range of the first package. It returns a message as soon
    as every range has a cursor (its type name converts and its events can
    be sorted), and the pairs of a message that it returns are those of the
    cursors, range after range. In every state that a cursor reaches, the
    open pair has no fixed bound; an introduced event that arrives while a
    pair is open (its introduced bound is set) in a GIT range emits that
    pair and starts a new one; the value ["0"] of an introduced event is
    stored as the empty string; and at the end of the range the current
    pair is emitted exactly when its introduced bound is not empty. *)
Theorem export_cursor (ext : External) (self : Bug.t)
    (pkg : AffectedPackage.t) (others : list AffectedPackage.t) :
  Bug.affected_packages self = pkg :: others ->
  let ecosystem := Package.ecosystem (AffectedPackage.package pkg) in
  (forall pss,
     Forall2 (by_cursor ext ecosystem) (AffectedPackage.ranges pkg) pss ->
     exists self',
       _get_pre_0_8_affects ext self =
       Ok (Affects.mk (AffectedPackage.versions pkg) (List.concat pss), self')) /\
  (forall affects self',
     _get_pre_0_8_affects ext self = Ok (affects, self') ->
     exists pss,
       Forall2 (by_cursor ext ecosystem) (AffectedPackage.ranges pkg) pss /\
       Affects.ranges affects = List.concat pss) /\
  (forall ecosystem0 ranges0 affected_range fresh events events',
     let range_type := AffectedRange2.type affected_range in
     new_range affected_range = Ok fresh ->
     sorted_events ext ecosystem0 range_type
       (AffectedRange2.events affected_range) = Ok (events, events') ->
     export_range ext ecosystem0 ranges0 affected_range =
       Ok (close_range (cursor_after range_type fresh ranges0 events),
           AffectedRange2.set_events affected_range events') /\
     forall seen ranges cur_range,
       cursor_after range_type fresh ranges0 seen = (ranges, cur_range) ->
       AffectedRange.fixed cur_range = "" /\
       (forall v,
           range_type = "GIT" -> AffectedRange.introduced cur_range <> "" ->
           pair_event range_type fresh (ranges, cur_range)
                      (AffectedEvent.mk "introduced" v) =
           (ranges ++ [cur_range],
            AffectedRange.set_introduced fresh (if v =? "0" then "" else v))) /\
       (range_type = "GIT" \/ AffectedRange.introduced cur_range = "" ->
        AffectedRange.introduced
          (snd (pair_event range_type fresh (ranges, cur_range)
                           (AffectedEvent.mk "introduced" "0"))) = "") /\
       close_range (ranges, cur_range) =
         if AffectedRange.introduced cur_range =? "" then ranges
         else ranges ++ [cur_range]).
Proof.
  intros Hp ecosystem. split; [|split].
  - intros pss Hall. exact (@get_pre_0_8_affects_by_cursor _ _ _ _ _ Hp Hall).
  - intros affects self' Hexp. exact (@get_pre_0_8_affects_cursors _ _ _ _ _ _ Hp Hexp).
  - intros ecosystem0 ranges0 affected_range fresh events events' range_type
      Hn Hs.
    split; [apply export_range_eq; assumption|].
    apply new_range_inv in Hn. destruct Hn as [_ [_ [Hi Hf]]].
    intros seen ranges cur_range Hseen.
    assert (Hc := @cursor_after_follows range_type fresh seen ranges0 Hi).
    rewrite Hseen in Hc. simpl in Hc.
    split; [rewrite Hc; simpl; assumption|].
    split; [|split].
    + intros v Hgit Hopen. unfold pair_event. simpl.
      apply truthy_true in Hopen. rewrite Hopen, Hgit. simpl.
      rewrite Hi. reflexivity.
    + intros H. unfold pair_event. simpl.
      destruct (truthy (AffectedRange.introduced cur_range)) eqn:Ht.
      * destruct H as [->|H]; [|apply truthy_true in Ht; contradiction].
        simpl. rewrite Hi. reflexivity.
      * simpl. rewrite Ht. reflexivity.
    + unfold close_range, truthy.
      destruct (AffectedRange.introduced cur_range =? ""); reflexivity.
Qed.

Lemma export_cursor_witness :
  exists self',
    _get_pre_0_8_affects sample_external
      (new_bug "GHSA-1234" "" "ghsa" None
         [AffectedPackage.mk (Package.mk "npm" "left-pad" "")
            [AffectedRange2.mk "GIT" (Some "https://repo")
               [AffectedEvent.mk "introduced" "0";
                AffectedEvent.mk "introduced" "c1";
                AffectedEvent.mk "introduced" "c2"]]
            []]) =
    Ok (Affects.mk []
          [AffectedRange.mk GIT "https://repo" "c1" "";
           AffectedRange.mk GIT "https://repo" "c2" ""], self').
Proof.
  apply (proj1 (@export_cursor sample_external
                  (new_bug "GHSA-1234" "" "ghsa" None
                     [AffectedPackage.mk (Package.mk "npm" "left-pad" "")
                        [AffectedRange2.mk "GIT" (Some "https://repo")
                           [AffectedEvent.mk "introduced" "0";
                            AffectedEvent.mk "introduced" "c1";
                            AffectedEvent.mk "introduced" "c2"]]
                        []])
                  _ _ eq_refl)
           [[AffectedRange.mk GIT "https://repo" "c1" "";
             AffectedRange.mk GIT "https://repo" "c2" ""]]).
  constructor; [|constructor].
  exists (AffectedRange.mk GIT "https://repo" "" "").
  do 2 eexists. split; [reflexivity|]. split; reflexivity.
Defined.

Lemma cursor_after_keeps (range_type : string) (fresh : AffectedRange.t)
    (ranges0 : list AffectedRange.t) (l1 l2 : list AffectedEvent.t)
    (p : AffectedRange.t) :
  In p (fst (cursor_after range_type fresh ranges0 l1)) ->
  In p (close_range (cursor_after range_type fresh ranges0 (l1 ++ l2))).
Proof.
  intros Hin. rewrite cursor_after_app.
  destruct (cursor_after range_type fresh ranges0 l1) as [rs cur].
  cbn [fst] in Hin. rewrite fold_pair_event_prefix.
  destruct (fold_left (pair_event range_type fresh) l2 ([], cur))
    as [more cur'].
  cbn [fst snd]. unfold close_range.
  destruct (truthy (AffectedRange.introduced cur'));
    repeat (apply in_or_app; left); assumption.
Qed.

Lemma by_cursor_In (ext : External) (self self' : Bug.t)
    (pkg : AffectedPackage.t) (others : list AffectedPackage.t)
    (affects : Affects.t) (r : AffectedRange2.t)
    (pairs : list AffectedRange.t) (p : AffectedRange.t) :
  Bug.affected_packages self = pkg :: others ->
  _get_pre_0_8_affects ext self = Ok (affects, self') ->
  In r (AffectedPackage.ranges pkg) ->
  by_cursor ext (Package.ecosystem (AffectedPackage.package pkg)) r pairs ->
  In p pairs -> In p (Affects.ranges affects).
Proof.
  intros Hp Hexp Hr Hcur Hin.
  destruct (@get_pre_0_8_affects_cursors _ _ _ _ _ _ Hp Hexp) as [pss [Hall ->]].
  destruct (Forall2_In_l _ Hall Hr) as [ps [Hps Hcur']].
  apply in_concat. exists ps. split; [assumption|].
  apply by_cursor_export_range in Hcur, Hcur'.
  destruct Hcur as [r1 H1]. destruct Hcur' as [r2 H2].
  rewrite H1 in H2. injection H2 as <- _. assumption.
Qed.

Lemma Forall_Forall2_exists (A B : Type) (R : A -> B -> Prop) (l : list A) :
  Forall (fun a => exists b, R a b) l -> exists l', Forall2 R l l'.
Proof.
  induction 1 as [|a l [b Hb] _ [l' IH]].
  - exists []. constructor.
  - exists (b :: l'). constructor; assumption.
Qed.

(** C9. A fixed event that the cursor meets while the current pair has no
    introduced bound emits a pair all the same: the pair has an empty
    introduced bound and the value of the event as its fixed bound, and a
    new pair starts. The pair is output: it is among the pairs that the
    export of the range returns and among those of every message that the
    export of the record returns, and the export does return a message
    once every range of the first package has a cursor. *)
Theorem fixed_without_introduced (ext : External) (self : Bug.t)
    (pkg : AffectedPackage.t) (others : list AffectedPackage.t)
    (affected_range : AffectedRange2.t) (fresh : AffectedRange.t)
    (events events' seen rest : list AffectedEvent.t)
    (ranges : list AffectedRange.t) (cur_range : AffectedRange.t)
    (v : string) :
  let ecosystem := Package.ecosystem (AffectedPackage.package pkg) in
  let range_type := AffectedRange2.type affected_range in
  let emitted :=
    AffectedRange.mk (AffectedRange.type fresh) (AffectedRange.repo fresh) "" v in
  Bug.affected_packages self = pkg :: others ->
  In affected_range (AffectedPackage.ranges pkg) ->
  new_range affected_range = Ok fresh ->
  sorted_events ext ecosystem range_type (AffectedRange2.events affected_range)
    = Ok (events, events') ->
  events = seen ++ AffectedEvent.mk "fixed" v :: rest ->
  cursor_after range_type fresh [] seen = (ranges, cur_range) ->
  AffectedRange.introduced cur_range = "" ->
  cursor_after range_type fresh [] (seen ++ [AffectedEvent.mk "fixed" v]) =
    (ranges ++ [emitted], fresh) /\
  (exists out affected_range',
     export_range ext ecosystem [] affected_range = Ok (out, affected_range') /\
     In emitted out) /\
  (forall affects self',
     _get_pre_0_8_affects ext self = Ok (affects, self') ->
     In emitted (Affects.ranges affects)) /\
  (Forall (fun r => exists pairs, by_cursor ext ecosystem r pairs)
          (AffectedPackage.ranges pkg) ->
   exists affects self',
     _get_pre_0_8_affects ext self = Ok (affects, self') /\
     In emitted (Affects.ranges affects)).
Proof.
  intros ecosystem range_type emitted Hp Hr Hn Hs Hev Hseen Hclosed.
  assert (Hstep :
    cursor_after range_type fresh [] (seen ++ [AffectedEvent.mk "fixed" v]) =
    (ranges ++ [emitted], fresh)).
  { destruct (new_range_inv _ Hn) as [_ [_ [Hi Hf]]].
    assert (Hc := @cursor_after_follows range_type fresh seen [] Hi).
    rewrite Hseen in Hc. simpl in Hc.
    apply (follows_closed Hi Hc) in Hclosed. subst cur_range.
    rewrite cursor_after_app, Hseen. simpl. unfold pair_event. simpl.
    unfold emitted. destruct fresh as [ty repo i f]. simpl in *. subst.
    reflexivity. }
  assert (Hin : In emitted (close_range (cursor_after range_type fresh [] events))).
  { rewrite Hev.
    change (seen ++ AffectedEvent.mk "fixed" v :: rest)
      with (seen ++ [AffectedEvent.mk "fixed" v] ++ rest).
    rewrite app_assoc. apply cursor_after_keeps. rewrite Hstep.
    cbn [fst]. apply in_or_app. right. left. reflexivity. }
  assert (Hcur : by_cursor ext ecosystem affected_range
                   (close_range (cursor_after range_type fresh [] events))).
  { exists fresh, events, events'. auto. }
  assert (Hall : forall affects self',
            _get_pre_0_8_affects ext self = Ok (affects, self') ->
            In emitted (Affects.ranges affects)).
  { intros affects self' Hexp.
    exact (@by_cursor_In _ _ _ _ _ _ _ _ _ Hp Hexp Hr Hcur Hin). }
  split; [exact Hstep|]. split; [|split; [exact Hall|]].
  - do 2 eexists. split; [apply export_range_eq; eassumption | exact Hin].
  - intros Hevery. apply Forall_Forall2_exists in Hevery.
    destruct Hevery as [pss Hpss].
    destruct (@get_pre_0_8_affects_by_cursor _ _ _ _ _ Hp Hpss) as [self' Hexp].
    do 2 eexists. split; [exact Hexp | exact (Hall _ _ Hexp)].
Qed.

Lemma fixed_without_introduced_witness :
  exists affects self',
    _get_pre_0_8_affects sample_external
      (one_range_bug "SEMVER"
         [AffectedEvent.mk "fixed" "1.0.2"; AffectedEvent.mk "introduced" "0"]) =
    Ok (affects, self') /\
    In (AffectedRange.mk SEMVER "" "" "1.0.2") (Affects.ranges affects).
Proof.
  apply (proj2 (proj2 (proj2
    (@fixed_without_introduced sample_external
       (one_range_bug "SEMVER"
          [AffectedEvent.mk "fixed" "1.0.2"; AffectedEvent.mk "introduced" "0"])
       _ _
       (AffectedRange2.mk "SEMVER" None
          [AffectedEvent.mk "fixed" "1.0.2"; AffectedEvent.mk "introduced" "0"])
       (AffectedRange.mk SEMVER "" "" "")
       [AffectedEvent.mk "introduced" "0"; AffectedEvent.mk "fixed" "1.0.2"]
       [AffectedEvent.mk "fixed" "1.0.2"]
       [AffectedEvent.mk "introduced" "0"] []
       [] (AffectedRange.mk SEMVER "" "" "") "1.0.2"
       eq_refl (or_introl eq_refl) eq_refl eq_refl eq_refl eq_refl eq_refl)))).
  constructor; [|constructor].
  eexists. exists (AffectedRange.mk SEMVER "" "" "").
  do 2 eexists. split; [reflexivity|]. split; reflexivity.
Defined.

(** X5. Every exported pair has the type and the repository of a range of
    the first package: its type is the one that the type name of the range
    denotes, its repository is the [repo_url] of the range, empty when the
    range has none. *)
Theorem export_types_repos (ext : External) (self : Bug.t) (affects : Affects.t)
    (pkg : AffectedPackage.t) (others : list AffectedPackage.t) :
  Bug.affected_packages self = pkg :: others ->
  exported ext self = Ok affects ->
  forall p, In p (Affects.ranges affects) ->
    exists r,
      In r (AffectedPackage.ranges pkg) /\
      AffectedRange2.type r = Type_Name (AffectedRange.type p) /\
      AffectedRange.repo p =
        match AffectedRange2.repo_url r with
        | Some url => url
        | None => ""
        end.
Proof.
  intros Hp Hexp p Hin.
  destruct (exported_pair_inv _ _ _ Hp Hexp Hin) as [r [ps [r' [Hr [He Hps]]]]].
  destruct (export_range_facts _ _ _ He)
    as [fresh [events [events' [Hn [_ [Hall _]]]]]].
  rewrite Forall_forall in Hall. destruct (Hall p Hps) as [[Hty Hrepo] _].
  destruct (new_range_inv _ Hn) as [Htv [Hrp _]].
  exists r. split; [assumption|]. split.
  - rewrite Hty. apply Type_Value_inv. assumption.
  - rewrite Hrepo. assumption.
Qed.

Lemma export_types_repos_witness :
  exists r,
    In r [AffectedRange2.mk "GIT" (Some "https://repo")
            [AffectedEvent.mk "introduced" "a"; AffectedEvent.mk "fixed" "b"]] /\
    AffectedRange2.type r = "GIT" /\
    "https://repo" =
      match AffectedRange2.repo_url r with Some url => url | None => "" end.
Proof.
  apply (@export_types_repos sample_external
           (new_bug "GHSA-1" "" "ghsa" None
              [AffectedPackage.mk (Package.mk "npm" "a" "")
                 [AffectedRange2.mk "GIT" (Some "https://repo")
                    [AffectedEvent.mk "introduced" "a";
                     AffectedEvent.mk "fixed" "b"]] []])
           (Affects.mk [] [AffectedRange.mk GIT "https://repo" "a" "b"])
           _ [] eq_refl eq_refl
           (AffectedRange.mk GIT "https://repo" "a" "b")).
  left. reflexivity.
Defined.

Lemma fixed_bounds_In (pairs : list AffectedRange.t) (v : string) :
  In v (fixed_bounds pairs) <->
  v <> "" /\ exists p, In p pairs /\ AffectedRange.fixed p = v.
Proof.
  unfold fixed_bounds. rewrite filter_In, in_map_iff, truthy_true.
  split.
  - intros [[p [Hp Hin]] Hv]. split; [assumption|]. exists p. auto.
  - intros [Hv [p [Hin Hp]]]. split; [exists p; auto | assumption].
Qed.

(** X6. No fixed event is lost. The non-empty fixed bounds of the pairs that
    the export adds for a range are the non-empty values of the fixed events
    of its sorted event stream, in the same order; and every fixed event of
    the range whose value is neither empty nor ["0"] is the fixed bound of a
    pair. *)
Theorem export_fixed_events (ext : External) (ecosystem : string)
    (ranges out : list AffectedRange.t) (r r' : AffectedRange2.t) :
  export_range ext ecosystem ranges r = Ok (out, r') ->
  exists events events' pairs,
    sorted_events ext ecosystem (AffectedRange2.type r) (AffectedRange2.events r)
      = Ok (events, events') /\
    out = ranges ++ pairs /\
    fixed_bounds pairs =
      filter truthy (map AffectedEvent.value (filter is_fixed_event events)) /\
    forall event,
      In event (AffectedRange2.events r) ->
      AffectedEvent.type event = "fixed" ->
      AffectedEvent.value event <> "" -> AffectedEvent.value event <> "0" ->
      exists p, In p pairs /\ AffectedRange.fixed p = AffectedEvent.value event.
Proof.
  intros Hexp. rewrite export_range_prefix in Hexp.
  destruct (export_range ext ecosystem [] r) as [[pairs r0]|e] eqn:Hr;
    [|discriminate].
  injection Hexp as <- <-.
  destruct (export_range_facts _ _ _ Hr)
    as [fresh [events [events' [Hn [Hs [_ [Hfb _]]]]]]].
  exists events, events', pairs.
  split; [assumption|]. split; [reflexivity|]. split; [assumption|].
  intros e He Hty Hv Hz.
  destruct (sorted_events_sub _ _ _ _ Hs) as [_ [Hkeep _]].
  assert (Hin : In (AffectedEvent.value e) (fixed_bounds pairs)).
  { rewrite Hfb. apply filter_In. split; [|apply truthy_true; assumption].
    apply in_map. apply filter_In. split.
    - apply Hkeep; [assumption|]. apply String.eqb_neq. assumption.
    - unfold is_fixed_event. rewrite Hty. reflexivity. }
  apply fixed_bounds_In in Hin. tauto.
Qed.

Lemma export_fixed_events_witness :
  exists p,
    In p [AffectedRange.mk SEMVER "" "" "1.0.0";
          AffectedRange.mk SEMVER "" "" "2.0.0"] /\
    AffectedRange.fixed p = "2.0.0".
Proof.
  destruct (@export_fixed_events sample_external "npm" []
              [AffectedRange.mk SEMVER "" "" "1.0.0";
               AffectedRange.mk SEMVER "" "" "2.0.0"]
              (AffectedRange2.mk "SEMVER" None
                 [AffectedEvent.mk "fixed" "2.0.0";
                  AffectedEvent.mk "fixed" "1.0.0"])
              (AffectedRange2.mk "SEMVER" None
                 [AffectedEvent.mk "fixed" "2.0.0";
                  AffectedEvent.mk "fixed" "1.0.0"]) eq_refl)
    as [events [events' [pairs [_ [Hout [_ Hall]]]]]].
  simpl in Hout. subst pairs.
  apply (Hall (AffectedEvent.mk "fixed" "2.0.0"));
    [left; reflexivity | reflexivity | discriminate | discriminate].
Defined.

Lemma concat_length_le (parts : list (list AffectedRange.t * AffectedRange2.t))
    (ranges : list AffectedRange2.t) (f : AffectedRange2.t -> nat) :
  Forall2 (fun r part => List.length (fst part) <= f r) ranges parts ->
  List.length (List.concat (map fst parts)) <= list_sum (map f ranges).
Proof.
  induction 1 as [|r part ranges parts Hle _ IH]; simpl; [lia|].
  rewrite length_app. lia.
Qed.

Lemma list_sum_filter_length (A B : Type) (f : B -> bool) (g : A -> list B)
    (l : list A) :
  list_sum (map (fun a => List.length (filter f (g a))) l) =
  List.length (filter f (flat_map g l)).
Proof.
  induction l as [|a l IH]; simpl; [reflexivity|].
  rewrite filter_app, length_app, IH. reflexivity.
Qed.

(** X7. The export never gives more pairs than the first package has
    introduced and fixed events; and a range whose type is not GIT gives at
    most one pair more than it has fixed events. *)
Theorem export_pair_count (ext : External) :
  (forall self affects pkg others,
      Bug.affected_packages self = pkg :: others ->
      exported ext self = Ok affects ->
      List.length (Affects.ranges affects) <=
      List.length (filter is_bound
                     (flat_map AffectedRange2.events (AffectedPackage.ranges pkg)))) /\
  (forall ecosystem r r' pairs,
      AffectedRange2.type r <> "GIT" ->
      export_range ext ecosystem [] r = Ok (pairs, r') ->
      List.length pairs <=
      List.length (filter is_fixed_event (AffectedRange2.events r)) + 1).
Proof.
  split.
  - intros self affects pkg others Hp Hexp.
    destruct (exported_inv _ _ Hp Hexp) as [parts [Hall ->]].
    rewrite <- (list_sum_filter_length is_bound AffectedRange2.events).
    apply concat_length_le.
    eapply Forall2_impl; [|exact Hall]. intros r [ps r'] Hr. simpl.
    destruct (export_range_facts _ _ _ Hr)
      as [fresh [events [events' [_ [_ [_ [_ [Hlen _]]]]]]]].
    exact Hlen.
  - intros ecosystem r r' pairs Hg Hr.
    destruct (export_range_facts _ _ _ Hr)
      as [fresh [events [events' [_ [_ [_ [_ [_ Hlen]]]]]]]].
    apply Hlen. assumption.
Qed.

Lemma export_pair_count_witness :
  List.length
    [AffectedRange.mk SEMVER "" "1.0.0" "2.0.0"] <=
  List.length
    (filter is_fixed_event
       [AffectedEvent.mk "introduced" "1.0.0";
        AffectedEvent.mk "introduced" "1.5.0";
        AffectedEvent.mk "fixed" "2.0.0"]) + 1.
Proof.
  destruct (export_pair_count sample_external) as [_ H].
  apply (H "npm"
           (AffectedRange2.mk "SEMVER" None
              [AffectedEvent.mk "introduced" "1.0.0";
               AffectedEvent.mk "introduced" "1.5.0";
               AffectedEvent.mk "fixed" "2.0.0"])
           (AffectedRange2.mk "SEMVER" None
              [AffectedEvent.mk "introduced" "1.0.0";
               AffectedEvent.mk "introduced" "1.5.0";
               AffectedEvent.mk "fixed" "2.0.0"])).
  - discriminate.
  - reflexivity.
Defined.

(** X8. No exported pair has ["0"] as its introduced bound; and when no
    fixed event of the first package has an empty value, no exported pair
    has two empty bounds. *)
Theorem export_pairs_bounded (ext : External) (self : Bug.t)
    (affects : Affects.t) (pkg : AffectedPackage.t)
    (others : list AffectedPackage.t) :
  Bug.affected_packages self = pkg :: others ->
  exported ext self = Ok affects ->
  (forall p, In p (Affects.ranges affects) -> AffectedRange.introduced p <> "0") /\
  ((forall r event,
       In r (AffectedPackage.ranges pkg) -> In event (AffectedRange2.events r) ->
       AffectedEvent.type event = "fixed" -> AffectedEvent.value event <> "") ->
   Forall bounded (Affects.ranges affects)).
Proof.
  intros Hp Hexp.
  assert (Hem : forall p, In p (Affects.ranges affects) ->
                exists r fresh, In r (AffectedPackage.ranges pkg) /\
                                emitted_from fresh (AffectedRange2.events r) p).
  { intros p Hin.
    destruct (exported_pair_inv _ _ _ Hp Hexp Hin)
      as [r [ps [r' [Hr [He Hps]]]]].
    destruct (export_range_facts _ _ _ He)
      as [fresh [events [events' [_ [_ [Hall _]]]]]].
    rewrite Forall_forall in Hall. exists r, fresh. auto. }
  split.
  - intros p Hin. destruct (Hem p Hin) as [r [fresh [_ [_ [Hz _]]]]]. exact Hz.
  - intros Hvalues. apply Forall_forall. intros p Hin.
    destruct (Hem p Hin) as [r [fresh [Hr [_ [Hz Hfix]]]]].
    split; [assumption|]. intros Hi.
    destruct (Hfix Hi) as [e [He [Hty Hv]]]. rewrite Hv.
    apply (Hvalues r e Hr He). apply String.eqb_eq. exact Hty.
Qed.

Lemma export_pairs_bounded_witness :
  Forall bounded
    [AffectedRange.mk GIT "" "" "b"; AffectedRange.mk GIT "" "c" ""].
Proof.
  destruct (@export_pairs_bounded sample_external
              (new_bug "GHSA-1" "" "ghsa" None
                 [AffectedPackage.mk (Package.mk "npm" "a" "")
                    [AffectedRange2.mk "GIT" None
                       [AffectedEvent.mk "introduced" "0";
                        AffectedEvent.mk "fixed" "b";
                        AffectedEvent.mk "introduced" "c"]] []])
              (Affects.mk []
                 [AffectedRange.mk GIT "" "" "b"; AffectedRange.mk GIT "" "c" ""])
              _ [] eq_refl eq_refl) as [_ H].
  apply H. intros r event [<-|[]] Hin Hty. simpl in Hin.
  destruct Hin as [<-|[<-|[<-|[]]]]; simpl in *; discriminate.
Defined.

(** ** The record after the export *)

Lemma sorted_events_Ok_inv (ext : External) (ecosystem range_type : string)
    (events out events' : list AffectedEvent.t) :
  sorted_events ext ecosystem range_type events = Ok (out, events') ->
  (range_type = "GIT" /\ out = events /\ events' = events) \/
  (range_type <> "GIT" /\
   exists h,
     ecosystem_helper ext ecosystem range_type = Ok h /\
     events' = filter not_zero events /\
     out = match magic_zero events with
           | Some z => z :: sorted (key_lt h) (event_key h) (filter not_zero events)
           | None => sorted (key_lt h) (event_key h) (filter not_zero events)
           end).
Proof.
  intros Hs. destruct (String.eqb_spec range_type "GIT") as [->|Hgit].
  - rewrite sorted_events_GIT in Hs. injection Hs as <- <-. left. auto.
  - right. split; [assumption|].
    destruct (ecosystem_helper ext ecosystem range_type) as [h|e] eqn:Hh.
    + rewrite (sorted_events_not_GIT ext ecosystem events Hgit Hh) in Hs.
      injection Hs as <- <-. exists h. auto.
    + unfold sorted_events in Hs.
      destruct (String.eqb_spec range_type "GIT"); [contradiction|].
      rewrite Hh in Hs. discriminate.
Qed.

Lemma set_events_same (r : AffectedRange2.t) :
  AffectedRange2.set_events r (AffectedRange2.events r) = r.
Proof. destruct r. reflexivity. Qed.

Lemma filter_not_zero_twice (events : list AffectedEvent.t) :
  filter not_zero (filter not_zero events) = filter not_zero events.
Proof.
  induction events as [|e events IH]; simpl; [reflexivity|].
  destruct (not_zero e) eqn:He; simpl; [rewrite He, IH|]; auto.
Qed.

Lemma strip_zeros_twice (r : AffectedRange2.t) :
  strip_zeros (strip_zeros r) = strip_zeros r.
Proof.
  unfold strip_zeros.
  destruct (AffectedRange2.type r =? "GIT") eqn:Hg; [rewrite Hg; reflexivity|].
  simpl. rewrite Hg. unfold AffectedRange2.set_events. simpl.
  rewrite filter_not_zero_twice. reflexivity.
Qed.

(** The range that the export of a range leaves. *)
Lemma export_range_leaves (ext : External) (ecosystem : string)
    (r r' : AffectedRange2.t) (pairs : list AffectedRange.t) :
  export_range ext ecosystem [] r = Ok (pairs, r') -> r' = strip_zeros r.
Proof.
  intros Hexp. destruct (export_range_inv _ _ _ _ Hexp)
    as [fresh [events [events' [_ [Hs [_ ->]]]]]].
  unfold strip_zeros.
  destruct (sorted_events_Ok_inv _ _ _ _ Hs) as [[Hg [_ ->]]|[Hg [h [_ [-> _]]]]].
  - rewrite Hg. simpl. apply set_events_same.
  - destruct (String.eqb_spec (AffectedRange2.type r) "GIT"); [contradiction|].
    reflexivity.
Qed.

Lemma pair_events_skip_zero (range_type : string) (fresh : AffectedRange.t)
    (z : AffectedEvent.t) (events : list AffectedEvent.t) :
  AffectedRange.introduced fresh = "" ->
  AffectedEvent.value z = "0" -> AffectedEvent.type z <> "fixed" ->
  pair_events range_type fresh [] (z :: events) =
  pair_events range_type fresh [] events.
Proof.
  intros Hi Hv Hty. unfold pair_events. cbn [fold_left].
  rewrite (@pair_event_cases range_type fresh Hi).
  rewrite Hi, Hv. simpl.
  destruct (AffectedEvent.type z =? "introduced").
  - replace (AffectedRange.set_introduced fresh "") with fresh; [reflexivity|].
    destruct fresh. simpl in *. subst. reflexivity.
  - destruct (String.eqb_spec (AffectedEvent.type z) "fixed");
      [contradiction | reflexivity].
Qed.

(** A second export of a range, from the range that the first one left. *)
Lemma export_range_again (ext : External) (ecosystem : string)
    (r r' : AffectedRange2.t) (pairs : list AffectedRange.t) :
  (AffectedRange2.type r <> "GIT" ->
   forall event, In event (AffectedRange2.events r) ->
                 AffectedEvent.value event = "0" ->
                 AffectedEvent.type event <> "fixed") ->
  export_range ext ecosystem [] r = Ok (pairs, r') ->
  export_range ext ecosystem [] (strip_zeros r) = Ok (pairs, strip_zeros r).
Proof.
  intros Hzero Hexp. destruct (export_range_inv _ _ _ _ Hexp)
    as [fresh [events [events' [Hn [Hs [Hout _]]]]]].
  simpl in Hout. subst pairs.
  destruct (new_range_inv _ Hn) as [_ [_ [Hi _]]].
  unfold strip_zeros.
  destruct (sorted_events_Ok_inv _ _ _ _ Hs)
    as [[Hg [-> ->]]|[Hg [h [Hh [-> ->]]]]].
  - rewrite Hg. simpl. rewrite <- Hg.
    rewrite (@export_range_eq ext ecosystem [] r fresh _ _ Hn Hs).
    rewrite set_events_same. reflexivity.
  - destruct (String.eqb_spec (AffectedRange2.type r) "GIT"); [contradiction|].
    set (r2 := AffectedRange2.set_events r
                 (filter not_zero (AffectedRange2.events r))).
    assert (Hn2 : new_range r2 = Ok fresh) by exact Hn.
    assert (Hs2 : sorted_events ext ecosystem (AffectedRange2.type r2)
                    (AffectedRange2.events r2) =
                  Ok (sorted (key_lt h) (event_key h)
                        (filter not_zero (AffectedRange2.events r)),
                      filter not_zero (AffectedRange2.events r))).
    { simpl. rewrite (sorted_events_not_GIT ext ecosystem _ Hg Hh).
      unfold magic_zero. rewrite filter_zero_not_zero. simpl.
      rewrite filter_not_zero_twice. reflexivity. }
    rewrite (@export_range_eq ext ecosystem [] r2 fresh _ _ Hn2 Hs2).
    f_equal. apply f_equal2; [|reflexivity].
    change (close_range (cursor_after ?t ?f ?o ?e)) with (pair_events t f o e).
    simpl AffectedRange2.type.
    destruct (magic_zero (AffectedRange2.events r)) as [z|] eqn:Hz;
      [|reflexivity].
    destruct (magic_zero_In _ Hz) as [Hin Hval].
    symmetry. apply pair_events_skip_zero; auto.
Qed.

(** X9. What the export leaves in the record. The events of the ranges of
    the first package are the lists that [sorted_events] has worked on: a
    GIT range is as it was, and any other range has lost its ["0"] events;
    nothing else changes. When no event with the value ["0"] is a fixed
    event, a second export, from the record that the first one has left,
    gives the same message and changes nothing any more. *)
Theorem export_leaves (ext : External) (self self' : Bug.t)
    (affects : Affects.t) :
  _get_pre_0_8_affects ext self = Ok (affects, self') ->
  exists pkg others,
    Bug.affected_packages self = pkg :: others /\
    self' = Bug.set_affected_packages self
              (AffectedPackage.mk (AffectedPackage.package pkg)
                 (map strip_zeros (AffectedPackage.ranges pkg))
                 (AffectedPackage.versions pkg) :: others) /\
    ((forall r event,
         In r (AffectedPackage.ranges pkg) -> AffectedRange2.type r <> "GIT" ->
         In event (AffectedRange2.events r) -> AffectedEvent.value event = "0" ->
         AffectedEvent.type event <> "fixed") ->
     _get_pre_0_8_affects ext self' = Ok (affects, self')).
Proof.
  intros Hexp. destruct (get_pre_0_8_affects_inv _ _ Hexp)
    as [pkg [others [parts [Hp [Hall [-> ->]]]]]].
  exists pkg, others. split; [assumption|].
  assert (Hsnd : map snd parts = map strip_zeros (AffectedPackage.ranges pkg)).
  { clear Hexp. induction Hall as [|r [ps r'] ranges parts Hr _ IH]; simpl;
      [reflexivity|].
    rewrite (export_range_leaves _ _ _ Hr), IH. reflexivity. }
  rewrite Hsnd. split; [reflexivity|].
  intros Hzero. unfold _get_pre_0_8_affects. simpl.
  assert (Hall2 : Forall2
            (fun r part =>
               export_range ext
                 (Package.ecosystem (AffectedPackage.package pkg)) [] r = Ok part)
            (map strip_zeros (AffectedPackage.ranges pkg))
            (map (fun part => (fst part, strip_zeros (snd part))) parts)).
  { clear Hexp Hsnd.
    induction Hall as [|r [ps r'] ranges parts Hr _ IH]; simpl; [constructor|].
    constructor.
    - simpl. rewrite (export_range_leaves _ _ _ Hr), strip_zeros_twice.
      apply (export_range_again ext _ r (r' := r')); [|assumption].
      intros Hg e He. apply (Hzero r e); auto. left. reflexivity.
    - apply IH. intros r0 e Hr0. apply Hzero. right. assumption. }
  rewrite (export_ranges_of_parts _ _ Hall2 []). simpl.
  rewrite !map_map. simpl.
  assert (Hstrip : map (fun x => strip_zeros (snd x)) parts =
                   map strip_zeros (AffectedPackage.ranges pkg)).
  { rewrite <- (map_map snd strip_zeros), Hsnd, map_map.
    apply map_ext. intros r. apply strip_zeros_twice. }
  rewrite Hstrip.
  replace (map (fun x => fst x) parts) with (map fst parts) by reflexivity.
  destruct self. reflexivity.
Qed.

Lemma export_leaves_witness :
  let self :=
    new_bug "GHSA-1" "" "ghsa" None
      [AffectedPackage.mk (Package.mk "npm" "a" "")
         [AffectedRange2.mk "SEMVER" None
            [AffectedEvent.mk "introduced" "0"; AffectedEvent.mk "fixed" "1.0.0"]]
         []] in
  let self' :=
    new_bug "GHSA-1" "" "ghsa" None
      [AffectedPackage.mk (Package.mk "npm" "a" "")
         [AffectedRange2.mk "SEMVER" None [AffectedEvent.mk "fixed" "1.0.0"]]
         []] in
  _get_pre_0_8_affects sample_external self' =
  Ok (Affects.mk [] [AffectedRange.mk SEMVER "" "" "1.0.0"], self').
Proof.
  intros self self'.
  destruct (@export_leaves sample_external self self'
              (Affects.mk [] [AffectedRange.mk SEMVER "" "" "1.0.0"]) eq_refl)
    as [pkg [others [Hp [_ Hagain]]]].
  apply Hagain. injection Hp as <- <-.
  intros r event [<-|[]] _ Hin Hv. simpl in Hin.
  destruct Hin as [<-|[<-|[]]]; simpl in *; discriminate.
Defined.

Lemma export_ranges_sortable (ext : External) (ecosystem : string)
    (todo : list AffectedRange2.t) :
  Forall (sortable ext ecosystem) todo ->
  forall ranges, exists out done,
    export_ranges ext ecosystem ranges todo = Ok (out, done).
Proof.
  induction 1 as [|r rs Hr _ IH]; intros ranges; simpl.
  - do 2 eexists. reflexivity.
  - assert (Hok : exists part, export_range ext ecosystem ranges r = Ok part).
    { unfold export_range, new_range, sorted_events, ecosystem_helper.
      destruct Hr as [Hr|[Hr|[Hr [h Hh]]]]; rewrite Hr; simpl.
      - eexists. reflexivity.
      - rewrite remove_magic_zeros_all. simpl.
        destruct (magic_zero (AffectedRange2.events r)); eexists;
          reflexivity.
      - rewrite Hh. simpl. rewrite remove_magic_zeros_all. simpl.
        destruct (magic_zero (AffectedRange2.events r)); eexists;
          reflexivity. }
    destruct Hok as [[out r'] Hok]. rewrite Hok. simpl.
    destruct (IH out) as [out' [done Hrest]]. rewrite Hrest. simpl.
    do 2 eexists. reflexivity.
Qed.

(** X10. The export succeeds when the record has an affected package and
    every range of the first one is of type GIT or SEMVER, or of type
    ECOSYSTEM with a comparator for the ecosystem of the package; and when
    it succeeds, the type of every range of that package is one of the three
    names. *)
Theorem export_succeeds (ext : External) (self : Bug.t)
    (pkg : AffectedPackage.t) (others : list AffectedPackage.t) :
  Bug.affected_packages self = pkg :: others ->
  (Forall (sortable ext (Package.ecosystem (AffectedPackage.package pkg)))
          (AffectedPackage.ranges pkg) ->
   exists affects self', _get_pre_0_8_affects ext self = Ok (affects, self')) /\
  (forall affects self',
      _get_pre_0_8_affects ext self = Ok (affects, self') ->
      Forall (fun r => In (AffectedRange2.type r) ["GIT"; "SEMVER"; "ECOSYSTEM"])
             (AffectedPackage.ranges pkg)).
Proof.
  intros Hp. split.
  - intros Hall. unfold _get_pre_0_8_affects. rewrite Hp.
    assert (Hex := export_ranges_sortable Hall).
    destruct (Hex []) as [out [done Hexp]]. rewrite Hexp. simpl.
    do 2 eexists. reflexivity.
  - intros affects self' Hexp.
    destruct (get_pre_0_8_affects_inv _ _ Hexp)
      as [pkg' [others' [parts [Hp' [Hall _]]]]].
    rewrite Hp in Hp'. injection Hp' as <- <-.
    apply Forall_forall. intros r Hr.
    destruct (Forall2_In_l _ Hall Hr) as [[ps r'] [_ Hpart]].
    destruct (export_range_inv _ _ _ _ Hpart) as [fresh [_ [_ [Hn _]]]].
    destruct (new_range_inv _ Hn) as [Htv _].
    apply Type_Value_inv in Htv. rewrite Htv.
    destruct (AffectedRange.type fresh); simpl; auto.
Qed.

Lemma export_succeeds_witness :
  exists affects self',
    _get_pre_0_8_affects sample_external
      (new_bug "GHSA-1234" "" "ghsa" None
         [AffectedPackage.mk (Package.mk "PyPI" "left-pad" "")
            [AffectedRange2.mk "ECOSYSTEM" None
               [AffectedEvent.mk "introduced" "1.0"];
             AffectedRange2.mk "GIT" None [AffectedEvent.mk "introduced" "c"]]
            []]) =
    Ok (affects, self').
Proof.
  destruct (@export_succeeds sample_external
              (new_bug "GHSA-1234" "" "ghsa" None
                 [AffectedPackage.mk (Package.mk "PyPI" "left-pad" "")
                    [AffectedRange2.mk "ECOSYSTEM" None
                       [AffectedEvent.mk "introduced" "1.0"];
                     AffectedRange2.mk "GIT" None
                       [AffectedEvent.mk "introduced" "c"]] []])
              _ [] eq_refl) as [H _].
  apply H. constructor; [|constructor; [|constructor]].
  - right. right. split; [reflexivity|]. eexists. reflexivity.
  - left. reflexivity.
Defined.

(** ** update_from_vulnerability, field by field *)

Lemma package_eta (p : Package.t) :
  Package.mk (Package.ecosystem p) (Package.name p) (Package.purl p) = p.
Proof. destruct p. reflexivity. Qed.

(** The record that [update_from_vulnerability] gives. *)
Lemma update_from_vulnerability_eq (self : Bug.t)
    (vulnerability : Vulnerability.t) :
  update_from_vulnerability self vulnerability =
  Ok (Bug.mk (Bug.db_id self) (Vulnerability.aliases vulnerability)
        (Vulnerability.related vulnerability)
        (if_has_field (Vulnerability.published vulnerability) (Bug.timestamp self))
        (if_has_field (Vulnerability.modified vulnerability)
           (Bug.last_modified self))
        (if_has_field (Vulnerability.withdrawn vulnerability) (Bug.withdrawn self))
        (Bug.source_id self) (Bug.affected_fuzzy self) (Bug.purl self)
        (Bug.project self) (Bug.ecosystem self)
        (Vulnerability.summary vulnerability)
        (Vulnerability.details vulnerability) (Bug.severity self)
        (Bug.search_indices self) (Bug.has_affected self) (Bug.is_fixed self)
        (Bug.semver_fixed_indexes self)
        (AffectedPackage.mk (Vulnerability.package vulnerability)
           (merged_ranges (Affects.ranges (Vulnerability.affects vulnerability)))
           (Affects.versions (Vulnerability.affects vulnerability))
         :: tl (Bug.affected_packages self))
        (Bug.source self) (Bug.key self)).
Proof.
  unfold update_from_vulnerability. rewrite events_by_type_spec.
  rewrite build_ranges_spec.
  - rewrite package_eta.
    destruct (Bug.affected_packages self) as [|p others]; reflexivity.
  - intros k Hk. apply (proj1 (first_seen_In key_eqb_spec _ _)) in Hk.
    apply in_map_iff in Hk. destruct Hk as [p [<- _]].
    exists (AffectedRange.type p). reflexivity.
Qed.

Lemma validate_same (ext : External) (a b : Bug.t) :
  Bug.source a = Bug.source b -> Bug.db_id a = Bug.db_id b ->
  Bug.key a = Bug.key b -> Bug.source_id a = Bug.source_id b ->
  same_end (validate ext a) (validate ext b).
Proof.
  intros Hs Hd Hk Hi.
  assert (Hsame : same_identity a b) by (repeat split; assumption).
  unfold validate. rewrite <- Hs, <- Hd, <- Hk.
  destruct (negb (truthy (Bug.source a)));
    [split; [reflexivity | exact Hsame]|].
  destruct (negb (truthy (Bug.db_id a)));
    [split; [reflexivity | exact Hsame]|].
  case_eq (Bug.key a); [intros k Hka; exact Hsame | intros Hka].
  destruct (get_source_repository ext (Bug.source a)) as [repo|];
    [|split; [reflexivity | exact Hsame]].
  unfold same_end, same_identity. cbn [Bug.set_key Bug.db_id Bug.key
    Bug.source Bug.source_id]. auto.
Qed.

(** X11. [update_from_vulnerability] does not set the ID. When it has
    populated a record, [id()] gives what it gave before, and the
    derivation pass ends on the populated record as it would have on the
    record before: with the same error, or in a record with the same
    identifier, key, source and source id. The affected packages after the
    first one are kept. *)
Theorem update_keeps_identity (ext : External) (now : datetime)
    (self self' : Bug.t) (vulnerability : Vulnerability.t) :
  update_from_vulnerability self vulnerability = Ok self' ->
  id self' = id self /\
  same_end (_pre_put_hook ext now self) (_pre_put_hook ext now self') /\
  tl (Bug.affected_packages self') = tl (Bug.affected_packages self).
Proof.
  rewrite update_from_vulnerability_eq. intros [= <-].
  split; [reflexivity|]. split; [|reflexivity].
  unfold _pre_put_hook.
  match goal with
  | |- same_end _ (match id ?b with _ => _ end) => change (id b) with (id self)
  end.
  destruct (id self) as [ident|e]; [|repeat split].
  apply validate_same; reflexivity.
Qed.

Lemma update_keeps_identity_witness :
  same_end
    (_pre_put_hook sample_external 7%N (new_bug "GHSA-1234" "" "ghsa" None []))
    (_pre_put_hook sample_external 7%N
       (new_bug "GHSA-1234" "" "ghsa" None
          [AffectedPackage.mk (Package.mk "npm" "left-pad" "")
             [AffectedRange2.mk "GIT" (Some "https://repo")
                [AffectedEvent.mk "introduced" "a"; AffectedEvent.mk "fixed" "b"]]
             []])).
Proof.
  exact (proj1 (proj2 (@update_keeps_identity sample_external 7%N
                         (new_bug "GHSA-1234" "" "ghsa" None []) _
                         (vulnerability_of
                            [AffectedRange.mk GIT "https://repo" "a" "b"])
                         eq_refl))).
Defined.

Lemma if_has_field_twice (field old : option datetime) :
  if_has_field field (if_has_field field old) = if_has_field field old.
Proof. destruct field; reflexivity. Qed.

(** X12. Populating a record twice from the same payload gives what
    populating it once gives. *)
Theorem update_twice (self self' : Bug.t) (vulnerability : Vulnerability.t) :
  update_from_vulnerability self vulnerability = Ok self' ->
  update_from_vulnerability self' vulnerability = Ok self'.
Proof.
  rewrite update_from_vulnerability_eq. intros [= <-].
  rewrite update_from_vulnerability_eq. simpl.
  rewrite !if_has_field_twice. reflexivity.
Qed.

Lemma update_twice_witness :
  update_from_vulnerability
    (new_bug "GHSA-1234" "" "ghsa" None
       [AffectedPackage.mk (Package.mk "npm" "left-pad" "")
          [AffectedRange2.mk "GIT" (Some "https://repo")
             [AffectedEvent.mk "introduced" "a"; AffectedEvent.mk "fixed" "b"]]
          []])
    (vulnerability_of [AffectedRange.mk GIT "https://repo" "a" "b"]) =
  Ok (new_bug "GHSA-1234" "" "ghsa" None
        [AffectedPackage.mk (Package.mk "npm" "left-pad" "")
           [AffectedRange2.mk "GIT" (Some "https://repo")
              [AffectedEvent.mk "introduced" "a"; AffectedEvent.mk "fixed" "b"]]
           []]).
Proof.
  apply (@update_twice (new_bug "GHSA-1234" "" "ghsa" None [])).
  reflexivity.
Defined.

Section FirstSeenMore.
Variables (A : Type) (eqb : A -> A -> bool).
Hypothesis eqb_spec : forall a b, reflect (a = b) (eqb a b).

Lemma first_seen_app_incl (l l' : list A) :
  incl l' l -> first_seen eqb (l ++ l') = first_seen eqb l.
Proof.
  induction l' as [|x l' IH] using rev_ind; intros Hincl.
  - rewrite app_nil_r. reflexivity.
  - rewrite app_assoc, (first_seen_snoc eqb_spec).
    assert (Hx : existsb (eqb x) (l ++ l') = true).
    { apply (proj2 (existsb_eqb_In eqb_spec _ _)). apply in_or_app. left.
      apply Hincl. apply in_or_app. right. left. reflexivity. }
    rewrite Hx. apply IH. intros y Hy. apply Hincl. apply in_or_app. left.
    assumption.
Qed.

Lemma first_seen_length (l : list A) :
  List.length (first_seen eqb l) <= List.length l.
Proof.
  induction l as [|a l IH]; simpl; [lia|].
  assert (H := filter_length_le (fun y => negb (eqb y a)) (first_seen eqb l)).
  lia.
Qed.
End FirstSeenMore.

Arguments first_seen_app_incl {A eqb} eqb_spec l l' _.

Lemma merged_ranges_app_incl (pairs extra : list AffectedRange.t) :
  incl extra pairs -> merged_ranges (pairs ++ extra) = merged_ranges pairs.
Proof.
  intros Hincl. unfold merged_ranges.
  rewrite map_app, (first_seen_app_incl key_eqb_spec)
    by (apply incl_map; assumption).
  apply map_ext. intros k. unfold merged_range. f_equal.
  unfold group. rewrite filter_app, flat_map_app.
  apply (first_seen_app_incl event_eqb_spec).
  intros e He. apply in_flat_map in He. destruct He as [p [Hp He]].
  apply filter_In in Hp. destruct Hp as [Hp Hk].
  apply in_flat_map. exists p. split; [|assumption].
  apply filter_In. split; [apply Hincl; assumption | assumption].
Qed.

(** X13. Pairs that the payload repeats change nothing: a payload whose
    list of pairs is followed by pairs that the list already has populates
    the record as the list alone does. *)
Theorem update_repeated_pairs (self : Bug.t) (vulnerability : Vulnerability.t)
    (pairs extra : list AffectedRange.t) :
  incl extra pairs ->
  update_from_vulnerability self (with_ranges vulnerability (pairs ++ extra)) =
  update_from_vulnerability self (with_ranges vulnerability pairs).
Proof.
  intros Hincl. rewrite !update_from_vulnerability_eq. simpl.
  rewrite (merged_ranges_app_incl Hincl). reflexivity.
Qed.

Lemma update_repeated_pairs_witness :
  update_from_vulnerability (new_bug "GHSA-1234" "" "ghsa" None [])
    (with_ranges (vulnerability_of [])
       ([AffectedRange.mk GIT "https://repo" "a" "b";
         AffectedRange.mk SEMVER "" "1.0.0" ""] ++
        [AffectedRange.mk GIT "https://repo" "a" "b"])) =
  update_from_vulnerability (new_bug "GHSA-1234" "" "ghsa" None [])
    (with_ranges (vulnerability_of [])
       [AffectedRange.mk GIT "https://repo" "a" "b";
        AffectedRange.mk SEMVER "" "1.0.0" ""]).
Proof.
  apply update_repeated_pairs. intros p [<-|[]]. left. reflexivity.
Defined.

(** ** The ranges that update_from_vulnerability stores *)

Lemma Type_Name_valid (ty : RangeType) :
  In (Type_Name ty) ["GIT"; "SEMVER"; "ECOSYSTEM"].
Proof. destruct ty; simpl; auto. Qed.

Lemma bounds_of_proper (p : AffectedRange.t) :
  Forall proper_event (bounds_of p).
Proof.
  unfold bounds_of, proper_event. constructor.
  - simpl. split; [left; reflexivity|].
    destruct (String.eqb_spec (AffectedRange.introduced p) "");
      [discriminate | assumption].
  - destruct (String.eqb_spec (AffectedRange.fixed p) ""); constructor;
      [|constructor].
    simpl. split; [right; reflexivity | assumption].
Qed.

Lemma bounds_of_length (p : AffectedRange.t) : List.length (bounds_of p) <= 2.
Proof.
  unfold bounds_of. destruct (AffectedRange.fixed p =? ""); simpl; lia.
Qed.

Lemma flat_map_bounds_length (pairs : list AffectedRange.t) :
  List.length (flat_map bounds_of pairs) <= 2 * List.length pairs.
Proof.
  induction pairs as [|p pairs IH]; [simpl; lia|].
  cbn [flat_map]. rewrite length_app. assert (H := bounds_of_length p).
  cbn [List.length]. lia.
Qed.

Lemma merged_range_proper (pairs : list AffectedRange.t) (k : string * string) :
  Forall proper_event (AffectedRange2.events (merged_range pairs k)).
Proof.
  apply Forall_forall. intros e He. simpl in He.
  apply (proj1 (first_seen_In event_eqb_spec _ _)) in He.
  apply in_flat_map in He. destruct He as [p [_ He]].
  exact (proj1 (Forall_forall _ _) (bounds_of_proper p) e He).
Qed.

(** X14. The ranges that [update_from_vulnerability] stores are well
    formed: there are at most as many ranges as the payload has pairs; the
    type of a range is one that the validator accepts; a range begins with
    an introduced event, so it is not empty; its events are introduced and
    fixed events (never limit events) with a value that is not empty; and it
    has at most two events per pair of the payload. *)
Theorem update_ranges_well_formed (self : Bug.t)
    (vulnerability : Vulnerability.t) :
  let pairs := Affects.ranges (Vulnerability.affects vulnerability) in
  exists self' package' others,
    update_from_vulnerability self vulnerability = Ok self' /\
    Bug.affected_packages self' = package' :: others /\
    List.length (AffectedPackage.ranges package') <= List.length pairs /\
    forall r, In r (AffectedPackage.ranges package') ->
      In (AffectedRange2.type r) ["GIT"; "SEMVER"; "ECOSYSTEM"] /\
      (exists v rest,
         AffectedRange2.events r = AffectedEvent.mk "introduced" v :: rest /\
         v <> "") /\
      Forall proper_event (AffectedRange2.events r) /\
      List.length (AffectedRange2.events r) <= 2 * List.length pairs.
Proof.
  intros pairs. do 3 eexists.
  split; [apply update_from_vulnerability_eq|]. split; [reflexivity|].
  fold pairs. simpl. split.
  - unfold merged_ranges. rewrite length_map.
    etransitivity; [apply first_seen_length|]. rewrite length_map.
    apply Nat.le_refl.
  - intros r Hr. unfold merged_ranges in Hr. apply in_map_iff in Hr.
    destruct Hr as [k [<- Hk]].
    apply (proj1 (first_seen_In key_eqb_spec _ _)) in Hk.
    apply in_map_iff in Hk. destruct Hk as [p [Hkey Hp]].
    split; [|split; [|split]].
    + simpl. rewrite <- Hkey. apply Type_Name_valid.
    + assert (Hg : In p (group k pairs)).
      { apply filter_In. split; [assumption|]. rewrite Hkey.
        destruct (key_eqb_spec k k); [reflexivity | contradiction]. }
      cbn [AffectedRange2.events merged_range].
      destruct (group k pairs) as [|q rest]; [contradiction|].
      cbn [flat_map]. unfold bounds_of at 1. cbn [app first_seen].
      do 2 eexists. split; [reflexivity|].
      destruct (String.eqb_spec (AffectedRange.introduced q) "");
        [discriminate | assumption].
    + apply merged_range_proper.
    + cbn [AffectedRange2.events merged_range].
      etransitivity; [apply first_seen_length|].
      etransitivity; [apply flat_map_bounds_length|].
      assert (H := filter_length_le (fun q => key_eqb (range_key q) k) pairs).
      unfold group. lia.
Qed.

(** ** The flags of a record that has been populated *)

Lemma last_fixed_In (r : AffectedRange2.t) (v : string) :
  last_fixed r = Some v ->
  exists e, In e (AffectedRange2.events r) /\
            AffectedEvent.type e = "fixed" /\ AffectedEvent.value e = v.
Proof.
  unfold last_fixed.
  destruct (rev (filter is_fixed_event (AffectedRange2.events r)))
    as [|e l] eqn:Hrev; [discriminate|].
  intros [= <-]. exists e.
  assert (He : In e (rev (filter is_fixed_event (AffectedRange2.events r)))).
  { rewrite Hrev. left. reflexivity. }
  apply in_rev, filter_In in He. destruct He as [He Hf].
  split; [assumption|]. split; [|reflexivity].
  apply String.eqb_eq. exact Hf.
Qed.

Lemma semver_index_proper (ext : External) (r : AffectedRange2.t) :
  Forall proper_event (AffectedRange2.events r) ->
  semver_index ext r = claimed_semver_index ext r.
Proof.
  intros Hall. unfold semver_index, claimed_semver_index.
  destruct (last_fixed r) as [v|] eqn:Hl; [|reflexivity].
  apply last_fixed_In in Hl. destruct Hl as [e [He [_ Hv]]].
  destruct (proj1 (Forall_forall _ _) Hall e He) as [_ Hne].
  rewrite Hv in Hne.
  destruct (String.eqb_spec v ""); [contradiction | reflexivity].
Qed.

Lemma merged_has_fixed (pairs : list AffectedRange.t) :
  existsb has_fixed (merged_ranges pairs) = true <->
  exists p, In p pairs /\ AffectedRange.fixed p <> "".
Proof.
  rewrite existsb_exists. split.
  - intros [r [Hr Hf]]. unfold merged_ranges in Hr. apply in_map_iff in Hr.
    destruct Hr as [k [<- _]]. apply has_fixed_iff in Hf.
    destruct Hf as [e [He Ht]]. simpl in He.
    apply (proj1 (first_seen_In event_eqb_spec _ _)) in He.
    apply in_flat_map in He. destruct He as [p [Hp He]].
    apply filter_In in Hp. destruct Hp as [Hp _].
    exists p. split; [assumption|]. unfold bounds_of in He.
    destruct He as [<-|He]; [discriminate|].
    destruct (String.eqb_spec (AffectedRange.fixed p) "");
      [contradiction | assumption].
  - intros [p [Hp Hf]]. exists (merged_range pairs (range_key p)). split.
    + unfold merged_ranges. apply in_map.
      apply (proj2 (first_seen_In key_eqb_spec _ _)). apply in_map. assumption.
    + apply has_fixed_iff.
      exists (AffectedEvent.mk "fixed" (AffectedRange.fixed p)).
      split; [|reflexivity]. simpl.
      apply (proj2 (first_seen_In event_eqb_spec _ _)).
      apply in_flat_map. exists p. split.
      * apply filter_In. split; [assumption|].
        destruct (key_eqb_spec (range_key p) (range_key p));
          [reflexivity | contradiction].
      * unfold bounds_of. right.
        destruct (String.eqb_spec (AffectedRange.fixed p) "");
          [contradiction | left; reflexivity].
Qed.

Lemma merged_type_has_versions (pairs : list AffectedRange.t) :
  existsb type_has_versions (merged_ranges pairs) = true <->
  exists p, In p pairs /\ AffectedRange.type p <> GIT.
Proof.
  rewrite existsb_exists. split.
  - intros [r [Hr Ht]]. unfold merged_ranges in Hr. apply in_map_iff in Hr.
    destruct Hr as [k [<- Hk]].
    apply (proj1 (first_seen_In key_eqb_spec _ _)) in Hk.
    apply in_map_iff in Hk. destruct Hk as [p [<- Hp]].
    exists p. split; [assumption|]. apply type_has_versions_iff in Ht.
    simpl in Ht. intros Hg. rewrite Hg in Ht.
    destruct Ht as [Ht|Ht]; discriminate.
  - intros [p [Hp Ht]]. exists (merged_range pairs (range_key p)). split.
    + unfold merged_ranges. apply in_map.
      apply (proj2 (first_seen_In key_eqb_spec _ _)). apply in_map. assumption.
    + apply type_has_versions_iff. simpl.
      destruct (AffectedRange.type p); [contradiction | left | right];
        reflexivity.
Qed.

(** X15. The flags of a record that has been populated from a payload and
    then saved, in terms of the payload: [is_fixed] holds iff some pair of
    the payload has a fixed bound or a range of a later package has a fixed
    event; [has_affected] holds iff the payload lists a version, or has a
    pair whose type is not GIT, or a later package has a version or a SEMVER
    or ECOSYSTEM range. *)
Theorem populated_flags (ext : External) (now : datetime) (self self' : Bug.t)
    (vulnerability : Vulnerability.t) (ident : string) :
  id self = Ok ident ->
  update_from_vulnerability self vulnerability = Ok self' ->
  let affects := Vulnerability.affects vulnerability in
  let saved := entity (_pre_put_hook ext now self') in
  let others := tl (Bug.affected_packages self) in
  (Bug.is_fixed saved = true <->
   (exists p, In p (Affects.ranges affects) /\ AffectedRange.fixed p <> "") \/
   (exists pkg r, In pkg others /\ In r (AffectedPackage.ranges pkg) /\
                  has_fixed r = true)) /\
  (Bug.has_affected saved = true <->
   Affects.versions affects <> [] \/
   (exists p, In p (Affects.ranges affects) /\ AffectedRange.type p <> GIT) \/
   (exists pkg, In pkg others /\ package_has_versions pkg = true)).
Proof.
  intros Hid Hup affects saved others.
  rewrite update_from_vulnerability_eq in Hup. injection Hup as Hup.
  assert (Hid' : id self' = Ok ident) by (rewrite <- Hup; exact Hid).
  destruct (pre_put_hook_indexes ext now self' Hid') as [_ [Hf [Ha _]]].
  fold saved in Hf, Ha. rewrite Hf, Ha. rewrite <- Hup.
  cbn [Bug.affected_packages existsb AffectedPackage.ranges].
  fold affects others. rewrite !orb_true_iff. split.
  - rewrite merged_has_fixed, existsb_exists. split.
    + intros [H|[pkg [Hp H]]]; [left; exact H|]. right.
      apply existsb_exists in H. destruct H as [r [Hr H]].
      exists pkg, r. auto.
    + intros [H|[pkg [r [Hp [Hr H]]]]]; [left; exact H|]. right.
      exists pkg. split; [assumption|]. apply existsb_exists.
      exists r. auto.
  - unfold package_has_versions at 1.
    cbn [AffectedPackage.versions AffectedPackage.ranges].
    rewrite orb_true_iff, merged_type_has_versions, existsb_exists. split.
    + intros [[H|H]|H]; [left | right; left; exact H | right; right; exact H].
      destruct (Affects.versions affects); [discriminate | discriminate].
    + intros [H|[H|H]]; [left; left | left; right; exact H | right; exact H].
      destruct (Affects.versions affects); [contradiction | reflexivity].
Qed.

Lemma populated_flags_witness :
  exists self',
    update_from_vulnerability (new_bug "GHSA-1234" "" "ghsa" None [])
      (vulnerability_of [AffectedRange.mk GIT "https://repo" "a" "b"]) =
    Ok self' /\
    Bug.is_fixed (entity (_pre_put_hook sample_external 7%N self')) = true.
Proof.
  eexists. split; [reflexivity|].
  apply (proj2 (proj1 (@populated_flags sample_external 7%N
                         (new_bug "GHSA-1234" "" "ghsa" None []) _
                         (vulnerability_of
                            [AffectedRange.mk GIT "https://repo" "a" "b"])
                         "GHSA-1234" eq_refl eq_refl))).
  left. eexists. split; [left; reflexivity | discriminate].
Defined.

(** X16. On a record that has been populated from a payload and then
    saved, the index of every SEMVER range of the payload is the normalized
    value of the last fixed event of the range, and the unfixed version only
    when the range has no fixed event: the merge stores no fixed event with
    an empty value. The ranges of later packages follow, indexed as they
    are. *)
Theorem populated_semver_indexes (ext : External) (now : datetime)
    (self self' : Bug.t) (vulnerability : Vulnerability.t) (ident : string) :
  id self = Ok ident ->
  update_from_vulnerability self vulnerability = Ok self' ->
  let pairs := Affects.ranges (Vulnerability.affects vulnerability) in
  Bug.semver_fixed_indexes (entity (_pre_put_hook ext now self')) =
  map (claimed_semver_index ext) (filter is_semver (merged_ranges pairs)) ++
  map (semver_index ext)
    (filter is_semver (all_ranges (tl (Bug.affected_packages self)))).
Proof.
  intros Hid Hup pairs.
  rewrite update_from_vulnerability_eq in Hup. injection Hup as Hup.
  assert (Hid' : id self' = Ok ident) by (rewrite <- Hup; exact Hid).
  destruct (pre_put_hook_indexes ext now self' Hid') as [_ [_ [_ [Hs _]]]].
  rewrite Hs, <- Hup. cbn [Bug.affected_packages]. unfold all_ranges at 1.
  cbn [flat_map AffectedPackage.ranges]. fold pairs.
  fold (all_ranges (tl (Bug.affected_packages self))).
  rewrite filter_app, map_app. f_equal.
  apply map_ext_in. intros r Hr. apply filter_In in Hr. destruct Hr as [Hr _].
  unfold merged_ranges in Hr. apply in_map_iff in Hr. destruct Hr as [k [<- _]].
  apply semver_index_proper. apply merged_range_proper.
Qed.

Lemma populated_semver_indexes_witness :
  exists self',
    update_from_vulnerability (new_bug "GHSA-1234" "" "ghsa" None [])
      (vulnerability_of
         [AffectedRange.mk SEMVER "" "1.0.0" "1.2.0";
          AffectedRange.mk SEMVER "" "2.0.0" ""]) = Ok self' /\
    Bug.semver_fixed_indexes (entity (_pre_put_hook sample_external 7%N self')) =
    ["1.2.0"].
Proof.
  eexists. split; [reflexivity|].
  etransitivity;
    [exact (@populated_semver_indexes sample_external 7%N
              (new_bug "GHSA-1234" "" "ghsa" None []) _
              (vulnerability_of
                 [AffectedRange.mk SEMVER "" "1.0.0" "1.2.0";
                  AffectedRange.mk SEMVER "" "2.0.0" ""])
              "GHSA-1234" eq_refl eq_refl)
    | reflexivity].
Defined.

(** ** Tokens *)

Lemma word_app (a b : string) : word (a ++ b)%string = word a && word b.
Proof.
  induction a as [|c a IH]; simpl; [reflexivity|].
  rewrite IH, andb_assoc. reflexivity.
Qed.

Lemma re_split_W_word (s cur : string) (in_sep : bool) :
  word cur = true ->
  Forall (fun t => word t = true) (re_split_W s cur in_sep).
Proof.
  revert cur in_sep. induction s as [|c s IH]; intros cur in_sep Hcur; simpl.
  - constructor; [assumption | constructor].
  - destruct (is_word_char c) eqn:Hc.
    + apply IH. rewrite word_app, Hcur. simpl. rewrite Hc. reflexivity.
    + destruct in_sep; [apply IH; assumption|].
      constructor; [assumption | apply IH; reflexivity].
Qed.

Lemma re_split_W_not_nil (s cur : string) (in_sep : bool) :
  re_split_W s cur in_sep <> [].
Proof.
  revert cur in_sep. induction s as [|c s IH]; intros cur in_sep; simpl;
    [discriminate|].
  destruct (is_word_char c); [apply IH|].
  destruct in_sep; [apply IH | discriminate].
Qed.

Lemma lower_char_twice (c : ascii) : lower_char (lower_char c) = lower_char c.
Proof. destruct c as [[] [] [] [] [] [] [] []]; reflexivity. Qed.

Lemma lower_twice (s : string) : lower (lower s) = lower s.
Proof.
  induction s as [|c s IH]; simpl; [reflexivity|].
  rewrite lower_char_twice, IH. reflexivity.
Qed.

Lemma lower_app (a b : string) :
  lower (a ++ b)%string = (lower a ++ lower b)%string.
Proof.
  induction a as [|c a IH]; simpl; [reflexivity|]. rewrite IH. reflexivity.
Qed.

Lemma lower_empty (s : string) : lower s = "" <-> s = "".
Proof. destruct s; simpl; split; intros H; try reflexivity; discriminate. Qed.

Lemma re_split_W_lower (s cur : string) (in_sep : bool) :
  lower s = s -> lower cur = cur ->
  Forall (fun t => lower t = t) (re_split_W s cur in_sep).
Proof.
  revert cur in_sep. induction s as [|c s IH]; intros cur in_sep Hs Hcur; simpl.
  - constructor; [assumption | constructor].
  - simpl in Hs. injection Hs as Hc Hs.
    destruct (is_word_char c).
    + apply IH; [assumption|]. rewrite lower_app, Hcur. simpl.
      rewrite Hc. reflexivity.
    + destruct in_sep; [apply IH; assumption|].
      constructor; [assumption | apply IH; [assumption | reflexivity]].
Qed.

Lemma lower_char_not_word (c : ascii) :
  is_word_char c = false -> lower_char c = c.
Proof.
  unfold is_word_char, lower_char. intros H.
  apply orb_false_iff in H. destruct H as [H _].
  apply orb_false_iff in H. destruct H as [H _].
  apply orb_false_iff in H. destruct H as [_ H]. rewrite H. reflexivity.
Qed.

Lemma tokenize_eq (value : string) :
  value <> "" ->
  _tokenize value = re_split_W (lower value) "" false ++ [lower value].
Proof.
  intros H. unfold _tokenize. rewrite (proj2 (truthy_true value) H).
  reflexivity.
Qed.

Lemma tokenize_lower (value t : string) :
  In t (_tokenize value) -> lower t = t.
Proof.
  intros Ht. destruct (String.eqb_spec value "") as [->|Hv]; [contradiction|].
  rewrite tokenize_eq in Ht by assumption. apply in_app_or in Ht.
  destruct Ht as [Ht|[<-|[]]]; [|apply lower_twice].
  exact (proj1 (Forall_forall _ _)
           (@re_split_W_lower (lower value) "" false (lower_twice value)
              eq_refl) t Ht).
Qed.

Lemma tokenize_empty : _tokenize "" = [].
Proof. reflexivity. Qed.

(** X17. The tokens of a value of ASCII text: there are none exactly for
    the empty value; otherwise they are the pieces of the lower-case value between the
    runs of characters that are not word characters, which all consist of
    word characters, followed by the whole lower-case value. Every token is
    in lower case, two values of ASCII text that differ in case only have
    the same tokens, and a value that begins with a character that is not a
    word character has the empty string among its tokens. *)
Theorem tokenize_tokens (value : string) :
  ascii_text value = true ->
  (_tokenize value = [] <-> value = "") /\
  (value <> "" ->
   exists pieces,
     _tokenize value = pieces ++ [lower value] /\ pieces <> [] /\
     Forall (fun t => word t = true) pieces) /\
  (forall t, In t (_tokenize value) -> lower t = t) /\
  (forall other, ascii_text other = true -> lower other = lower value ->
                 _tokenize other = _tokenize value) /\
  (forall c rest, value = String c rest -> is_word_char c = false ->
                  In "" (_tokenize value)).
Proof.
  intros _. split; [|split; [|split; [|split]]].
  - split.
    + intros H. destruct (String.eqb_spec value ""); [assumption|].
      rewrite tokenize_eq in H by assumption.
      destruct (re_split_W (lower value) "" false); discriminate.
    + intros ->. reflexivity.
  - intros Hv. exists (re_split_W (lower value) "" false).
    split; [apply tokenize_eq; assumption|].
    split; [apply re_split_W_not_nil | apply re_split_W_word; reflexivity].
  - intros t. apply tokenize_lower.
  - intros other _ Hl. destruct (String.eqb_spec value "") as [->|Hv].
    + apply (proj1 (lower_empty other)) in Hl. subst other. reflexivity.
    + assert (Ho : other <> "").
      { intros ->. symmetry in Hl. apply (proj1 (lower_empty value)) in Hl.
        contradiction. }
      rewrite !tokenize_eq by assumption. rewrite Hl. reflexivity.
  - intros c rest -> Hc. rewrite tokenize_eq by discriminate.
    apply in_or_app. left. simpl. rewrite (lower_char_not_word _ Hc), Hc.
    left. reflexivity.
Qed.

(** ** The search indices of a saved record *)

Lemma set_add_In (s : list string) (x t : string) :
  In t (set_add s x) <-> In t s \/ t = x.
Proof.
  unfold set_add. destruct (existsb (String.eqb x) s) eqn:Hex.
  - split; [auto|]. intros [H | ->]; [assumption|].
    apply existsb_exists in Hex. destruct Hex as [y [Hy Heq]].
    apply String.eqb_eq in Heq. subst y. assumption.
  - rewrite in_app_iff. simpl. split.
    + intros [H|[<-|[]]]; [left; assumption | right; reflexivity].
    + intros [H | ->]; [left; assumption | right; left; reflexivity].
Qed.

Lemma set_update_In (xs s : list string) (t : string) :
  In t (set_update s xs) <-> In t s \/ In t xs.
Proof.
  unfold set_update. revert s. induction xs as [|x xs IH]; intros s; simpl.
  - tauto.
  - rewrite IH, set_add_In. split.
    + intros [[H | ->]|H]; auto.
    + intros [H|[<-|H]]; auto.
Qed.

Lemma set_updates_In (l s : list string) (t : string) :
  In t (fold_left (fun s p => set_update s (_tokenize p)) l s) <->
  In t s \/ exists p, In p l /\ In t (_tokenize p).
Proof.
  revert s. induction l as [|p l IH]; intros s; simpl.
  - split; [auto|]. intros [H|[p [[] _]]]. assumption.
  - rewrite IH, set_update_In. split.
    + intros [[H|H]|[q [Hq H]]]; [left; assumption | right | right].
      * exists p. auto.
      * exists q. auto.
    + intros [H|[q [[<-|Hq] H]]]; [left; left; assumption | left; right | right].
      * assumption.
      * exists q. auto.
Qed.

Lemma nonempty_names_tokens (f : Package.t -> string)
    (pkgs : list AffectedPackage.t) (t : string) :
  (exists p, In p (nonempty_names f pkgs) /\ In t (_tokenize p)) <->
  (exists pkg, In pkg pkgs /\
               In t (_tokenize (f (AffectedPackage.package pkg)))).
Proof.
  unfold nonempty_names. split.
  - intros [p [Hp Ht]]. apply filter_In in Hp. destruct Hp as [Hp _].
    apply in_map_iff in Hp. destruct Hp as [pkg [<- Hpkg]]. exists pkg. auto.
  - intros [pkg [Hpkg Ht]]. exists (f (AffectedPackage.package pkg)).
    split; [|assumption]. apply filter_In. split.
    + apply in_map_iff. exists pkg. auto.
    + apply (proj2 (truthy_true _)). intros Hempty. rewrite Hempty in Ht.
      exact Ht.
Qed.

Lemma sorted_strings_In (s : list string) (t : string) :
  In t (sorted_strings s) <-> In t s.
Proof.
  unfold sorted_strings.
  assert (Hp := sorted_Permutation String.ltb (fun x : string => x) s).
  split; intros H.
  - eapply Permutation_in; [exact Hp | exact H].
  - eapply Permutation_in; [symmetry; exact Hp | exact H].
Qed.

Lemma derive_search_indices (ext : External) (now : datetime) (self : Bug.t)
    (ident t : string) :
  In t (Bug.search_indices (derive ext now self ident)) <->
  In t (_tokenize ident) \/
  exists pkg, In pkg (Bug.affected_packages self) /\
    (In t (_tokenize (Package.name (AffectedPackage.package pkg))) \/
     In t (_tokenize (Package.ecosystem (AffectedPackage.package pkg)))).
Proof.
  cbn [derive Bug.search_indices]. rewrite sorted_strings_In.
  destruct (Bug.affected_packages self) as [|pkg0 pkgs] eqn:Hpk.
  - rewrite set_update_In. split.
    + intros [[]|H]. left. assumption.
    + intros [H|[pkg [[] _]]]. right. assumption.
  - rewrite !set_updates_In, set_update_In, !nonempty_names_tokens. split.
    + intros [[[[]|H]|[pkg [Hp H]]]|[pkg [Hp H]]];
        [left; assumption | right; exists pkg; auto | right; exists pkg; auto].
    + intros [H|[pkg [Hp [H|H]]]];
        [left; left; right; assumption | left; right; exists pkg; auto
        | right; exists pkg; auto].
Qed.

(** X18. On a record whose identifier, package names and ecosystems are
    ASCII text, the search indices that the derivation pass leaves are
    exactly the tokens of the identifier and of the names and the
    ecosystems of the affected packages; the package URLs give none. All of
    them are in lower case, and an identifier that is not empty is, in lower
    case, one of them. *)
Theorem search_indices_members (ext : External) (now : datetime)
    (self : Bug.t) (ident : string) :
  id self = Ok ident ->
  ascii_text ident = true ->
  (forall pkg, In pkg (Bug.affected_packages self) ->
     ascii_text (Package.name (AffectedPackage.package pkg)) = true /\
     ascii_text (Package.ecosystem (AffectedPackage.package pkg)) = true) ->
  let saved := entity (_pre_put_hook ext now self) in
  (forall t,
     In t (Bug.search_indices saved) <->
     In t (_tokenize ident) \/
     exists pkg, In pkg (Bug.affected_packages self) /\
       (In t (_tokenize (Package.name (AffectedPackage.package pkg))) \/
        In t (_tokenize (Package.ecosystem (AffectedPackage.package pkg))))) /\
  (forall t, In t (Bug.search_indices saved) -> lower t = t) /\
  (ident <> "" -> In (lower ident) (Bug.search_indices saved)).
Proof.
  intros Hid _ _ saved.
  assert (Hs : Bug.search_indices saved =
               Bug.search_indices (derive ext now self ident)).
  { unfold saved, _pre_put_hook. rewrite Hid.
    destruct (validate_entity ext (derive ext now self ident)) as [-> | [k ->]];
      reflexivity. }
  rewrite Hs. split; [|split].
  - intros t. apply derive_search_indices.
  - intros t Ht. apply derive_search_indices in Ht.
    destruct Ht as [Ht|[pkg [_ [Ht|Ht]]]];
      exact (tokenize_lower _ _ Ht).
  - intros Hne. apply derive_search_indices. left.
    rewrite tokenize_eq by assumption.
    apply in_or_app. right. left. reflexivity.
Qed.

Lemma search_indices_members_witness :
  In "left-pad"
    (Bug.search_indices
       (entity (_pre_put_hook sample_external 7%N
                  (new_bug "GHSA-1234" "" "ghsa" None
                     [AffectedPackage.mk (Package.mk "npm" "Left-Pad" "pkg:npm/x")
                        [] []])))).
Proof.
  apply (proj2 (proj1 (@search_indices_members sample_external 7%N
                         (new_bug "GHSA-1234" "" "ghsa" None
                            [AffectedPackage.mk
                               (Package.mk "npm" "Left-Pad" "pkg:npm/x") [] []])
                         "GHSA-1234" eq_refl eq_refl
                         ltac:(intros pkg [<-|[]]; split; reflexivity))
                "left-pad")).
  right. eexists. split; [left; reflexivity|]. left. simpl. auto.
Defined.

(** ** What a saved record looks like *)

(** X19. A record that the derivation pass accepts has an identifier, a
    source, a key and a modification time. The pass keeps the identifier,
    a key that the record already had, the affected packages and the fields
    that describe the vulnerability; the source is the one that the source
    id names when there is a source id; and [id()] of the saved record is
    its identifier. *)
Theorem saved_record (ext : External) (now : datetime) (self saved : Bug.t) :
  _pre_put_hook ext now self = Done saved ->
  Bug.db_id saved = Bug.db_id self /\ Bug.db_id saved <> "" /\
  Bug.source saved = provenance ext self /\ Bug.source saved <> "" /\
  (exists k, Bug.key saved = Some k) /\
  (forall k, Bug.key self = Some k -> Bug.key saved = Some k) /\
  (exists t, Bug.last_modified saved = Some t) /\
  id saved = Ok (Bug.db_id self) /\
  Bug.affected_packages saved = Bug.affected_packages self /\
  (Bug.aliases saved, Bug.related saved, Bug.timestamp saved,
   Bug.withdrawn saved, Bug.source_id saved, Bug.summary saved,
   Bug.details saved, Bug.severity saved) =
  (Bug.aliases self, Bug.related self, Bug.timestamp self,
   Bug.withdrawn self, Bug.source_id self, Bug.summary self,
   Bug.details self, Bug.severity self).
Proof.
  unfold _pre_put_hook. destruct (id self) as [ident|e]; [|discriminate].
  unfold validate.
  change (Bug.source (derive ext now self ident)) with (provenance ext self).
  change (Bug.db_id (derive ext now self ident)) with (Bug.db_id self).
  change (Bug.key (derive ext now self ident)) with (Bug.key self).
  destruct (truthy (provenance ext self)) eqn:Hs; [|discriminate].
  destruct (truthy (Bug.db_id self)) eqn:Hd; [|discriminate].
  apply truthy_true in Hs, Hd. cbn [negb].
  assert (Hm : exists t, Bug.last_modified (derive ext now self ident) = Some t).
  { cbn [derive Bug.last_modified].
    destruct (Bug.last_modified self) as [t|]; eexists; reflexivity. }
  assert (Hid : forall k, id (Bug.set_key (derive ext now self ident) k) =
                          Ok (Bug.db_id self)).
  { intros k. unfold id. cbn [Bug.set_key Bug.db_id derive].
    rewrite (proj2 (truthy_true _) Hd). reflexivity. }
  destruct (Bug.key self) as [k|] eqn:Hk.
  - intros [= <-]. repeat split; try assumption.
    + exists k. exact Hk.
    + intros k' [= <-]. exact Hk.
    + unfold id. cbn [Bug.db_id derive].
      rewrite (proj2 (truthy_true _) Hd). reflexivity.
  - destruct (get_source_repository ext (provenance ext self)) as [repo|];
      [|discriminate].
    intros [= <-]. repeat split; try assumption.
    + eexists. reflexivity.
    + intros k' [=].
    + apply Hid.
Qed.

Lemma saved_record_witness :
  exists saved,
    _pre_put_hook sample_external 7%N
      (new_bug "GHSA-1234" "ghsa:left-pad/GHSA-1234.yaml" "" None []) =
    Done saved /\
    Bug.source saved = "ghsa" /\ Bug.last_modified saved = Some 7%N.
Proof.
  eexists. split; [reflexivity|].
  split; [|reflexivity].
  exact (proj1 (proj2 (proj2 (@saved_record sample_external 7%N
                                (new_bug "GHSA-1234"
                                   "ghsa:left-pad/GHSA-1234.yaml" "" None [])
                                _ eq_refl)))).
Defined.

(** X20. The key of a record that has none, once it has an identifier and
    a source: when the source names no repository the pass raises "Invalid
    source" and the record stays without key; otherwise the key is the
    identifier itself when the repository has a prefix that is not empty and
    the identifier begins with it, and the source, a colon and the
    identifier in every other case, an empty prefix among them. *)
Theorem key_allocation (ext : External) (now : datetime) (self : Bug.t) :
  Bug.db_id self <> "" -> provenance ext self <> "" -> Bug.key self = None ->
  (get_source_repository ext (provenance ext self) = None ->
   exists self',
     _pre_put_hook ext now self =
     Raised (ValueError ("Invalid source " ++ provenance ext self)%string) self'
     /\ Bug.key self' = None) /\
  (forall repo,
     get_source_repository ext (provenance ext self) = Some repo ->
     exists saved,
       _pre_put_hook ext now self = Done saved /\
       (SourceRepository.db_prefix repo <> "" ->
        prefix (SourceRepository.db_prefix repo) (Bug.db_id self) = true ->
        Bug.key saved = Some (Bug.db_id self)) /\
       (SourceRepository.db_prefix repo = "" \/
        prefix (SourceRepository.db_prefix repo) (Bug.db_id self) = false ->
        Bug.key saved =
        Some (provenance ext self ++ ":" ++ Bug.db_id self)%string)).
Proof.
  intros Hd Hs Hk. unfold _pre_put_hook, id.
  rewrite (proj2 (truthy_true _) Hd). unfold validate.
  change (Bug.source (derive ext now self (Bug.db_id self)))
    with (provenance ext self).
  change (Bug.db_id (derive ext now self (Bug.db_id self)))
    with (Bug.db_id self).
  change (Bug.key (derive ext now self (Bug.db_id self))) with (Bug.key self).
  rewrite (proj2 (truthy_true _) Hs), (proj2 (truthy_true _) Hd), Hk.
  cbn [negb]. split.
  - intros ->. eexists. split; [reflexivity | exact Hk].
  - intros repo ->. eexists. split; [reflexivity|].
    cbn [Bug.set_key Bug.key]. split.
    + intros Hp Hpre. rewrite (proj2 (truthy_true _) Hp), Hpre. reflexivity.
    + intros [Hp|Hpre].
      * rewrite (proj2 (truthy_false _) Hp). reflexivity.
      * rewrite Hpre, andb_false_r. reflexivity.
Qed.

Lemma key_allocation_witness :
  exists saved,
    _pre_put_hook sample_external 7%N
      (new_bug "GHSA-1234" "" "ghsa" None []) = Done saved /\
    Bug.key saved = Some "GHSA-1234".
Proof.
  destruct (proj2 (@key_allocation sample_external 7%N
                     (new_bug "GHSA-1234" "" "ghsa" None [])
                     ltac:(discriminate) ltac:(discriminate) eq_refl)
              (SourceRepository.mk "ghsa" "https://github.com/" "GHSA-")
              eq_refl)
    as [saved [Hok [Hkey _]]].
  exists saved. split; [exact Hok|].
  apply Hkey; [discriminate | reflexivity].
Defined.

(** ** Looking a record up by its identifier *)

Lemma substring_all (s : string) : substring 0 (String.length s) s = s.
Proof.
  induction s as [|c s IH]; simpl; [reflexivity|]. rewrite IH. reflexivity.
Qed.

Lemma strip_osv_prefix (k : string) :
  substring (String.length Bug.OSV_ID_PREFIX)
    (String.length (Bug.OSV_ID_PREFIX ++ k) - String.length Bug.OSV_ID_PREFIX)
    (Bug.OSV_ID_PREFIX ++ k) = k.
Proof.
  change (substring 0 (String.length k - 0) k = k).
  rewrite Nat.sub_0_r. apply substring_all.
Qed.

Lemma prefix_osv (k : string) :
  prefix Bug.OSV_ID_PREFIX (Bug.OSV_ID_PREFIX ++ k) = true.
Proof. change (prefix "" k = true). destruct k; reflexivity. Qed.

(** X21. [get_by_id] finds a record by the value of its [id()]: a record
    with an identifier, when the query by identifier gives it; and a legacy
    record, which has a key only, when no record has that identifier and
    the key, which must not begin with the OSV prefix itself, leads to it.
    For a key that begins with a digit this undoes the prefix that [id()]
    has put before it. *)
Theorem get_by_id_of_id (ds : Datastore) (self : Bug.t) (ident : string) :
  id self = Ok ident ->
  (Bug.db_id self <> "" -> query_db_id ds (Bug.db_id self) = Some self ->
   get_by_id ds ident = Some self) /\
  (forall k,
     Bug.db_id self = "" -> Bug.key self = Some k ->
     prefix Bug.OSV_ID_PREFIX k = false ->
     query_db_id ds ident = None -> get_by_key ds k = Some self ->
     get_by_id ds ident = Some self).
Proof.
  intros Hid. unfold id in Hid. split.
  - intros Hd Hq. rewrite (proj2 (truthy_true _) Hd) in Hid.
    injection Hid as <-. unfold get_by_id. rewrite Hq. reflexivity.
  - intros k Hd Hk Hpre Hq Hget.
    rewrite (proj2 (truthy_false _) Hd), Hk in Hid.
    unfold get_by_id. rewrite Hq. cbv zeta.
    destruct (starts_with_digits k); injection Hid as <-.
    + assert (Hp := prefix_osv k). assert (Hs := strip_osv_prefix k).
      cbv [Bug.OSV_ID_PREFIX append] in Hp, Hs |- *.
      rewrite Hp, Hs. exact Hget.
    + rewrite Hpre. exact Hget.
Qed.

Lemma get_by_id_of_id_witness :
  get_by_id
    {| query_db_id := fun _ => None;
       get_by_key := fun k =>
         if k =? "2020-111" then Some (new_bug "" "" "oss-fuzz" (Some "2020-111") [])
         else None |}
    "OSV-2020-111" =
  Some (new_bug "" "" "oss-fuzz" (Some "2020-111") []).
Proof.
  apply (proj2 (@get_by_id_of_id
                  {| query_db_id := fun _ => None;
                     get_by_key := fun k =>
                       if k =? "2020-111"
                       then Some (new_bug "" "" "oss-fuzz" (Some "2020-111") [])
                       else None |}
                  (new_bug "" "" "oss-fuzz" (Some "2020-111") [])
                  "OSV-2020-111" eq_refl) "2020-111");
    reflexivity.
Defined.

(** ** The repository of a record *)

Lemma ranges_repo_url_spec (ranges : list AffectedRange2.t) :
  ranges_repo_url ranges =
  match flat_map (fun r => match repository r with
                           | Some url => [url]
                           | None => []
                           end) ranges with
  | url :: _ => Some url
  | [] => None
  end.
Proof.
  induction ranges as [|r ranges IH]; [reflexivity|].
  cbn [ranges_repo_url flat_map]. unfold repository at 1.
  destruct (AffectedRange2.repo_url r) as [url|]; [|exact IH].
  destruct (truthy url); [reflexivity | exact IH].
Qed.

Lemma ranges_repo_url_None (ranges : list AffectedRange2.t) :
  ranges_repo_url ranges = None <->
  forall r, In r ranges -> repository r = None.
Proof.
  induction ranges as [|r ranges IH]; cbn [ranges_repo_url].
  - split; [intros _ r [] | reflexivity].
  - unfold repository in *.
    destruct (AffectedRange2.repo_url r) as [url|] eqn:Hr.
    + destruct (truthy url) eqn:Ht.
      * split; [discriminate|]. intros H.
        specialize (H r (or_introl eq_refl)). rewrite Hr, Ht in H.
        discriminate.
      * rewrite IH. split.
        -- intros H r' [<-|Hin]; [rewrite Hr, Ht; reflexivity | auto].
        -- intros H r' Hin. apply H. right. assumption.
    + rewrite IH. split.
      * intros H r' [<-|Hin]; [rewrite Hr; reflexivity | auto].
      * intros H r' Hin. apply H. right. assumption.
Qed.

Lemma ranges_repo_url_Some (ranges : list AffectedRange2.t) (url : string) :
  ranges_repo_url ranges = Some url ->
  exists before r after,
    ranges = before ++ r :: after /\ repository r = Some url /\
    forall r', In r' before -> repository r' = None.
Proof.
  induction ranges as [|r ranges IH]; cbn [ranges_repo_url]; [discriminate|].
  intros H.
  assert (Hcases : repository r = Some url \/
                   (repository r = None /\ ranges_repo_url ranges = Some url)).
  { unfold repository. destruct (AffectedRange2.repo_url r) as [u|]; [|auto].
    destruct (truthy u); auto. }
  destruct Hcases as [Hr|[Hr Hrest]].
  - exists [], r, ranges. split; [reflexivity|]. split; [assumption|].
    intros r' [].
  - destruct (IH Hrest) as [before [r0 [after [-> [Hr0 Hb]]]]].
    exists (r :: before), r0, after. split; [reflexivity|].
    split; [assumption|]. intros r' [<-|Hin]; auto.
Qed.

Lemma packages_repo_url_ranges (pkgs : list AffectedPackage.t) :
  packages_repo_url pkgs = ranges_repo_url (all_ranges pkgs).
Proof.
  induction pkgs as [|pkg pkgs IH]; [reflexivity|].
  cbn [packages_repo_url]. unfold all_ranges. cbn [flat_map].
  fold (all_ranges pkgs). rewrite IH.
  induction (AffectedPackage.ranges pkg) as [|r ranges IHr]; [reflexivity|].
  cbn [ranges_repo_url app].
  destruct (AffectedRange2.repo_url r) as [url|]; [|exact IHr].
  destruct (truthy url); [reflexivity | exact IHr].
Qed.

(** X22. [repo_url] is the repository of the first range, in the order of
    the packages and of their ranges, whose repository is set and not
    empty: the ranges before it have none. It is [None] exactly when no
    range of the record has such a repository, and it is never the empty
    string. *)
Theorem repo_url_first (self : Bug.t) :
  (repo_url self = None <->
   forall r, In r (all_ranges (Bug.affected_packages self)) ->
             repository r = None) /\
  (forall url, repo_url self = Some url ->
     url <> "" /\
     exists before r after,
       all_ranges (Bug.affected_packages self) = before ++ r :: after /\
       AffectedRange2.repo_url r = Some url /\
       forall r', In r' before -> repository r' = None).
Proof.
  unfold repo_url. rewrite packages_repo_url_ranges. split.
  - apply ranges_repo_url_None.
  - intros url H. apply ranges_repo_url_Some in H.
    destruct H as [before [r [after [Heq [Hr Hb]]]]].
    unfold repository in Hr.
    destruct (AffectedRange2.repo_url r) as [u|] eqn:Hu; [|discriminate].
    destruct (truthy u) eqn:Ht; [|discriminate]. injection Hr as ->.
    split; [apply truthy_true; assumption|].
    exists before, r, after. auto.
Qed.

Lemma filter_filter_imp (A : Type) (P Q : A -> bool) (l : list A) :
  (forall x, P x = true -> Q x = true) ->
  filter P (filter Q l) = filter P l.
Proof.
  intros H. induction l as [|x l IH]; simpl; [reflexivity|].
  destruct (Q x) eqn:Hq; simpl.
  - rewrite IH. reflexivity.
  - destruct (P x) eqn:Hp; [|exact IH].
    rewrite (H x Hp) in Hq. discriminate.
Qed.

Lemma first_seen_filter_hd (A : Type) (eqb : A -> A -> bool)
    (eqb_spec : forall a b, reflect (a = b) (eqb a b)) (P : A -> bool)
    (l : list A) :
  hd_error (filter P (first_seen eqb l)) = hd_error (filter P l).
Proof.
  induction l as [|x l IH]; [reflexivity|].
  cbn [first_seen filter]. destruct (P x) eqn:Hp; [reflexivity|].
  rewrite filter_filter_imp; [exact IH|].
  intros y Hy. destruct (eqb_spec y x) as [->|]; [congruence | reflexivity].
Qed.

Lemma merged_repo_url (pairs : list AffectedRange.t)
    (ks : list (string * string)) :
  ranges_repo_url (map (merged_range pairs) ks) =
  option_map snd
    (hd_error (filter (fun k => (fst k =? "GIT") && negb (snd k =? "")) ks)).
Proof.
  induction ks as [|k ks IH]; [reflexivity|].
  cbn [map ranges_repo_url filter merged_range AffectedRange2.repo_url].
  destruct ((fst k =? "GIT") && negb (snd k =? "")) eqn:Hk.
  - apply andb_true_iff in Hk. destruct Hk as [_ Hk]. unfold truthy.
    rewrite Hk. reflexivity.
  - exact IH.
Qed.

Lemma filter_map_swap (A B : Type) (f : A -> B) (P : B -> bool) (l : list A) :
  filter P (map f l) = map f (filter (fun x => P (f x)) l).
Proof.
  induction l as [|x l IH]; simpl; [reflexivity|].
  destruct (P (f x)); simpl; rewrite IH; reflexivity.
Qed.

(** X23. The repository of a record that has been populated from a
    payload: the repository of the first pair of the payload that is of type
    GIT and has a repository; when the payload has no such pair, the
    repository that the later packages of the record give. *)
Theorem populated_repo_url (self self' : Bug.t)
    (vulnerability : Vulnerability.t) :
  update_from_vulnerability self vulnerability = Ok self' ->
  repo_url self' =
  match filter has_repository
          (Affects.ranges (Vulnerability.affects vulnerability)) with
  | p :: _ => Some (AffectedRange.repo p)
  | [] => packages_repo_url (tl (Bug.affected_packages self))
  end.
Proof.
  rewrite update_from_vulnerability_eq. intros [= <-].
  unfold repo_url.
  cbn [Bug.affected_packages packages_repo_url AffectedPackage.ranges].
  unfold merged_ranges. rewrite merged_repo_url.
  rewrite (@first_seen_filter_hd _ key_eqb key_eqb_spec), filter_map_swap.
  assert (Hext : forall l,
            filter (fun x => (fst (range_key x) =? "GIT")
                             && negb (snd (range_key x) =? "")) l =
            filter has_repository l).
  { intros l. apply filter_ext. intros p. unfold has_repository, truthy.
    simpl. destruct (AffectedRange.type p); reflexivity. }
  rewrite Hext.
  destruct (filter has_repository
              (Affects.ranges (Vulnerability.affects vulnerability)));
    reflexivity.
Qed.

Lemma populated_repo_url_witness :
  exists self',
    update_from_vulnerability (new_bug "GHSA-1234" "" "ghsa" None [])
      (vulnerability_of
         [AffectedRange.mk SEMVER "https://other" "1.0.0" "";
          AffectedRange.mk GIT "https://repo" "a" "b"]) = Ok self' /\
    repo_url self' = Some "https://repo".
Proof.
  eexists. split; [reflexivity|].
  etransitivity;
    [exact (@populated_repo_url (new_bug "GHSA-1234" "" "ghsa" None []) _
              (vulnerability_of
                 [AffectedRange.mk SEMVER "https://other" "1.0.0" "";
                  AffectedRange.mk GIT "https://repo" "a" "b"]) eq_refl)
    | reflexivity].
Defined.

(** ** Where the bounds of the exported pairs come from *)

Section Drawn.
Variables (range_type : string) (fresh : AffectedRange.t).
Variable all : list AffectedEvent.t.
Hypothesis fresh_introduced : AffectedRange.introduced fresh = "".
Hypothesis fresh_fixed : AffectedRange.fixed fresh = "".

Lemma drawn_fresh : drawn_from all fresh.
Proof. split; left; assumption. Qed.

Lemma drawn_set_introduced (cur_range : AffectedRange.t)
    (event : AffectedEvent.t) :
  In event all -> AffectedEvent.type event = "introduced" ->
  AffectedRange.fixed cur_range = "" ->
  drawn_from all
    (AffectedRange.set_introduced cur_range
       (if AffectedEvent.value event =? "0" then ""
        else AffectedEvent.value event)).
Proof.
  intros Hin Hty Hfx. split; simpl.
  - destruct (AffectedEvent.value event =? "0"); [left; reflexivity|].
    right. exists event. auto.
  - left. assumption.
Qed.

Lemma pair_event_drawn (cur_range : AffectedRange.t) (event : AffectedEvent.t) :
  In event all -> drawn_from all cur_range ->
  AffectedRange.fixed cur_range = "" ->
  let st := pair_event range_type fresh ([], cur_range) event in
  drawn_from all (snd st) /\ AffectedRange.fixed (snd st) = "" /\
  Forall (drawn_from all) (fst st).
Proof.
  intros Hin Hcur Hfx. rewrite (@pair_event_cases range_type fresh fresh_introduced).
  destruct (String.eqb_spec (AffectedEvent.type event) "introduced") as [Hi|Hi].
  - destruct (truthy (AffectedRange.introduced cur_range)).
    + destruct (range_type =? "GIT"); cbn [fst snd].
      * split; [apply drawn_set_introduced; assumption|].
        split; [assumption|]. constructor; [assumption | constructor].
      * split; [assumption|]. split; [assumption | constructor].
    + cbn [fst snd]. split; [apply drawn_set_introduced; assumption|].
      split; [assumption | constructor].
  - destruct (String.eqb_spec (AffectedEvent.type event) "fixed") as [Hf|Hf];
      cbn [fst snd].
    + split; [apply drawn_fresh|]. split; [assumption|].
      constructor; [|constructor]. split; [exact (proj1 Hcur)|].
      right. exists event. auto.
    + split; [assumption|]. split; [assumption | constructor].
Qed.

Lemma fold_pair_event_drawn (events : list AffectedEvent.t) :
  forall cur_range,
  incl events all -> drawn_from all cur_range ->
  AffectedRange.fixed cur_range = "" ->
  let st := fold_left (pair_event range_type fresh) events ([], cur_range) in
  drawn_from all (snd st) /\ Forall (drawn_from all) (fst st).
Proof.
  induction events as [|e events IH]; intros cur Hincl Hcur Hfx.
  - simpl. split; [assumption | constructor].
  - cbn [fold_left].
    destruct (@pair_event_drawn cur e (Hincl e (or_introl eq_refl)) Hcur Hfx)
      as [H1 [H2 H3]].
    destruct (pair_event range_type fresh ([], cur) e) as [em cur'].
    cbn [fst snd] in *. rewrite fold_pair_event_prefix.
    destruct (IH cur' (fun x Hx => Hincl x (or_intror Hx)) H1 H2) as [I1 I2].
    cbn [fst snd]. split; [assumption|].
    apply Forall_app. split; assumption.
Qed.

Lemma pair_events_drawn (events : list AffectedEvent.t) :
  incl events all ->
  Forall (drawn_from all) (pair_events range_type fresh [] events).
Proof.
  intros Hincl. unfold pair_events.
  destruct (@fold_pair_event_drawn events fresh Hincl drawn_fresh fresh_fixed)
    as [H1 H2].
  destruct (fold_left (pair_event range_type fresh) events ([], fresh))
    as [em cur].
  cbn [fst snd] in *. unfold close_range.
  destruct (truthy (AffectedRange.introduced cur)); [|assumption].
  apply Forall_app. split; [assumption|]. constructor; [assumption | constructor].
Qed.
End Drawn.

Lemma export_range_drawn (ext : External) (ecosystem : string)
    (r r' : AffectedRange2.t) (pairs : list AffectedRange.t) :
  export_range ext ecosystem [] r = Ok (pairs, r') ->
  Forall (drawn_from (AffectedRange2.events r)) pairs.
Proof.
  intros Hexp. destruct (export_range_inv _ _ _ _ Hexp)
    as [fresh [events [events' [Hn [Hs [Hout _]]]]]].
  simpl in Hout. subst pairs.
  destruct (new_range_inv _ Hn) as [_ [_ [Hi Hf]]].
  destruct (sorted_events_sub _ _ _ _ Hs) as [Hincl _].
  apply pair_events_drawn; assumption.
Qed.

(** X24. The export invents no bound: every exported pair comes from a
    range of the first package whose events hold its bounds; the
    introduced bound of the pair is empty or the value of an introduced
    event of that range, and its fixed bound is empty or the value of a
    fixed event of that range. *)
Theorem export_bounds_from_events (ext : External) (self : Bug.t)
    (affects : Affects.t) (pkg : AffectedPackage.t)
    (others : list AffectedPackage.t) :
  Bug.affected_packages self = pkg :: others ->
  exported ext self = Ok affects ->
  forall p, In p (Affects.ranges affects) ->
    exists r,
      In r (AffectedPackage.ranges pkg) /\
      AffectedRange2.type r = Type_Name (AffectedRange.type p) /\
      drawn_from (AffectedRange2.events r) p.
Proof.
  intros Hp Hexp p Hin.
  destruct (exported_pair_inv _ _ _ Hp Hexp Hin) as [r [ps [r' [Hr [He Hps]]]]].
  destruct (export_range_facts _ _ _ He)
    as [fresh [events [events' [Hn [_ [Hall _]]]]]].
  rewrite Forall_forall in Hall. destruct (Hall p Hps) as [[Hty _] _].
  destruct (new_range_inv _ Hn) as [Htv _].
  exists r. split; [assumption|]. split.
  - rewrite Hty. apply Type_Value_inv. assumption.
  - exact (proj1 (Forall_forall _ _) (export_range_drawn _ _ _ He) p Hps).
Qed.

Lemma export_bounds_from_events_witness :
  exists r,
    In r [AffectedRange2.mk "SEMVER" None
            [AffectedEvent.mk "fixed" "1.2.0"; AffectedEvent.mk "introduced" "1.0.0"]]
    /\ AffectedRange2.type r = "SEMVER" /\
    drawn_from (AffectedRange2.events r) (AffectedRange.mk SEMVER "" "1.0.0" "1.2.0").
Proof.
  exact (@export_bounds_from_events sample_external
           (one_range_bug "SEMVER"
              [AffectedEvent.mk "fixed" "1.2.0";
               AffectedEvent.mk "introduced" "1.0.0"])
           (Affects.mk [] [AffectedRange.mk SEMVER "" "1.0.0" "1.2.0"])
           _ _ eq_refl eq_refl
           (AffectedRange.mk SEMVER "" "1.0.0" "1.2.0") (or_introl eq_refl)).
Defined.

Lemma merged_range_pair (ext : External) (ecosystem : string)
    (pairs ps : list AffectedRange.t) (k : string * string)
    (r' : AffectedRange2.t) (p : AffectedRange.t) :
  export_range ext ecosystem [] (merged_range pairs k) = Ok (ps, r') ->
  In p ps ->
  (AffectedRange.type p = GIT \/ AffectedRange.repo p = "") /\
  (AffectedRange.introduced p = "" \/
   exists q, In q pairs /\ AffectedRange.type q = AffectedRange.type p /\
             (AffectedRange.type p = GIT ->
              AffectedRange.repo q = AffectedRange.repo p) /\
             AffectedRange.introduced q = AffectedRange.introduced p) /\
  (AffectedRange.fixed p = "" \/
   exists q, In q pairs /\ AffectedRange.type q = AffectedRange.type p /\
             (AffectedRange.type p = GIT ->
              AffectedRange.repo q = AffectedRange.repo p) /\
             AffectedRange.fixed q = AffectedRange.fixed p).
Proof.
  intros He Hps.
  destruct (export_range_facts _ _ _ He)
    as [fresh [events [events' [Hn [_ [Hall _]]]]]].
  rewrite Forall_forall in Hall.
  destruct (Hall p Hps) as [[Hty Hrepo] [Hz _]].
  destruct (new_range_inv _ Hn) as [Htv [Hrp _]].
  apply Type_Value_inv in Htv. rewrite <- Hty in Htv. rewrite <- Hrepo in Hrp.
  cbn [merged_range AffectedRange2.type AffectedRange2.repo_url] in Htv, Hrp.
  destruct (proj1 (Forall_forall _ _) (export_range_drawn _ _ _ He) p Hps)
    as [Hdi Hdf].
  cbn [merged_range AffectedRange2.events] in Hdi, Hdf.
  assert (Hq : forall e, In e (first_seen AffectedEvent.eqb
                                 (flat_map bounds_of (group k pairs))) ->
               exists q, In q pairs /\
                         AffectedRange.type q = AffectedRange.type p /\
                         (AffectedRange.type p = GIT ->
                          AffectedRange.repo q = AffectedRange.repo p) /\
                         In e (bounds_of q)).
  { intros e He'. apply (proj1 (first_seen_In event_eqb_spec _ _)) in He'.
    apply in_flat_map in He'. destruct He' as [q [Hq He']].
    apply group_In in Hq. destruct Hq as [Hq Hk]. exists q.
    split; [assumption|]. split; [|split; [|assumption]].
    - apply Type_Name_inj. rewrite <- Htv, <- Hk. reflexivity.
    - intros Hg. rewrite Hg in Htv. rewrite Hrp, Htv. simpl.
      rewrite <- Hk. simpl.
      destruct (String.eqb_spec (AffectedRange.repo q) ""); simpl; auto. }
  split; [|split].
  - rewrite Hrp. destruct (String.eqb_spec (fst k) "GIT") as [Hg|Hg]; simpl.
    + left. apply Type_Name_inj. rewrite <- Htv. exact Hg.
    + right. reflexivity.
  - destruct Hdi as [Hdi|[e [He' [Het Hev]]]]; [left; assumption|]. right.
    destruct (Hq e He') as [q [Hq1 [Hq2 [Hq3 Hq4]]]].
    exists q. split; [assumption|]. split; [assumption|].
    split; [assumption|].
    unfold bounds_of in Hq4. destruct Hq4 as [Heq|Hq4].
    + rewrite <- Heq in Hev. simpl in Hev.
      destruct (String.eqb_spec (AffectedRange.introduced q) "");
        [|assumption].
      symmetry in Hev. contradiction.
    + destruct (AffectedRange.fixed q =? ""); [contradiction|].
      destruct Hq4 as [Heq|[]]. rewrite <- Heq in Het. discriminate.
  - destruct Hdf as [Hdf|[e [He' [Het Hev]]]]; [left; assumption|]. right.
    destruct (Hq e He') as [q [Hq1 [Hq2 [Hq3 Hq4]]]].
    exists q. split; [assumption|]. split; [assumption|].
    split; [assumption|].
    unfold bounds_of in Hq4. destruct Hq4 as [Heq|Hq4].
    + rewrite <- Heq in Het. discriminate.
    + destruct (AffectedRange.fixed q =? ""); [contradiction|].
      destruct Hq4 as [Heq|[]]. rewrite <- Heq in Hev. exact Hev.
Qed.

(** X25. What comes back from a payload that is stored and exported: a
    pair that is not of type GIT comes back without repository, and every
    bound of a pair that comes back is a bound of a pair of the payload of
    the same type and, for GIT, of the same repository. The round trip may
    pair the bounds anew, but it invents none. *)
Theorem round_trip_bounds (ext : External) (self self' : Bug.t)
    (vulnerability : Vulnerability.t) (affects : Affects.t) :
  update_from_vulnerability self vulnerability = Ok self' ->
  exported ext self' = Ok affects ->
  let pairs := Affects.ranges (Vulnerability.affects vulnerability) in
  forall p, In p (Affects.ranges affects) ->
    (AffectedRange.type p = GIT \/ AffectedRange.repo p = "") /\
    (AffectedRange.introduced p = "" \/
     exists q, In q pairs /\ AffectedRange.type q = AffectedRange.type p /\
               (AffectedRange.type p = GIT ->
                AffectedRange.repo q = AffectedRange.repo p) /\
               AffectedRange.introduced q = AffectedRange.introduced p) /\
    (AffectedRange.fixed p = "" \/
     exists q, In q pairs /\ AffectedRange.type q = AffectedRange.type p /\
               (AffectedRange.type p = GIT ->
                AffectedRange.repo q = AffectedRange.repo p) /\
               AffectedRange.fixed q = AffectedRange.fixed p).
Proof.
  intros Hup Hexp pairs p Hin.
  rewrite update_from_vulnerability_eq in Hup. injection Hup as Hup.
  assert (Hp : Bug.affected_packages self' =
               AffectedPackage.mk (Vulnerability.package vulnerability)
                 (merged_ranges pairs)
                 (Affects.versions (Vulnerability.affects vulnerability))
               :: tl (Bug.affected_packages self))
    by (rewrite <- Hup; reflexivity).
  destruct (exported_pair_inv _ _ _ Hp Hexp Hin) as [r [ps [r' [Hr [He Hps]]]]].
  cbn [AffectedPackage.ranges] in Hr. unfold merged_ranges in Hr.
  apply in_map_iff in Hr. destruct Hr as [k [<- _]].
  exact (@merged_range_pair _ _ _ _ _ _ _ He Hps).
Qed.

Lemma round_trip_bounds_witness :
  exists q,
    In q [AffectedRange.mk SEMVER "https://repo" "1.0.0" "1.2.0"] /\
    AffectedRange.fixed q = "1.2.0".
Proof.
  destruct (@round_trip_bounds sample_external
              (new_bug "GHSA-1234" "" "ghsa" None []) _
              (vulnerability_of
                 [AffectedRange.mk SEMVER "https://repo" "1.0.0" "1.2.0"])
              (Affects.mk [] [AffectedRange.mk SEMVER "" "1.0.0" "1.2.0"])
              eq_refl eq_refl
              (AffectedRange.mk SEMVER "" "1.0.0" "1.2.0")
              (or_introl eq_refl))
    as [_ [_ [Hf|[q [Hq [_ [_ Hf]]]]]]]; [discriminate|].
  exists q. split; assumption.
Defined.

(** ** Exporting a record that has been populated *)

(** X26. The export of a record that has been populated from a payload
    succeeds when the payload has no pair of type ECOSYSTEM, and also when
    it has some and the ecosystem of its package has a comparator; the
    exported versions are those of the payload. *)
Theorem populated_export (ext : External) (self self' : Bug.t)
    (vulnerability : Vulnerability.t) :
  update_from_vulnerability self vulnerability = Ok self' ->
  (forall p,
     In p (Affects.ranges (Vulnerability.affects vulnerability)) ->
     AffectedRange.type p = ECOSYSTEM ->
     exists h,
       ecosystems_get ext
         (Package.ecosystem (Vulnerability.package vulnerability)) = Some h) ->
  exists affects,
    exported ext self' = Ok affects /\
    Affects.versions affects =
    Affects.versions (Vulnerability.affects vulnerability).
Proof.
  intros Hup Heco. rewrite update_from_vulnerability_eq in Hup.
  injection Hup as <-.
  assert (Hall : Forall (sortable ext
                           (Package.ecosystem (Vulnerability.package vulnerability)))
                   (merged_ranges
                      (Affects.ranges (Vulnerability.affects vulnerability)))).
  { apply Forall_forall. intros r Hr. unfold merged_ranges in Hr.
    apply in_map_iff in Hr. destruct Hr as [k [<- Hk]].
    apply (proj1 (first_seen_In key_eqb_spec _ _)) in Hk.
    apply in_map_iff in Hk. destruct Hk as [p [<- Hp]].
    unfold sortable. cbn [merged_range AffectedRange2.type range_key fst].
    destruct (AffectedRange.type p) eqn:Hty;
      [left; reflexivity | right; left; reflexivity | right; right].
    split; [reflexivity | exact (Heco p Hp Hty)]. }
  destruct (export_ranges_sortable Hall []) as [out [done Hexp]].
  unfold exported, _get_pre_0_8_affects.
  cbn [Bug.affected_packages AffectedPackage.package AffectedPackage.ranges
       AffectedPackage.versions].
  rewrite Hexp. eexists. split; reflexivity.
Qed.

Lemma populated_export_witness :
  exists affects,
    exported sample_external
      (new_bug "GHSA-1234" "" "ghsa" None
         [AffectedPackage.mk (Package.mk "npm" "left-pad" "")
            [AffectedRange2.mk "GIT" (Some "https://repo")
               [AffectedEvent.mk "introduced" "a"; AffectedEvent.mk "fixed" "b"]]
            []]) = Ok affects /\
    Affects.versions affects = [].
Proof.
  apply (@populated_export sample_external
           (new_bug "GHSA-1234" "" "ghsa" None []) _
           (vulnerability_of [AffectedRange.mk GIT "https://repo" "a" "b"])
           eq_refl).
  intros p [<-|[]]. discriminate.
Defined.

(** ** Stale values *)

(** X27. Once the derivation pass is beyond the lookup of the identifier
    it computes the derived fields anew: the values that [affected_fuzzy],
    [search_indices], [semver_fixed_indexes], [has_affected] and [is_fixed]
    had before have no effect on its result, and neither have those of
    [purl], [project] and [ecosystem] when the record has an affected
    package. A record without affected package keeps these three lists as
    they were. *)
Theorem derived_anew (ext : External) (now : datetime) (self : Bug.t)
    (ident : string) :
  id self = Ok ident ->
  (forall affected_fuzzy search_indices semver_fixed_indexes has_affected
          is_fixed,
     _pre_put_hook ext now
       (with_derived self affected_fuzzy search_indices semver_fixed_indexes
          has_affected is_fixed) =
     _pre_put_hook ext now self) /\
  (Bug.affected_packages self <> [] ->
   forall purl project ecosystem,
     _pre_put_hook ext now (with_names self purl project ecosystem) =
     _pre_put_hook ext now self) /\
  (Bug.affected_packages self = [] ->
   let saved := entity (_pre_put_hook ext now self) in
   Bug.purl saved = Bug.purl self /\ Bug.project saved = Bug.project self /\
   Bug.ecosystem saved = Bug.ecosystem self).
Proof.
  intros Hid. split; [|split].
  - intros. unfold _pre_put_hook.
    change (id (with_derived self affected_fuzzy search_indices
                  semver_fixed_indexes has_affected is_fixed))
      with (id self).
    rewrite Hid. reflexivity.
  - intros Hp purl project ecosystem. unfold _pre_put_hook.
    change (id (with_names self purl project ecosystem)) with (id self).
    rewrite Hid.
    assert (Hd : derive ext now (with_names self purl project ecosystem) ident =
                 derive ext now self ident).
    { unfold derive, with_names. cbn [Bug.affected_packages Bug.purl Bug.project
        Bug.ecosystem Bug.db_id Bug.aliases Bug.related Bug.timestamp
        Bug.last_modified Bug.withdrawn Bug.source_id Bug.summary Bug.details
        Bug.severity Bug.source Bug.key].
      destruct (Bug.affected_packages self); [contradiction | reflexivity]. }
    rewrite Hd. reflexivity.
  - intros Hp saved. unfold saved, _pre_put_hook. rewrite Hid.
    destruct (validate_entity ext (derive ext now self ident)) as [-> | [k ->]];
      unfold derive; cbn [Bug.set_key Bug.purl Bug.project Bug.ecosystem];
      rewrite Hp; auto.
Qed.

Lemma derived_anew_witness :
  Bug.project
    (entity (_pre_put_hook sample_external 7%N
               (with_names (new_bug "GHSA-1234" "" "ghsa" None [])
                  [] ["left-pad"] []))) = ["left-pad"].
Proof.
  exact (proj1 (proj2 (proj2 (proj2 (@derived_anew sample_external 7%N
                                       (with_names
                                          (new_bug "GHSA-1234" "" "ghsa" None [])
                                          [] ["left-pad"] [])
                                       "GHSA-1234" eq_refl)) eq_refl))).
Defined.

(** ** Runs of the further properties *)

Lemma update_ranges_well_formed_witness :
  exists self' package' others,
    update_from_vulnerability (new_bug "GHSA-1234" "" "ghsa" None [])
      (vulnerability_of [AffectedRange.mk GIT "https://repo" "a" "b"]) =
    Ok self' /\
    Bug.affected_packages self' = package' :: others /\
    List.length (AffectedPackage.ranges package') <= 1.
Proof.
  destruct (update_ranges_well_formed (new_bug "GHSA-1234" "" "ghsa" None [])
              (vulnerability_of [AffectedRange.mk GIT "https://repo" "a" "b"]))
    as [self' [package' [others [Hok [Hp [Hlen _]]]]]].
  exists self', package', others. auto.
Defined.

Lemma tokenize_tokens_witness : In "" (_tokenize "@scope/pkg").
Proof.
  exact (proj2 (proj2 (proj2 (proj2 (@tokenize_tokens "@scope/pkg" eq_refl))))
           "@"%char "scope/pkg" eq_refl eq_refl).
Defined.

Lemma repo_url_first_witness :
  repo_url (new_bug "GHSA-1234" "" "ghsa" None []) = None.
Proof.
  apply (proj2 (proj1 (repo_url_first (new_bug "GHSA-1234" "" "ghsa" None [])))).
  intros r [].
Defined.
